(** * Mistral chat: the proxy forwarder and the incremental renderer

    A shallow embedding of
      - [src/app/api/chat/route.ts]  (the handler [POST]: placeholder filter,
        model fallback loop),
      - [lib/sse.ts]                 ([extractDeltaContentFromSSE]),
      - [app/page.tsx]               (the [Page] component: [send], [stop],
        [reset] and the read loop of [send]),
    together with the part of the JavaScript platform these functions call
    (strings, numbers as IEEE 754 doubles, [JSON.parse], [JSON.stringify],
    the conversions to boolean and to string, the [Response] constructor). *)

From stdpp Require Import base numbers list strings.
From Stdlib Require Import QArith Qround Qabs Qpower Lqa.

Set Warnings "-register-all".
Local Open Scope N_scope.

(** ** The JavaScript platform *)

Module Js.

(** A JavaScript string is a sequence of UTF-16 code units. *)
Definition code_unit := N.
Definition jsstring := list code_unit.

(** [js "abc"] is the JavaScript string of an ASCII literal. *)
Fixpoint js (s : string) : jsstring :=
  match s with
  | EmptyString => []
  | String a r => Ascii.N_of_ascii a :: js r
  end.

Definition DQUOTE : code_unit := 34.
Definition APOSTROPHE : code_unit := 39.
Definition BACKSLASH : code_unit := 92.
Definition LF : code_unit := 10.

(** [jsq "{'a':1}"] is the JavaScript string [{"a":1}]: the literal with
    every apostrophe read as a double quote (a way of writing JSON text). *)
Definition jsq (s : string) : jsstring :=
  map (fun c => if c =? APOSTROPHE then DQUOTE else c) (js s).

Fixpoint jsstring_eqb (a b : jsstring) : bool :=
  match a, b with
  | [], [] => true
  | x :: a', y :: b' => (x =? y) && jsstring_eqb a' b'
  | _, _ => false
  end.

(** [String.prototype.startsWith]. *)
Fixpoint startsWith (s p : jsstring) : bool :=
  match p, s with
  | [], _ => true
  | x :: p', y :: s' => (x =? y) && startsWith s' p'
  | _ :: _, [] => false
  end.

(** [s.slice(n)] and [s.slice(0, n)] for [0 <= n]. *)
Definition slice_from (n : nat) (s : jsstring) : jsstring := drop n s.
Definition slice_to (n : nat) (s : jsstring) : jsstring := take n s.

Arguments slice_from : simpl never.
Arguments slice_to : simpl never.

(** [s.indexOf(c)] for a one-unit needle; [None] stands for [-1]. *)
Fixpoint indexOf (c : code_unit) (s : jsstring) : option nat :=
  match s with
  | [] => None
  | x :: r => if x =? c then Some 0%nat else S <$> indexOf c r
  end.

(** The code units [String.prototype.trim] strips: WhiteSpace and
    LineTerminator of ECMAScript. *)
Definition is_js_whitespace (c : code_unit) : bool :=
  ((9 <=? c) && (c <=? 13)) || (c =? 32) || (c =? 160) || (c =? 5760)
  || ((8192 <=? c) && (c <=? 8202)) || (c =? 8232) || (c =? 8233)
  || (c =? 8239) || (c =? 8287) || (c =? 12288) || (c =? 65279).

Fixpoint trimStart (s : jsstring) : jsstring :=
  match s with
  | [] => []
  | c :: r => if is_js_whitespace c then trimStart r else s
  end.

Definition trimEnd (s : jsstring) : jsstring := rev (trimStart (rev s)).

Definition trim (s : jsstring) : jsstring := trimEnd (trimStart s).

Arguments trim : simpl never.

(** [s.split('\n')]: never empty, the last piece is what follows the last
    line feed. *)
Fixpoint split_lines_aux (cur_rev : jsstring) (s : jsstring) : list jsstring :=
  match s with
  | [] => [rev cur_rev]
  | c :: r =>
      if c =? LF then rev cur_rev :: split_lines_aux [] r
      else split_lines_aux (c :: cur_rev) r
  end.

Definition split_lines (s : jsstring) : list jsstring := split_lines_aux [] s.

(** Canonicalisation of a code unit by a regular expression with the [i] flag
    (and without [u]): a code unit below 128 is upper-cased, and a code unit
    from 128 on never canonicalises to one below 128. The patterns of this
    repository are ASCII, so a text unit matches a pattern unit exactly when
    their ASCII upper-casings agree. *)
Definition ascii_upper (c : code_unit) : code_unit :=
  if (97 <=? c) && (c <=? 122) then c - 32 else c.

Fixpoint matches_at_ci (pat s : jsstring) : bool :=
  match pat, s with
  | [], _ => true
  | p :: pat', c :: s' => (ascii_upper p =? ascii_upper c) && matches_at_ci pat' s'
  | _ :: _, [] => false
  end.

(** [/pat/i.test(s)] for a pattern [pat] of literal ASCII characters. *)
Fixpoint regex_test_ci (pat s : jsstring) : bool :=
  matches_at_ci pat s ||
  match s with
  | [] => false
  | _ :: s' => regex_test_ci pat s'
  end.

(** [pat] occurs in [s], the case of ASCII letters set aside. *)
Definition occurs_ci (pat s : jsstring) : Prop :=
  exists pre mid post : jsstring,
    s = pre ++ mid ++ post /\ map ascii_upper mid = map ascii_upper pat.

(** Decimal text of a non-negative integer, as a template literal or
    [JSON.stringify] prints it. *)
Fixpoint uint_text (u : Decimal.uint) : jsstring :=
  match u with
  | Decimal.Nil => []
  | Decimal.D0 r => 48 :: uint_text r
  | Decimal.D1 r => 49 :: uint_text r
  | Decimal.D2 r => 50 :: uint_text r
  | Decimal.D3 r => 51 :: uint_text r
  | Decimal.D4 r => 52 :: uint_text r
  | Decimal.D5 r => 53 :: uint_text r
  | Decimal.D6 r => 54 :: uint_text r
  | Decimal.D7 r => 55 :: uint_text r
  | Decimal.D8 r => 56 :: uint_text r
  | Decimal.D9 r => 57 :: uint_text r
  end.

Definition Z_text (z : Z) : jsstring :=
  match z with
  | Z0 => [48]
  | Zpos p => uint_text (Pos.to_uint p)
  | Zneg p => 45 :: uint_text (Pos.to_uint p)
  end.

(** *** Numbers

    A Number is an IEEE 754 double: a rational that a double holds, or an
    infinity (no computation of this repository makes a NaN, and the sign of
    a zero is never seen). An arithmetic operation, and the reading of a
    numeric literal, give the double nearest to the exact result, a tie going
    to the even mantissa. *)
Inductive number :=
| Finite (q : Q)
| Infinite (negative : bool).

Definition pow2 (e : Z) : Q := Qpower 2 e.
Definition pow10 (e : Z) : Q := Qpower 10 e.

Definition round_half_even (q : Q) : Z :=
  let f := Qfloor q in
  match Qcompare (q - inject_Z f) (1 # 2) with
  | Lt => f
  | Gt => (f + 1)%Z
  | Eq => if Z.even f then f else (f + 1)%Z
  end.

(** The [l] with [2 ^ l <= q < 2 ^ (l + 1)], for [0 < q]. *)
Definition ilog2 (q : Q) : Z :=
  let l := (Z.log2 (Qnum q) - Z.log2 (Zpos (Qden q)))%Z in
  if Qle_bool (pow2 l) q then l else (l - 1)%Z.

(** The double nearest to [q]: a mantissa of 53 bits, an exponent from -1074
    on (the subnormals), and the infinity from [2 ^ 1024] on. *)
Definition nearest_double (q : Q) : number :=
  match Qcompare q 0 with
  | Eq => Finite 0
  | c =>
      let a := Qabs q in
      let e := Z.max (ilog2 a - 52) (-1074) in
      let m := round_half_even (a / pow2 e) in
      let x := Qred (inject_Z m * pow2 e) in
      let negative := match c with Lt => true | _ => false end in
      if Qle_bool (pow2 1024) x then Infinite negative
      else Finite (if negative then Qopp x else x)
  end.

(** [q] is the value of a double. *)
Definition is_double (q : Q) : Prop :=
  exists x : Q, nearest_double q = Finite x /\ (x == q)%Q.

(** The largest double below 1. *)
Definition MAX_RANDOM : Q := 9007199254740991 # 9007199254740992.

(** [a * b] for two doubles. *)
Definition double_mul (a b : Q) : number := nearest_double (a * b).

(** [Math.floor] of a Number that is finite. *)
Definition Math_floor (x : number) : Z :=
  match x with
  | Finite q => Qfloor q
  | Infinite _ => 0%Z
  end.

(** The mathematical value of a numeric literal of JSON: a sign, digits, a
    fraction, an exponent. *)
Fixpoint read_digits (acc count : Z) (s : list N) : Z * Z * list N :=
  match s with
  | c :: r =>
      if (48 <=? c) && (c <=? 57)
      then read_digits (acc * 10 + Z.of_N (c - 48)) (count + 1) r
      else (acc, count, s)
  | [] => (acc, count, s)
  end.

Definition literal_value (lexeme : list N) : Q :=
  let '(negative, s) :=
    match lexeme with
    | 45 :: r => (true, r)
    | _ => (false, lexeme)
    end in
  let '(int_part, _, s1) := read_digits 0 0 s in
  let '(mantissa, scale, s2) :=
    match s1 with
    | 46 :: r => read_digits int_part 0 r
    | _ => (int_part, 0%Z, s1)
    end in
  let exponent :=
    match s2 with
    | c :: r =>
        if (c =? 101) || (c =? 69) then
          match r with
          | 45 :: d => (- (read_digits 0 0 d).1.1)%Z
          | 43 :: d => (read_digits 0 0 d).1.1
          | d => (read_digits 0 0 d).1.1
          end
        else 0%Z
    | [] => 0%Z
    end in
  let magnitude := (inject_Z mantissa * pow10 (exponent - scale))%Q in
  if negative then Qopp magnitude else magnitude.

(** The Number that [JSON.parse] makes of a numeric literal. *)
Definition number_of_literal (lexeme : list N) : number :=
  nearest_double (literal_value lexeme).

Definition number_is_zero (x : number) : bool :=
  match x with
  | Finite q => Qeq_bool q 0
  | Infinite _ => false
  end.

(** *** JSON values

    [JNum] keeps the literal text of a number. [JObj] keeps the members in
    source order, duplicates included: a property read sees the last one, as
    [JSON.parse] overwrites an earlier member of the same name. *)
Inductive json :=
| JNull
| JBool (b : bool)
| JNum (lexeme : jsstring)
| JStr (s : jsstring)
| JArr (items : list json)
| JObj (members : list (jsstring * json)).

(** *** [JSON.parse]

    A pushdown automaton over the code units of the text: [frame]s are the
    arrays and objects under construction, [pos] is the place in the grammar
    (ECMA-404). [None] is the [SyntaxError] of [JSON.parse]. *)
Inductive frame :=
| FArr (done_rev : list json)
| FObj (done_rev : list (jsstring * json)) (key : option jsstring).

Inductive esc_state :=
| ENone
| EBackslash
| EUnicode (hex : list N).

Inductive num_state :=
| NSign | NZero | NInt | NDot | NFrac | NExp | NExpSign | NExpDigits.

Inductive pos :=
| PValue
| PFirst
| PKey
| PColon
| PNext
| PDone (v : json)
| PString (is_key : bool) (acc_rev : jsstring) (esc : esc_state)
| PNumber (acc_rev : jsstring) (st : num_state)
| PLiteral (rest : jsstring) (v : json).

Definition pstate : Type := list frame * pos.

Definition is_json_ws (c : code_unit) : bool :=
  (c =? 9) || (c =? 10) || (c =? 13) || (c =? 32).

Definition is_digit (c : code_unit) : bool := (48 <=? c) && (c <=? 57).

Definition hex_value (c : code_unit) : option N :=
  if is_digit c then Some (c - 48)
  else if (97 <=? c) && (c <=? 102) then Some (c - 87)
  else if (65 <=? c) && (c <=? 70) then Some (c - 55)
  else None.

Definition num_accepting (st : num_state) : bool :=
  match st with
  | NZero | NInt | NFrac | NExpDigits => true
  | NSign | NDot | NExp | NExpSign => false
  end.

(** A complete value goes to the innermost open container. *)
Definition deliver (v : json) (stack : list frame) : option pstate :=
  match stack with
  | [] => Some ([], PDone v)
  | FArr d :: st => Some (FArr (v :: d) :: st, PNext)
  | FObj d (Some k) :: st => Some (FObj ((k, v) :: d) None :: st, PNext)
  | FObj _ None :: _ => None
  end.

Definition start_value (c : code_unit) (stack : list frame) : option pstate :=
  if c =? 123 then Some (FObj [] None :: stack, PFirst)
  else if c =? 91 then Some (FArr [] :: stack, PFirst)
  else if c =? DQUOTE then Some (stack, PString false [] ENone)
  else if c =? 45 then Some (stack, PNumber [c] NSign)
  else if c =? 48 then Some (stack, PNumber [c] NZero)
  else if is_digit c then Some (stack, PNumber [c] NInt)
  else if c =? 116 then Some (stack, PLiteral (js "rue") (JBool true))
  else if c =? 102 then Some (stack, PLiteral (js "alse") (JBool false))
  else if c =? 110 then Some (stack, PLiteral (js "ull") JNull)
  else None.

(** After a complete element: a comma or the closing bracket. *)
Definition after_element (c : code_unit) (stack : list frame) : option pstate :=
  match stack with
  | FArr d :: st =>
      if c =? 44 then Some (stack, PValue)
      else if c =? 93 then deliver (JArr (rev d)) st
      else None
  | FObj d None :: st =>
      if c =? 44 then Some (stack, PKey)
      else if c =? 125 then deliver (JObj (rev d)) st
      else None
  | _ => None
  end.

(** The code unit that ends a number is not part of it: it is read again in
    the position the number leaves. *)
Definition after_number (c : code_unit) (s : pstate) : option pstate :=
  match s with
  | (stack, PNext) => if is_json_ws c then Some s else after_element c stack
  | (_, PDone _) => if is_json_ws c then Some s else None
  | _ => None
  end.

Definition step_number (c : code_unit) (stack : list frame)
    (acc : jsstring) (st : num_state) : option pstate :=
  let continue st' := Some (stack, PNumber (c :: acc) st') in
  let finish :=
    if num_accepting st then deliver (JNum (rev acc)) stack ≫= after_number c
    else None in
  let is_e := (c =? 101) || (c =? 69) in
  match st with
  | NSign => if c =? 48 then continue NZero
             else if is_digit c then continue NInt else None
  | NZero => if c =? 46 then continue NDot
             else if is_e then continue NExp else finish
  | NInt => if is_digit c then continue NInt
            else if c =? 46 then continue NDot
            else if is_e then continue NExp else finish
  | NDot => if is_digit c then continue NFrac else None
  | NFrac => if is_digit c then continue NFrac
             else if is_e then continue NExp else finish
  | NExp => if (c =? 43) || (c =? 45) then continue NExpSign
            else if is_digit c then continue NExpDigits else None
  | NExpSign => if is_digit c then continue NExpDigits else None
  | NExpDigits => if is_digit c then continue NExpDigits else finish
  end.

Definition end_string (is_key : bool) (s : jsstring) (stack : list frame)
    : option pstate :=
  if is_key then
    match stack with
    | FObj d None :: st => Some (FObj d (Some s) :: st, PColon)
    | _ => None
    end
  else deliver (JStr s) stack.

Definition step_string (c : code_unit) (stack : list frame) (is_key : bool)
    (acc : jsstring) (esc : esc_state) : option pstate :=
  let push u := Some (stack, PString is_key (u :: acc) ENone) in
  match esc with
  | ENone =>
      if c =? DQUOTE then end_string is_key (rev acc) stack
      else if c =? BACKSLASH then Some (stack, PString is_key acc EBackslash)
      else if c <? 32 then None
      else push c
  | EBackslash =>
      if (c =? DQUOTE) || (c =? BACKSLASH) || (c =? 47) then push c
      else if c =? 98 then push 8
      else if c =? 102 then push 12
      else if c =? 110 then push 10
      else if c =? 114 then push 13
      else if c =? 116 then push 9
      else if c =? 117 then Some (stack, PString is_key acc (EUnicode []))
      else None
  | EUnicode hex =>
      match hex_value c with
      | None => None
      | Some h =>
          match hex with
          | [a; b; d] => push (((a * 16 + b) * 16 + d) * 16 + h)
          | _ => Some (stack, PString is_key acc (EUnicode (hex ++ [h])))
          end
      end
  end.

Definition step (s : pstate) (c : code_unit) : option pstate :=
  let '(stack, p) := s in
  match p with
  | PValue => if is_json_ws c then Some s else start_value c stack
  | PFirst =>
      if is_json_ws c then Some s
      else match stack with
           | FArr [] :: st =>
               if c =? 93 then deliver (JArr []) st else start_value c stack
           | FObj [] None :: st =>
               if c =? 125 then deliver (JObj []) st
               else if c =? DQUOTE then Some (stack, PString true [] ENone)
               else None
           | _ => None
           end
  | PKey =>
      if is_json_ws c then Some s
      else if c =? DQUOTE then Some (stack, PString true [] ENone)
      else None
  | PColon =>
      if is_json_ws c then Some s
      else if c =? 58 then Some (stack, PValue)
      else None
  | PNext => if is_json_ws c then Some s else after_element c stack
  | PDone _ => if is_json_ws c then Some s else None
  | PString is_key acc esc => step_string c stack is_key acc esc
  | PNumber acc st => step_number c stack acc st
  | PLiteral rest v =>
      match rest with
      | [] => None
      | r :: rest' =>
          if c =? r then
            match rest' with
            | [] => deliver v stack
            | _ => Some (stack, PLiteral rest' v)
            end
          else None
      end
  end.

Fixpoint run_parser (s : pstate) (text : jsstring) : option pstate :=
  match text with
  | [] => Some s
  | c :: r => step s c ≫= fun s' => run_parser s' r
  end.

Definition finish_parser (s : pstate) : option json :=
  match s with
  | (_, PDone v) => Some v
  | ([], PNumber acc st) => if num_accepting st then Some (JNum (rev acc)) else None
  | _ => None
  end.

Definition JSON_parse (text : jsstring) : option json :=
  run_parser ([], PValue) text ≫= finish_parser.

(** *** Property reads with optional chaining

    A JavaScript value read off parsed JSON is a [json] or [undefined]
    ([None]). *)
Definition jsval := option json.

Fixpoint last_binding (k : jsstring) (m : list (jsstring * json)) : jsval :=
  match m with
  | [] => None
  | (k', v) :: r =>
      match last_binding k r with
      | Some w => Some w
      | None => if jsstring_eqb k k' then Some v else None
      end
  end.

(** [base?.name] for a property name that no built-in prototype defines and
    that is not an array index (here: choices, delta, content): only an
    object can have it. *)
Definition get_prop (name : jsstring) (base : jsval) : jsval :=
  match base with
  | Some (JObj m) => last_binding name m
  | _ => None
  end.

(** [base?.[0]]: the first element of an array, the first code unit of a
    string, the member named "0" of an object. *)
Definition get_index0 (base : jsval) : jsval :=
  match base with
  | Some (JArr l) => head l
  | Some (JStr (c :: _)) => Some (JStr [c])
  | Some (JObj m) => last_binding [48] m
  | _ => None
  end.

(** *** [JSON.stringify]

    Applied by the handlers to values they build themselves (the numbers in
    them are integers, whose literal is their decimal text). *)
Definition hex_digit (n : N) : code_unit := if n <? 10 then 48 + n else 87 + n.

Definition unicode_escape (c : code_unit) : jsstring :=
  [BACKSLASH; 117; hex_digit (c / 4096 mod 16); hex_digit (c / 256 mod 16);
   hex_digit (c / 16 mod 16); hex_digit (c mod 16)].

Definition is_lead_surrogate (c : code_unit) : bool := (55296 <=? c) && (c <=? 56319).
Definition is_trail_surrogate (c : code_unit) : bool := (56320 <=? c) && (c <=? 57343).

Definition quote_unit (c : code_unit) : jsstring :=
  if c =? DQUOTE then [BACKSLASH; DQUOTE]
  else if c =? BACKSLASH then [BACKSLASH; BACKSLASH]
  else if c =? 8 then [BACKSLASH; 98]
  else if c =? 12 then [BACKSLASH; 102]
  else if c =? 10 then [BACKSLASH; 110]
  else if c =? 13 then [BACKSLASH; 114]
  else if c =? 9 then [BACKSLASH; 116]
  else if c <? 32 then unicode_escape c
  else [c].

(** A surrogate pair is kept, a lone surrogate is escaped. *)
Fixpoint quote_units (s : jsstring) : jsstring :=
  match s with
  | [] => []
  | c :: r =>
      if is_lead_surrogate c then
        match r with
        | d :: r' =>
            if is_trail_surrogate d then c :: d :: quote_units r'
            else unicode_escape c ++ quote_units r
        | [] => unicode_escape c
        end
      else if is_trail_surrogate c then unicode_escape c ++ quote_units r
      else quote_unit c ++ quote_units r
  end.

Definition quote (s : jsstring) : jsstring := [DQUOTE] ++ quote_units s ++ [DQUOTE].

Fixpoint join_comma (parts : list jsstring) : jsstring :=
  match parts with
  | [] => []
  | [p] => p
  | p :: r => p ++ [44] ++ join_comma r
  end.

Fixpoint JSON_stringify (v : json) : jsstring :=
  match v with
  | JNull => js "null"
  | JBool true => js "true"
  | JBool false => js "false"
  | JNum lexeme => lexeme
  | JStr s => quote s
  | JArr items => [91] ++ join_comma (map JSON_stringify items) ++ [93]
  | JObj members =>
      [123] ++ join_comma (map (fun kv => quote kv.1 ++ [58] ++ JSON_stringify kv.2) members)
      ++ [125]
  end.

(** An object literal whose [undefined] members [JSON.stringify] leaves out. *)
Definition object_literal (fields : list (jsstring * option json)) : json :=
  JObj (omap (fun kv => match kv.2 with Some v => Some (kv.1, v) | None => None end) fields).

(** *** [Number::toString] and the conversion of a value to a string

    The digits of a Number are the fewest that give the Number back when
    read, the nearest to it among those (ECMA-262, Number::toString). *)
Definition decimal_digits (z : Z) : jsstring :=
  match z with
  | Zpos p => uint_text (Pos.to_uint p)
  | _ => [48]
  end.

(** The [n] with [10 ^ (n - 1) <= x < 10 ^ n], for [0 < x]. *)
Definition decimal_exponent (x : Q) : Z :=
  let d := (Z.of_nat (length (decimal_digits (Qnum x)))
            - Z.of_nat (length (decimal_digits (Zpos (Qden x)))))%Z in
  if Qle_bool (pow10 d) x then (d + 1)%Z else d.

Definition same_double (c x : Q) : bool :=
  match nearest_double c with
  | Finite y => Qeq_bool y x
  | Infinite _ => false
  end.

(** The [s] of [k] digits and the [n] with [s * 10 ^ (n - k)] read as [x],
    if there is one: the nearer of the two neighbours of [x] on the grid. *)
Definition digits_for (x : Q) (n0 k : Z) : option (Z * Z) :=
  let scale := pow10 (n0 - k) in
  let t := (x / scale)%Q in
  let lo := Qfloor t in
  let hi := (lo + 1)%Z in
  let lo_ok := same_double (inject_Z lo * scale) x in
  let hi_ok := same_double (inject_Z hi * scale) x in
  let carry (s : Z) := if (s =? 10 ^ k)%Z then (10 ^ (k - 1), n0 + 1)%Z else (s, n0) in
  match lo_ok, hi_ok with
  | true, true => Some (carry (round_half_even t))
  | true, false => Some (lo, n0)
  | false, true => Some (carry hi)
  | false, false => None
  end.

Fixpoint shortest_digits (x : Q) (n0 : Z) (ks : list Z) : Z * Z * Z :=
  match ks with
  | [] => (0, 0, 0)%Z
  | k :: rest =>
      match digits_for x n0 k with
      | Some (s, n) => (s, n, k)
      | None => shortest_digits x n0 rest
      end
  end.

Definition zeros (n : Z) : jsstring := replicate (Z.to_nat n) 48.

Definition Number_toString (x : number) : jsstring :=
  match x with
  | Infinite negative => (if negative then [45] else []) ++ js "Infinity"
  | Finite q =>
      match Qcompare q 0 with
      | Eq => [48]
      | c =>
          let '(s, n, k) :=
            shortest_digits (Qabs q) (decimal_exponent (Qabs q))
              (map Z.of_nat (seq 1 17)) in
          let digits := decimal_digits s in
          let text :=
            if ((k <=? n) && (n <=? 21))%Z then digits ++ zeros (n - k)
            else if ((0 <? n) && (n <=? 21))%Z then
              take (Z.to_nat n) digits ++ [46] ++ drop (Z.to_nat n) digits
            else if ((-6 <? n) && (n <=? 0))%Z then js "0." ++ zeros (- n) ++ digits
            else
              let e := (n - 1)%Z in
              let exponent :=
                (if (e <? 0)%Z then [45] else [43]) ++ decimal_digits (Z.abs e) in
              match digits with
              | [d] => [d] ++ [101] ++ exponent
              | d :: more => [d] ++ [46] ++ more ++ [101] ++ exponent
              | [] => []
              end in
          match c with
          | Lt => 45 :: text
          | _ => text
          end
      end
  end.

(** [ToBoolean] of a value read off parsed JSON. *)
Definition truthy (v : json) : bool :=
  match v with
  | JNull | JBool false | JStr [] => false
  | JNum lexeme => negb (number_is_zero (number_of_literal lexeme))
  | _ => true
  end.

(** ['' + v]: the string of a value read off parsed JSON. An array is
    joined with commas ([null] gives nothing there); an object of
    [JSON.parse] gives "[object Object]", unless it has a member named
    [toString]: no member made by [JSON.parse] can be called, and the
    conversion throws a [TypeError] ([None]). *)
Fixpoint to_text (v : json) : option jsstring :=
  match v with
  | JNull => Some (js "null")
  | JBool true => Some (js "true")
  | JBool false => Some (js "false")
  | JNum lexeme => Some (Number_toString (number_of_literal lexeme))
  | JStr s => Some s
  | JArr items =>
      join_comma <$>
        (fix elements (l : list json) : option (list jsstring) :=
           match l with
           | [] => Some []
           | x :: r =>
               t ← match x with
                   | JNull => Some []
                   | _ => to_text x
                   end;
               ts ← elements r;
               Some (t :: ts)
           end) items
  | JObj members =>
      if existsb (fun kv => jsstring_eqb kv.1 (js "toString")) members
      then None
      else Some (js "[object Object]")
  end.

(** *** Thrown values

    What the handlers read off a caught value [e]: [e?.name], [e?.message],
    [e?.code] and [String(e)]. *)
Record thrown := {
  t_name : option jsstring;
  t_message : option jsstring;
  t_code : option jsstring;
  t_string : jsstring;
}.

(** [e?.message || String(e)]: an absent or empty message is falsy. *)
Definition message_or_string (e : thrown) : jsstring :=
  match t_message e with
  | Some (c :: m) => c :: m
  | _ => t_string e
  end.

(** [e?.message || '']. *)
Definition message_or_empty (e : thrown) : jsstring :=
  match t_message e with
  | Some m => m
  | None => []
  end.

(** *** The [Response] constructor of the Fetch standard *)
Inductive body :=
| BodyText (text : jsstring)
| BodyStream (chunks : list jsstring).

Record response := {
  status : Z;
  headers : list (jsstring * jsstring);
  body_of : body;
}.

(** Why [new Response(body, init)] can throw: a status outside 200..599
    ([RangeError]), a header value that is not a valid byte string
    ([TypeError]), a body given with a null-body status ([TypeError]). *)
Inductive init_failure := BadStatus | BadHeader | NullBodyStatus.

Definition is_http_whitespace (c : code_unit) : bool :=
  (c =? 9) || (c =? 10) || (c =? 13) || (c =? 32).

Fixpoint strip_http_whitespace_start (s : jsstring) : jsstring :=
  match s with
  | [] => []
  | c :: r => if is_http_whitespace c then strip_http_whitespace_start r else s
  end.

(** A header value is normalised by stripping HTTP whitespace at both ends. *)
Definition normalize_header_value (v : jsstring) : jsstring :=
  rev (strip_http_whitespace_start (rev (strip_http_whitespace_start v))).

Definition header_value_ok (v : jsstring) : bool :=
  forallb (fun c => (c <=? 255) && negb (c =? 0) && negb (c =? 10) && negb (c =? 13))
          (normalize_header_value v).

Definition null_body_status (st : Z) : bool :=
  ((st =? 101) || (st =? 103) || (st =? 204) || (st =? 205) || (st =? 304))%Z.

Definition has_header (name : jsstring) (hs : list (jsstring * jsstring)) : bool :=
  existsb (fun h => jsstring_eqb (map ascii_upper h.1) (map ascii_upper name)) hs.

(** [new Response(b, { status: st, headers: hs })] with a body [b] that is
    not null and header names that are valid tokens. A text body brings its
    [content-type] when [hs] has none. *)
Definition new_Response (b : body) (st : Z) (hs : list (jsstring * jsstring))
    : init_failure + response :=
  if negb ((200 <=? st) && (st <=? 599))%Z then inl BadStatus
  else if negb (forallb (fun h => header_value_ok h.2) hs) then inl BadHeader
  else if null_body_status st then inl NullBodyStatus
  else
    let hs' := map (fun h => (h.1, normalize_header_value h.2)) hs in
    let hs'' :=
      match b with
      | BodyText _ =>
          if has_header (js "content-type") hs' then hs'
          else hs' ++ [(js "content-type", js "text/plain;charset=UTF-8")]
      | BodyStream _ => hs'
      end in
    inr {| status := st; headers := hs''; body_of := b |}.

(** [response.headers.get(name)]: names compare without regard to case. *)
Fixpoint headers_get (name : jsstring) (hs : list (jsstring * jsstring)) : option jsstring :=
  match hs with
  | [] => None
  | (k, v) :: r =>
      if jsstring_eqb (map ascii_upper k) (map ascii_upper name) then Some v
      else headers_get name r
  end.

End Js.

(** ** lib/sse.ts *)

Module Sse.
Import Js.

(** The outcome of [JSON.parse(data)] followed by
    [obj?.choices?.[0]?.delta?.content ?? ''] and the test [if (delta)].

    The source declares the fragment a [string]; what it finds at the path
    can be any value of JSON. A value that is falsy ([null], [false], the
    empty string, a zero) is no fragment; a string that is not empty is kept
    apart from the other truthy values (a number that is not zero, [true], an
    array, an object). *)
Inductive delta_result :=
| ParseError                   (* JSON.parse threw: caught and ignored *)
| NoDelta                      (* the fragment is falsy: nothing to append *)
| Delta (fragment : jsstring)  (* a non-empty string *)
| Truthy (v : json).           (* a truthy value that is not a string *)

Definition delta_path (obj : json) : jsval :=
  get_prop (js "content") (get_prop (js "delta") (get_index0 (get_prop (js "choices") (Some obj)))).

Definition delta_of_payload (data : jsstring) : delta_result :=
  match JSON_parse data with
  | None => ParseError
  | Some obj =>
      match delta_path obj with
      | None => NoDelta                            (* ?? '' , then falsy *)
      | Some (JStr (c :: s)) => Delta (c :: s)
      | Some v => if truthy v then Truthy v else NoDelta
      end
  end.

Definition DATA_MARKER : jsstring := js "data:".
Definition DONE_SENTINEL : jsstring := js "[DONE]".

(** The body of the [for] loop on one [line]: what it pushes on [out], the
    value as it is. *)
Definition fragment_of_line (line : jsstring) : list json :=
  if negb (startsWith line DATA_MARKER) then []
  else
    let data := trim (slice_from 5 line) in
    if jsstring_eqb data [] || jsstring_eqb data DONE_SENTINEL then []
    else match delta_of_payload data with
         | ParseError | NoDelta => []
         | Delta d => [JStr d]
         | Truthy v => [v]
         end.

Fixpoint collect (lines : list jsstring) : list json :=
  match lines with
  | [] => []
  | line :: r => fragment_of_line line ++ collect r
  end.

Definition extractDeltaContentFromSSE (buffer : jsstring) : list json :=
  collect (split_lines buffer).

End Sse.

(** ** app/api/chat/route.ts *)

Module Route.
Import Js.

(** A message of the request body, at the type of the interface
    ([{ role, content }], with the [tool_calls] of an assistant message): the
    role and the content are strings, the tool calls an array. [content] and
    [tool_calls] are [None] when the member is absent or [null]. The handler
    itself reads the messages as [any]. *)
Record message := {
  role : jsstring;
  content : option jsstring;
  tool_calls : option (list json);
}.

(** The request body [{ messages, model?, temperature? }]; [messages] is
    [None] when the member is absent, [null] or not an array, [temperature]
    is [None] when it is not a number. *)
Record payload := {
  messages : option (list message);
  model : option jsstring;
  temperature : option Q;
}.

(** The result of [await req.json()]. *)
Inductive request_json :=
| BodyOk (p : payload)
| BodyBad (e : thrown).

(** [process.env] and the file system, as the handler reads them. *)
Record env := {
  MISTRAL_API_KEY : option jsstring;
  NODE_EXTRA_CA_CERTS : option jsstring;
  ALLOW_INSECURE_TLS : option jsstring;
  fs_existsSync : jsstring -> bool;
  fs_readFileSync : jsstring -> option (list N);   (* [None]: it throws *)
}.

(** The JSON body and the credential of one [axios.post]. *)
Record upstream_request := {
  req_model : jsstring;
  req_messages : list message;
  req_temperature : Q;
  req_stream : bool;
  req_safe_prompt : bool;
  req_authorization : jsstring;
}.

(** What [axios.post] resolves to ([validateStatus] accepts every status):
    the status and the body stream, given by the chunks (as text) that it
    emits before it ends; [res_data] is [None] when there is no stream. A
    stream that fails or never ends is not modelled. *)
Record upstream_response := {
  res_status : Z;
  res_data : option (list jsstring);
}.

Inductive post_result :=
| Resolved (res : upstream_response)
| Rejected (e : thrown).

(** The effects of one run of the handler, in order. *)
Inductive event :=
| Sleep (ms : Z)
| Post (req : upstream_request).

Definition trace := list event.

(** The requests of a trace, in order. *)
Fixpoint posts (tr : trace) : list upstream_request :=
  match tr with
  | [] => []
  | Post req :: r => req :: posts r
  | Sleep _ :: r => posts r
  end.

Definition DEFAULT_MODEL : jsstring := js "mistral-large-latest".
Definition MEDIUM_MODEL : jsstring := js "mistral-medium-latest".
Definition SMALL_MODEL : jsstring := js "mistral-small-latest".
Definition CAPACITY_PATTERN : jsstring := js "service_tier_capacity_exceeded".

(** The predicate of [incoming.filter]:
    [!(m?.role === 'assistant'
       && (!m?.content || String(m.content).trim() === '')
       && (!m?.tool_calls || m.tool_calls.length === 0))]. *)
Definition blank_content (m : message) : bool :=
  match content m with
  | None | Some [] => true
  | Some s => jsstring_eqb (trim s) []
  end.

Definition no_tool_calls (m : message) : bool :=
  match tool_calls m with
  | None => true
  | Some calls => Nat.eqb (length calls) 0
  end.

Definition keep_message (m : message) : bool :=
  negb (jsstring_eqb (role m) (js "assistant") && blank_content m && no_tool_calls m).

(** An assistant message with empty or whitespace-only content (or none)
    and no tool call: the placeholder of the page is one. *)
Definition empty_assistant (m : message) : Prop :=
  role m = js "assistant"
  /\ (forall s : jsstring, content m = Some s -> trim s = [])
  /\ (forall calls : list json, tool_calls m = Some calls -> calls = []).

(** The candidate paths of the CA bundle, after [.filter(Boolean)]. *)
Definition caCandidates (e : env) : list jsstring :=
  match NODE_EXTRA_CA_CERTS e with
  | Some (c :: p) => [c :: p]
  | _ => []
  end ++
  [js "/etc/ssl/cert.pem"; js "/private/etc/ssl/cert.pem";
   js "/etc/ssl/certs/ca-certificates.crt"; js "/etc/pki/tls/certs/ca-bundle.crt";
   js "/usr/local/etc/openssl@3/cert.pem"; js "/opt/homebrew/etc/openssl@3/cert.pem"].

(** The first candidate that exists and can be read is [caPathUsed]. *)
Fixpoint find_ca (e : env) (paths : list jsstring) : option jsstring :=
  match paths with
  | [] => None
  | p :: r =>
      if fs_existsSync e p then
        match fs_readFileSync e p with
        | Some _ => Some p
        | None => find_ca e r
        end
      else find_ca e r
  end.

(** A path that [fs.existsSync] finds and [fs.readFileSync] reads. *)
Definition readable (e : env) (path : jsstring) : Prop :=
  fs_existsSync e path = true /\ fs_readFileSync e path <> None.

(** [process.env.ALLOW_INSECURE_TLS === '1']. *)
Definition allow_insecure (e : env) : bool :=
  match ALLOW_INSECURE_TLS e with
  | Some v => jsstring_eqb v (js "1")
  | None => false
  end.

Definition isSuccess (res : upstream_response) : bool :=
  ((200 <=? res_status res) && (res_status res <? 300))%Z
  && match res_data res with Some _ => true | None => false end.

(** The error body read off the stream: the concatenation of its chunks,
    [''] without a stream. *)
Definition errText (res : upstream_response) : jsstring :=
  match res_data res with
  | None => []
  | Some chunks => concat chunks
  end.

Definition is429 (res : upstream_response) : bool :=
  (res_status res =? 429)%Z || regex_test_ci CAPACITY_PATTERN (errText res).

(** A capacity signal: a response that is not a success and has status 429
    or the capacity message in its body. *)
Definition capacity_signal (r : post_result) : bool :=
  match r with
  | Resolved res => negb (isSuccess res) && is429 res
  | Rejected _ => false
  end.

(** The models in the order of the attempts: each candidate twice. *)
Definition twice (candidates : list jsstring) : list jsstring :=
  concat (map (fun m => [m; m]) candidates).

(** The path of the CA bundle, when there is one, can be the value of the
    header [X-CA-Used]. *)
Definition ca_header_ok (caPathUsed : option jsstring) : Prop :=
  match caPathUsed with
  | Some p => header_value_ok p = true
  | None => True
  end.

(** What one iteration of the loops does next. *)
Inductive outcome :=
| Return (r : response)        (* [return new Response(...)] *)
| Throw (e : thrown)           (* an exception reaches the [catch] *)
| Continue.                    (* go on with the loop *)

Section Handler.

(** The environment of a run: the upstream API and [Math.random], each as a
    function of what the run has done so far, and the values the [Response]
    constructor throws. [Math_random] gives the value of the Number that
    [Math.random()] returns: a double, at least 0 and less than 1. *)
Variable axios_post : trace -> upstream_request -> post_result.
Variable Math_random : trace -> Q.
Variable init_error : init_failure -> thrown.

Definition respond (b : body) (st : Z) (hs : list (jsstring * jsstring)) : outcome :=
  match new_Response b st hs with
  | inr r => Return r
  | inl f => Throw (init_error f)
  end.

Section Request.

Variable key : jsstring.
Variable msgs : list message.
Variable temp : Q.
Variable caPathUsed : option jsstring.
Variable allowInsecure : bool.

Definition request_for (m : jsstring) : upstream_request :=
  {| req_model := m; req_messages := msgs; req_temperature := temp;
     req_stream := true; req_safe_prompt := true;
     req_authorization := js "Bearer " ++ key |}.

Definition success_headers (m : jsstring) : list (jsstring * jsstring) :=
  [(js "Content-Type", js "text/event-stream; charset=utf-8");
   (js "Cache-Control", js "no-cache, no-transform");
   (js "Connection", js "keep-alive");
   (js "X-Model-Used", m)]
  ++ match caPathUsed with
     | Some (c :: p) => [(js "X-CA-Used", c :: p)]
     | _ => []
     end.

Definition error_meta (st : Z) (m : jsstring) : json :=
  object_literal
    [(js "status", Some (JNum (Z_text st)));
     (js "modelTried", Some (JStr m));
     (js "caPathUsed", JStr <$> caPathUsed);
     (js "allowInsecure", Some (JBool allowInsecure))].

(** [`Upstream ${res.status}: ${errText}\n${meta}`]. *)
Definition upstream_error_text (res : upstream_response) (m : jsstring) : jsstring :=
  js "Upstream " ++ Z_text (res_status res) ++ js ": " ++ errText res ++ [LF]
  ++ JSON_stringify (error_meta (res_status res) m).

(** [if (attempt > 0) { ...; await sleep(base + jitter); }]. The product
    [Math.random() * base] is the product of two doubles. [Math.random] gives
    a Number of [0, 1): the product is finite, its floor is an integer below
    [base], and [base + jitter] is exact. *)
Definition backoff (attempt : nat) (tr : trace) : trace :=
  if (0 <? attempt)%nat then
    let base := (200 * 2 ^ (Z.of_nat attempt - 1))%Z in
    let jitter := Math_floor (double_mul (Math_random tr) (inject_Z base)) in
    tr ++ [Sleep (base + jitter)]
  else tr.

(** The inner loop [for (let attempt = 0; attempt < 2; attempt++)], over the
    attempt numbers still to run. *)
Fixpoint try_attempts (m : jsstring) (attempts : list nat) (tr : trace)
    : outcome * trace :=
  match attempts with
  | [] => (Continue, tr)
  | attempt :: rest =>
      let tr1 := backoff attempt tr in
      let req := request_for m in
      let tr2 := tr1 ++ [Post req] in
      match axios_post tr1 req with
      | Rejected e => (Throw e, tr2)
      | Resolved res =>
          if isSuccess res then
            (respond (BodyStream (default [] (res_data res))) 200 (success_headers m), tr2)
          else if negb (is429 res) then
            (respond (BodyText (upstream_error_text res m)) (res_status res) [], tr2)
          else try_attempts m rest tr2
      end
  end.

(** The outer loop [for (const m of modelCandidates)]. *)
Fixpoint try_models (candidates : list jsstring) (tr : trace) : outcome * trace :=
  match candidates with
  | [] => (Continue, tr)
  | m :: rest =>
      match try_attempts m [0; 1]%nat tr with
      | (Continue, tr') => try_models rest tr'
      | stop => stop
      end
  end.

(** The trace before the second attempt for [m], when the first was sent
    after [tr], and the trace after the second attempt. *)
Definition before_retry (m : jsstring) (tr : trace) : trace :=
  backoff 1 (tr ++ [Post (request_for m)]).
Definition after_retry (m : jsstring) (tr : trace) : trace :=
  before_retry m tr ++ [Post (request_for m)].

(** The trace when the request number [k] (from 0) is about to be sent,
    every request before it having met a capacity signal. *)
Definition trace_before (preferModel : jsstring) (k : nat) : trace :=
  match k with
  | 0 => []
  | 1 => before_retry preferModel []
  | 2 => after_retry preferModel []
  | 3 => before_retry MEDIUM_MODEL (after_retry preferModel [])
  | 4 => after_retry MEDIUM_MODEL (after_retry preferModel [])
  | 5 => before_retry SMALL_MODEL (after_retry MEDIUM_MODEL (after_retry preferModel []))
  | _ => after_retry SMALL_MODEL (after_retry MEDIUM_MODEL (after_retry preferModel []))
  end%nat.

Definition exhausted_meta (modelCandidates : list jsstring) : json :=
  object_literal
    [(js "caPathUsed", JStr <$> caPathUsed);
     (js "allowInsecure", Some (JBool allowInsecure));
     (js "tried", Some (JArr (JStr <$> modelCandidates)))].

Definition exhausted_text (modelCandidates : list jsstring) : jsstring :=
  js "Capacity exceeded for all candidates." ++ [LF]
  ++ JSON_stringify (exhausted_meta modelCandidates).

Definition failure_details (e : thrown) : json :=
  object_literal
    [(js "message", Some (JStr (message_or_string e)));
     (js "name", JStr <$> t_name e);
     (js "code", JStr <$> t_code e);
     (js "caPathUsed", JStr <$> caPathUsed);
     (js "allowInsecure", Some (JBool allowInsecure))].

(** A response of the handler built from a fixed valid status and no
    headers of its own. *)
Definition text_response (st : Z) (text : jsstring) : response :=
  {| status := st;
     headers := [(js "content-type", js "text/plain;charset=UTF-8")];
     body_of := BodyText text |}.

(** How the [try { ... } catch (e) { ... }] ends: with the response of a
    [return] inside the loops, with the 429 after the loops, or in the
    [catch]. *)
Definition conclude (modelCandidates : list jsstring) (o : outcome) : response :=
  match o with
  | Return r => r
  | Continue => text_response 429 (exhausted_text modelCandidates)
  | Throw e => text_response 502 (js "Axios failed: " ++ JSON_stringify (failure_details e))
  end.

Definition fallback (preferModel : jsstring) : response * trace :=
  let modelCandidates := [preferModel; MEDIUM_MODEL; SMALL_MODEL] in
  let '(o, tr) := try_models modelCandidates [] in
  (conclude modelCandidates o, tr).

(** What an attempt for [m] makes of an answer that is not a capacity
    signal. *)
Definition decisive (r : post_result) (m : jsstring) : outcome :=
  match r with
  | Rejected e => Throw e
  | Resolved res =>
      if isSuccess res
      then respond (BodyStream (default [] (res_data res))) 200 (success_headers m)
      else respond (BodyText (upstream_error_text res m)) (res_status res) []
  end.

(** The model of the request number [k] (from 0), and the answer to that
    request when every request before it met a capacity signal. *)
Definition asked (preferModel : jsstring) (k : nat) : jsstring :=
  nth k (twice [preferModel; MEDIUM_MODEL; SMALL_MODEL]) SMALL_MODEL.

Definition answer (preferModel : jsstring) (k : nat) : post_result :=
  axios_post (trace_before preferModel k) (request_for (asked preferModel k)).

(** How many of the answers number [from], [from + 1], ... are capacity
    signals in a row, counting [count] of them at most. *)
Fixpoint capacity_run (preferModel : jsstring) (from count : nat) : nat :=
  match count with
  | O => O
  | S count' =>
      if capacity_signal (answer preferModel from)
      then S (capacity_run preferModel (S from) count')
      else O
  end.

(** The number of the first answer that is not a capacity signal; 6 when
    the six answers are. *)
Definition decisive_index (preferModel : jsstring) : nat := capacity_run preferModel 0 6.

End Request.

(** The messages, the preferred model and a request of the handler for the
    body [p]. *)
Definition filtered (p : payload) : list message :=
  List.filter keep_message (default [] (messages p)).
Definition preferred (p : payload) : jsstring := default DEFAULT_MODEL (model p).
Definition request_of (key : jsstring) (p : payload) (m : jsstring) : upstream_request :=
  request_for key (filtered p) (default (2 # 10)%Q (temperature p)) m.

Definition POST (e : env) (req : request_json) : response * trace :=
  match MISTRAL_API_KEY e with
  | None | Some [] => (text_response 500 (js "missing MISTRAL_API_KEY"), [])
  | Some key =>
      match req with
      | BodyBad err =>
          (text_response 400 (js "Bad request JSON: " ++ message_or_string err), [])
      | BodyOk p =>
          let incoming := default [] (messages p) in
          let preferModel := default DEFAULT_MODEL (model p) in
          let temperature := default (2 # 10)%Q (temperature p) in
          let messages := List.filter keep_message incoming in
          let caPathUsed := find_ca e (caCandidates e) in
          let allowInsecure := allow_insecure e in
          fallback key messages temperature caPathUsed allowInsecure preferModel
      end
  end.

End Handler.

End Route.

(** ** app/page.tsx *)

Module Page.
Import Js.

Inductive Role := User | Assistant | System.

Record Msg := { role : Role; content : jsstring }.

Definition is_assistant (r : Role) : bool :=
  match r with
  | Assistant => true
  | _ => false
  end.

(** The JSON body of the request to [/api/chat]. *)
Record api_body := { api_messages : list Msg; api_model : jsstring }.

(** What the component does to the outside, in order. A controller is named
    by a number, and the reader of a response body by the number of the
    controller of its request. [EUnhandled ac] is the rejection of the promise
    of the [send] that made controller [ac]: nothing handles it. *)
Inductive effect :=
| EAbort (ac : nat)                 (* [controller.abort()] *)
| EFetch (ac : nat) (b : api_body)  (* [fetch("/api/chat", ...)] *)
| ECancel (reader : nat)            (* [reader.cancel()] *)
| EUnhandled (ac : nat).

(** Where a call of [send] is suspended. *)
Inductive task :=
| AwaitFetch (ac : nat)                     (* at [await fetch(...)] *)
| AwaitText (ac : nat)                      (* at [await res.text()] *)
| AwaitRead (ac : nat) (buffer : jsstring). (* at [await reader.read()] *)

Definition task_controller (t : task) : nat :=
  match t with
  | AwaitFetch ac | AwaitText ac | AwaitRead ac _ => ac
  end.

(** The state of the component ([useState], [useRef]), the suspended calls
    of [send], and the effects so far. An event handler sees the state as it
    is when the event arrives. *)
Record world := {
  messages : list Msg;
  input : jsstring;
  model : jsstring;
  pending : bool;
  abortRef : option nat;
  readerRef : option nat;
  tasks : list task;
  created : nat;               (* controllers made so far *)
  effects : list effect;
}.

Definition DEFAULT_MODEL : jsstring := js "mistral-large-latest".

(** "Bonjour! Parlez-moi du fromage français." *)
Definition INITIAL_INPUT : jsstring :=
  js "Bonjour! Parlez-moi du fromage fran" ++ [231] ++ js "ais.".

Definition initial : world :=
  {| messages := []; input := INITIAL_INPUT; model := DEFAULT_MODEL;
     pending := false; abortRef := None; readerRef := None;
     tasks := []; created := 0%nat; effects := [] |}.

Definition set_messages (f : list Msg -> list Msg) (w : world) : world :=
  {| messages := f (messages w); input := input w; model := model w;
     pending := pending w; abortRef := abortRef w; readerRef := readerRef w;
     tasks := tasks w; created := created w; effects := effects w |}.

Definition set_input (text : jsstring) (w : world) : world :=
  {| messages := messages w; input := text; model := model w;
     pending := pending w; abortRef := abortRef w; readerRef := readerRef w;
     tasks := tasks w; created := created w; effects := effects w |}.

Definition set_model (m : jsstring) (w : world) : world :=
  {| messages := messages w; input := input w; model := m;
     pending := pending w; abortRef := abortRef w; readerRef := readerRef w;
     tasks := tasks w; created := created w; effects := effects w |}.

Definition set_tasks (ts : list task) (w : world) : world :=
  {| messages := messages w; input := input w; model := model w;
     pending := pending w; abortRef := abortRef w; readerRef := readerRef w;
     tasks := ts; created := created w; effects := effects w |}.

Definition add_effects (es : list effect) (w : world) : world :=
  {| messages := messages w; input := input w; model := model w;
     pending := pending w; abortRef := abortRef w; readerRef := readerRef w;
     tasks := tasks w; created := created w; effects := effects w ++ es |}.

(** [copy[copy.length - 1] = m] on a copy of [curr]. On an empty array the
    assignment makes a property named "-1" and no element. *)
Definition set_last (m : Msg) (curr : list Msg) : list Msg :=
  match length curr with
  | O => curr
  | S n => <[n := m]> curr
  end.

(** The updater of the read loop: the fragment goes to the last message when
    that is an assistant message. *)
Definition append_delta (delta : jsstring) (curr : list Msg) : list Msg :=
  match last curr with
  | Some l =>
      if is_assistant (role l)
      then set_last {| role := Assistant; content := content l ++ delta |} curr
      else curr
  | None => curr
  end.

(** The updater of the read loop for a truthy value that is not a string:
    [(last.content || '') + delta] makes a string of it. The conversion is
    made only when the last message is an assistant message; when it throws
    (an object with a member named [toString]) the updater throws, where
    React runs it, and the component is lost: [None]. *)
Definition append_value (v : json) (curr : list Msg) : option (list Msg) :=
  match last curr with
  | Some l =>
      if is_assistant (role l)
      then text ← to_text v; Some (append_delta text curr)
      else Some curr
  | None => Some curr
  end.

(** The body of the inner [while] for one trimmed [line]. It is the text of
    lib/sse.ts again: the marker, the payload, [JSON.parse] and the path.
    [None]: the updater throws. *)
Definition process_line (line : jsstring) (curr : list Msg) : option (list Msg) :=
  if negb (startsWith line Sse.DATA_MARKER) then Some curr
  else
    let payload := trim (slice_from 5 line) in
    if jsstring_eqb payload [] || jsstring_eqb payload Sse.DONE_SENTINEL then Some curr
    else match Sse.delta_of_payload payload with
         | Sse.ParseError | Sse.NoDelta => Some curr
         | Sse.Delta delta => Some (append_delta delta curr)
         | Sse.Truthy v => append_value v curr
         end.

(** [while ((idx = buffer.indexOf('\n')) !== -1) { ... }]. Every turn takes
    at least one code unit off [buffer], so [length buffer] turns are
    enough. *)
Fixpoint drain_turns (turns : nat) (buffer : jsstring) (curr : list Msg)
    : option (jsstring * list Msg) :=
  match turns, indexOf LF buffer with
  | S turns', Some idx =>
      let line := trim (slice_to idx buffer) in
      let buffer' := slice_from (S idx) buffer in
      curr' ← process_line line curr;
      drain_turns turns' buffer' curr'
  | _, _ => Some (buffer, curr)
  end.

Definition drain (buffer : jsstring) (curr : list Msg) : option (jsstring * list Msg) :=
  drain_turns (length buffer) buffer curr.

(** The inner [while] on complete lines, one after the other. *)
Fixpoint process_lines (lines : list jsstring) (curr : list Msg) : option (list Msg) :=
  match lines with
  | [] => Some curr
  | line :: rest => curr' ← process_line (trim line) curr; process_lines rest curr'
  end.

(** The updater of the read loop for the values [vs] in turn, as far as no
    conversion throws. *)
Fixpoint append_values (vs : list json) (curr : list Msg) : option (list Msg) :=
  match vs with
  | [] => Some curr
  | v :: rest => curr' ← append_value v curr; append_values rest curr'
  end.

(** The strings of the values [vs], when no conversion throws. *)
Definition texts_of (vs : list json) : option (list jsstring) := mapM to_text vs.

(** The updater of the read loop for the fragments [deltas] in turn. *)
Definition append_deltas (deltas : list jsstring) (curr : list Msg) : list Msg :=
  foldl (fun c delta => append_delta delta c) curr deltas.

(** The turns of [while (true)] for reads that give the chunks [chunks]
    one after the other, from the reassembly buffer [buffer]. *)
Fixpoint read_chunks (chunks : list jsstring) (buffer : jsstring) (curr : list Msg)
    : option (jsstring * list Msg) :=
  match chunks with
  | [] => Some (buffer, curr)
  | text :: rest =>
      '(buffer', curr') ← drain (buffer ++ text) curr;
      read_chunks rest buffer' curr'
  end.

(** What [await reader.read()] gives: a chunk (its text as
    [decoder.decode(value, { stream: true })] returns it), the end of the
    stream, or a rejection. *)
Inductive read_result :=
| Chunk (text : jsstring)
| Done
| ReadError (err : thrown).

Definition WARNING_SIGN : jsstring := [9888; 65039; 32].

(** The test of the [catch]:
    [err?.name === 'AbortError'
     || /aborted|BodyStreamBuffer was aborted/i.test(err?.message || '')]. *)
Definition is_abort (err : thrown) : bool :=
  match t_name err with
  | Some n => jsstring_eqb n (js "AbortError")
  | None => false
  end
  || regex_test_ci (js "aborted") (message_or_empty err)
  || regex_test_ci (js "BodyStreamBuffer was aborted") (message_or_empty err).

(** The updater of the [catch]. *)
Definition surface_error (err : thrown) (curr : list Msg) : list Msg :=
  let msg := WARNING_SIGN ++ message_or_string err in
  let text :=
    match last curr with
    | Some l => if is_assistant (role l) then content l ++ [LF; LF] ++ msg else msg
    | None => msg
    end in
  set_last {| role := Assistant; content := text |} curr.

Definition catch (err : thrown) (w : world) : world :=
  if is_abort err then w else set_messages (surface_error err) w.

(** The [finally]: the reader in [readerRef] is cancelled, the refs and
    [pending] are cleared. *)
Definition finally (w : world) : world :=
  {| messages := messages w; input := input w; model := model w;
     pending := false; abortRef := None; readerRef := None;
     tasks := tasks w; created := created w;
     effects := effects w ++ match readerRef w with
                             | Some r => [ECancel r]
                             | None => []
                             end |}.

(** How the [try] is left: by [break] or by an exception of [read]. *)
Definition leave_loop (err : option thrown) (w : world) : world :=
  finally (match err with
           | Some e => catch e w
           | None => w
           end).

(** One turn of [while (true)] for the call of [send] that owns [ac], once
    its [read] has resolved. *)
Definition resume_read (ac : nat) (buffer : jsstring) (r : read_result) (w : world)
    : option world :=
  match r with
  | Done => Some (leave_loop None w)
  | ReadError err => Some (leave_loop (Some err) w)
  | Chunk text =>
      '(buffer', curr') ← drain (buffer ++ text) (messages w);
      Some (set_tasks (tasks w ++ [AwaitRead ac buffer']) (set_messages (fun _ => curr') w))
  end.

(** [send], up to [await fetch(...)]. *)
Definition send (w : world) : world :=
  if jsstring_eqb (trim (input w)) [] || pending w then w
  else
    let next := messages w ++ [ {| role := User; content := input w |};
                                {| role := Assistant; content := [] |} ] in
    let messagesForApi :=
      List.filter (fun m => negb (is_assistant (role m) && jsstring_eqb (trim (content m)) []))
                  next in
    let ac := created w in
    {| messages := next; input := []; model := model w; pending := true;
       abortRef := Some ac; readerRef := readerRef w;
       tasks := tasks w ++ [AwaitFetch ac]; created := S (created w);
       effects := effects w
                  ++ match abortRef w with
                     | Some old => [EAbort old]
                     | None => []
                     end
                  ++ [EFetch ac {| api_messages := messagesForApi; api_model := model w |}] |}.

Definition stop (w : world) : world :=
  {| messages := messages w; input := input w; model := model w;
     pending := false; abortRef := None; readerRef := readerRef w;
     tasks := tasks w; created := created w;
     effects := effects w
                ++ match readerRef w with
                   | Some r => [ECancel r]
                   | None => []
                   end
                ++ match abortRef w with
                   | Some ac => [EAbort ac]
                   | None => []
                   end |}.

Definition reset (w : world) : world :=
  set_input [] (set_messages (fun _ => []) (stop w)).

(** The response of [fetch], as [send] tests it: [res.ok] and whether
    [res.body] is there. *)
Record fetch_response := { ok : bool; has_body : bool }.

(** [send] after [await fetch(...)]. *)
Definition after_fetch (ac : nat) (res : fetch_response) (w : world) : world :=
  if negb (ok res) || negb (has_body res) then
    set_tasks (tasks w ++ [AwaitText ac]) w
  else
    {| messages := messages w; input := input w; model := model w;
       pending := pending w; abortRef := abortRef w; readerRef := Some ac;
       tasks := tasks w ++ [AwaitRead ac []]; created := created w;
       effects := effects w |}.

(** [send] after [await res.text()]. *)
Definition after_text (errText : jsstring) (w : world) : world :=
  {| messages := set_last {| role := Assistant; content := WARNING_SIGN ++ errText |}
                          (messages w);
     input := input w; model := model w;
     pending := false; abortRef := abortRef w; readerRef := readerRef w;
     tasks := tasks w; created := created w; effects := effects w |}.

(** *** The events of the page

    A handler runs to its end; then the calls of [send] that it unblocked
    run, before the next event: cancelling a reader resolves its pending
    [read] with [done], aborting a controller rejects the pending [fetch],
    [text] or [read] of its request with an [AbortError]. *)
Section Events.

(** The message of the [AbortError] of the platform. *)
Variable abort_message : jsstring.

Definition abort_error : thrown :=
  {| t_name := Some (js "AbortError"); t_message := Some abort_message;
     t_code := None; t_string := js "AbortError: " ++ abort_message |}.

Definition nat_in (n : nat) (o : option nat) : bool :=
  match o with
  | Some m => Nat.eqb n m
  | None => false
  end.

(** The calls of [send] among [ts] that a handler unblocked by cancelling
    the reader [cancelled] and aborting the controller [aborted] run on; the
    others stay suspended. A cancelled reader resolves its [read] before the
    abort can reject it. *)
Fixpoint settle (cancelled aborted : option nat) (ts : list task) (w : world) : world :=
  match ts with
  | [] => w
  | t :: rest =>
      let w' :=
        match t with
        | AwaitRead ac _ =>
            if nat_in ac cancelled then leave_loop None w
            else if nat_in ac aborted then leave_loop (Some abort_error) w
            else set_tasks (tasks w ++ [t]) w
        | AwaitFetch ac | AwaitText ac =>
            if nat_in ac aborted then add_effects [EUnhandled ac] w
            else set_tasks (tasks w ++ [t]) w
        end in
      settle cancelled aborted rest w'
  end.

Definition unblock (cancelled aborted : option nat) (w : world) : world :=
  settle cancelled aborted (tasks w) (set_tasks [] w).

(** The guard of [send]: [if (!input.trim() || pending) return]. *)
Definition send_refused (w : world) : bool :=
  jsstring_eqb (trim (input w)) [] || pending w.

Inductive label :=
| Typing (text : jsstring)                      (* [onChange] of the input *)
| SelectModel (m : jsstring)                    (* [onChange] of the select *)
| PressSend                                     (* Enter, or the Send button *)
| PressStop
| PressReset
| FetchResolves (ac : nat) (res : fetch_response)
| FetchRejects (ac : nat)
| TextResolves (ac : nat) (errText : jsstring)
| TextRejects (ac : nat)
| ReadResolves (ac : nat) (r : read_result).

(** The first task of [ts] that [want]s, and the others. *)
Fixpoint take_task (want : task -> bool) (ts : list task) : option (task * list task) :=
  match ts with
  | [] => None
  | t :: rest =>
      if want t then Some (t, rest)
      else '(found, others) ← take_task want rest; Some (found, t :: others)
  end.

Definition awaits_fetch (ac : nat) (t : task) : bool :=
  match t with AwaitFetch a => Nat.eqb a ac | _ => false end.
Definition awaits_text (ac : nat) (t : task) : bool :=
  match t with AwaitText a => Nat.eqb a ac | _ => false end.
Definition awaits_read (ac : nat) (t : task) : bool :=
  match t with AwaitRead a _ => Nat.eqb a ac | _ => false end.

(** One event. [None]: the event cannot happen in [w] (no call of [send]
    waits for it), or an updater of the read loop throws. *)
Definition step (l : label) (w : world) : option world :=
  match l with
  | Typing text => Some (set_input text w)
  | SelectModel m => Some (set_model m w)
  | PressSend =>
      if send_refused w then Some (send w)
      else Some (unblock None (abortRef w) (send w))
  | PressStop => Some (unblock (readerRef w) (abortRef w) (stop w))
  | PressReset => Some (unblock (readerRef w) (abortRef w) (reset w))
  | FetchResolves ac res =>
      '(_, others) ← take_task (awaits_fetch ac) (tasks w);
      Some (after_fetch ac res (set_tasks others w))
  | FetchRejects ac =>
      '(_, others) ← take_task (awaits_fetch ac) (tasks w);
      Some (add_effects [EUnhandled ac] (set_tasks others w))
  | TextResolves ac errText =>
      '(_, others) ← take_task (awaits_text ac) (tasks w);
      Some (after_text errText (set_tasks others w))
  | TextRejects ac =>
      '(_, others) ← take_task (awaits_text ac) (tasks w);
      Some (add_effects [EUnhandled ac] (set_tasks others w))
  | ReadResolves ac r =>
      '(t, others) ← take_task (awaits_read ac) (tasks w);
      match t with
      | AwaitRead _ buffer => resume_read ac buffer r (set_tasks others w)
      | _ => None
      end
  end.

Fixpoint run (ls : list label) (w : world) : option world :=
  match ls with
  | [] => Some w
  | l :: rest => w' ← step l w; run rest w'
  end.

Definition reachable (w : world) : Prop := exists ls, run ls initial = Some w.

End Events.

(** The events through which the read loop is left: the end of the stream,
    an exception of [read], and Stop. *)
Definition ends_read_loop (l : label) : Prop :=
  match l with
  | ReadResolves _ Done | ReadResolves _ (ReadError _) | PressStop => True
  | _ => False
  end.

(** The last message is an assistant message. *)
Definition ends_with_assistant (curr : list Msg) : Prop :=
  exists (front : list Msg) (l : Msg), curr = front ++ [l] /\ role l = Assistant.

(** Every assistant message of [before] is in [after] at its place, with
    its content or a longer one that starts with it. *)
Definition preserved (before after : list Msg) : Prop :=
  forall (i : nat) (m : Msg),
    before !! i = Some m -> role m = Assistant ->
    exists m' : Msg,
      after !! i = Some m' /\ role m' = Assistant /\ content m `prefix_of` content m'.

(** The refs name the controller and the reader of the one call of [send]
    that is suspended, if there is one. *)
Inductive consistent (w : world) : Prop :=
| Idle :
    tasks w = [] -> readerRef w = None ->
    (forall a : nat, abortRef w = Some a -> (a < created w)%nat) ->
    consistent w
| Fetching (ac : nat) :
    tasks w = [AwaitFetch ac] \/ tasks w = [AwaitText ac] ->
    readerRef w = None -> abortRef w = Some ac -> (ac < created w)%nat ->
    pending w = true -> ends_with_assistant (messages w) ->
    consistent w
| Reading (ac : nat) (buffer : jsstring) :
    tasks w = [AwaitRead ac buffer] ->
    readerRef w = Some ac -> abortRef w = Some ac -> (ac < created w)%nat ->
    pending w = true -> ends_with_assistant (messages w) ->
    consistent w.

(** A conversation made of turns: a user message with content that is not
    blank, then an assistant message. *)
Fixpoint turns (curr : list Msg) : Prop :=
  match curr with
  | [] => True
  | u :: a :: rest =>
      role u = User /\ trim (content u) <> [] /\ role a = Assistant /\ turns rest
  | _ => False
  end.

(** The controllers of the requests made, in order, and the controller or
    reader that an effect is about. *)
Fixpoint fetch_ids (es : list effect) : list nat :=
  match es with
  | [] => []
  | EFetch ac _ :: r => ac :: fetch_ids r
  | _ :: r => fetch_ids r
  end.

Definition effect_id (ef : effect) : nat :=
  match ef with
  | EAbort ac | EFetch ac _ | ECancel ac | EUnhandled ac => ac
  end.

(** Every effect that is not a request is about the request made last:
    [latest] is the controller of the last request before [es]. *)
Fixpoint about_latest (latest : option nat) (es : list effect) : Prop :=
  match es with
  | [] => True
  | EFetch ac _ :: r => about_latest (Some ac) r
  | ef :: r => latest = Some (effect_id ef) /\ about_latest latest r
  end.

(** An effect about controller [a] that is not a request. *)
Definition concerns (a : nat) (ef : effect) : Prop :=
  effect_id ef = a /\ fetch_ids [ef] = [].

(** The requests are made with the controllers 0, 1, 2, ... in this order,
    every other effect is about the request made last, and [abortRef] holds
    no controller but the last one made. *)
Definition in_order (w : world) : Prop :=
  fetch_ids (effects w) = seq 0 (created w)
  /\ about_latest None (effects w)
  /\ (forall a : nat, abortRef w = Some a -> created w = S a).

(** No call of [send] is suspended, [pending] and the refs are clear. *)
Definition at_rest (w : world) : Prop :=
  tasks w = [] /\ pending w = false /\ abortRef w = None /\ readerRef w = None.

(** The events of one exchange that goes well: Send, a response with a
    body, the reads of [chunks], the end of the stream. *)
Definition exchange_events (ac : nat) (chunks : list jsstring) : list label :=
  [PressSend; FetchResolves ac {| ok := true; has_body := true |}]
  ++ map (fun text => ReadResolves ac (Chunk text)) chunks
  ++ [ReadResolves ac Done].

(** The events of the user other than Stop and Reset. *)
Definition keeps_going (l : label) : Prop :=
  match l with
  | Typing _ | SelectModel _ | PressSend => True
  | _ => False
  end.

End Page.

(** ** From the page to the handler

    The body of the request of the page, [JSON.stringify({ messages, model })],
    as the handler reads it with [req.json()]: the roles by their names, the
    content of every message present, no tool call, no temperature. *)

Module Wire.
Import Js.

Definition role_name (r : Page.Role) : jsstring :=
  match r with
  | Page.User => js "user"
  | Page.Assistant => js "assistant"
  | Page.System => js "system"
  end.

Definition to_message (m : Page.Msg) : Route.message :=
  {| Route.role := role_name (Page.role m);
     Route.content := Some (Page.content m);
     Route.tool_calls := None |}.

Definition to_payload (b : Page.api_body) : Route.payload :=
  {| Route.messages := Some (map to_message (Page.api_messages b));
     Route.model := Some (Page.api_model b);
     Route.temperature := None |}.

End Wire.

(** ** The data of the tests (app/page.test.tsx, app/api/chat/route.test.ts) *)

Module Fixtures.
Import Js.

Definition BONJOUR_LINE : jsstring :=
  jsq "data: {'choices':[{'delta':{'content':'Bonjour'}}]}" ++ [LF].
Definition BANG_LINE : jsstring :=
  jsq "data: {'choices':[{'delta':{'content':' !'}}]}" ++ [LF].
Definition DONE_LINE : jsstring := js "data: [DONE]" ++ [LF].

Definition BONJOUR_STREAM : jsstring := BONJOUR_LINE ++ BANG_LINE ++ DONE_LINE.

(** The upstream of the tests of the route: the n-th call of [axios.post]
    resolves to the n-th entry of [script] (a mock with
    [mockResolvedValueOnce]); a call beyond the script fails. *)
Definition SCRIPT_EXHAUSTED : thrown :=
  {| t_name := Some (js "TypeError"); t_message := Some (js "no scripted response");
     t_code := None; t_string := js "TypeError: no scripted response" |}.

Definition scripted (script : list Route.post_result)
    : Route.trace -> Route.upstream_request -> Route.post_result :=
  fun tr _ => nth (length (Route.posts tr)) script (Route.Rejected SCRIPT_EXHAUSTED).

Definition CAPACITY_429 : Route.post_result :=
  Route.Resolved {| Route.res_status := 429;
                    Route.res_data := Some [jsq "{'object':'error'}"] |}.

Definition SUCCESS_200 : Route.post_result :=
  Route.Resolved {| Route.res_status := 200;
                    Route.res_data :=
                      Some [jsq "data: {'choices':[{'delta':{'content':'OK'}}]}" ++ [LF];
                            js "data: [DONE]" ++ [LF]] |}.

Definition BAD_REQUEST_400 : Route.post_result :=
  Route.Resolved {| Route.res_status := 400;
                    Route.res_data := Some [jsq "{'object':'error','message':'bad request'}"] |}.

Definition TEST_ENV : Route.env :=
  {| Route.MISTRAL_API_KEY := Some (js "test-key");
     Route.NODE_EXTRA_CA_CERTS := None;
     Route.ALLOW_INSECURE_TLS := None;
     Route.fs_existsSync := fun _ => false;
     Route.fs_readFileSync := fun _ => None |}.

Definition HI : Route.message :=
  {| Route.role := js "user"; Route.content := Some (js "hi"); Route.tool_calls := None |}.

Definition HI_PAYLOAD : Route.payload :=
  {| Route.messages := Some [HI];
     Route.model := Some (js "mistral-large-latest");
     Route.temperature := None |}.

Definition HI_REQUEST : Route.request_json := Route.BodyOk HI_PAYLOAD.

(** The errors of the [Response] constructor, for the examples. *)
Definition INIT_ERROR (f : init_failure) : thrown :=
  match f with
  | BadStatus =>
      {| t_name := Some (js "RangeError"); t_message := Some (js "invalid status");
         t_code := None; t_string := js "RangeError: invalid status" |}
  | BadHeader | NullBodyStatus =>
      {| t_name := Some (js "TypeError"); t_message := Some (js "invalid response");
         t_code := None; t_string := js "TypeError: invalid response" |}
  end.

Definition HALF : Route.trace -> Q := fun _ => (1 # 2)%Q.

Definition OK_RESPONSE : Page.fetch_response := {| Page.ok := true; Page.has_body := true |}.

Definition placeholder : Page.Msg := {| Page.role := Page.Assistant; Page.content := [] |}.

(** The events of the first test of the page: Send, the response, three
    reads of one line each, the end of the stream. *)
Definition BONJOUR_EVENTS : list Page.label :=
  [Page.PressSend; Page.FetchResolves 0 OK_RESPONSE;
   Page.ReadResolves 0 (Page.Chunk BONJOUR_LINE);
   Page.ReadResolves 0 (Page.Chunk BANG_LINE);
   Page.ReadResolves 0 (Page.Chunk DONE_LINE);
   Page.ReadResolves 0 Page.Done].

(** A call of [send] that reads the stream, after the first line of the
    test; a call that waits for its response while the user has typed again;
    an exception of [read] that is not an abort. *)
Definition ABORT_MESSAGE : jsstring := js "The operation was aborted.".

Definition READING_EVENTS : list Page.label :=
  [Page.PressSend; Page.FetchResolves 0 OK_RESPONSE;
   Page.ReadResolves 0 (Page.Chunk BONJOUR_LINE)].

Definition READING : Page.world :=
  default Page.initial (Page.run ABORT_MESSAGE READING_EVENTS Page.initial).

Definition IN_FLIGHT_EVENTS : list Page.label :=
  [Page.PressSend; Page.Typing (js "encore")].

Definition IN_FLIGHT : Page.world :=
  default Page.initial (Page.run ABORT_MESSAGE IN_FLIGHT_EVENTS Page.initial).

Definition NOT_MODIFIED_304 : Route.post_result :=
  Route.Resolved {| Route.res_status := 304; Route.res_data := Some [] |}.

Definition NETWORK_ERROR : thrown :=
  {| t_name := Some (js "TypeError"); t_message := Some (js "network error");
     t_code := None; t_string := js "TypeError: network error" |}.

(** The lines of the tests for any fragment: the event
    [data: {"choices":[{"delta":{"content": s }}]}], as [JSON.stringify]
    writes it. *)
Definition delta_chunk (s : jsstring) : json :=
  JObj [(js "choices", JArr [JObj [(js "delta", JObj [(js "content", JStr s)])]])].

Definition delta_line (s : jsstring) : jsstring :=
  js "data: " ++ JSON_stringify (delta_chunk s).

(** A stream of the kind of the tests: one such line for each fragment,
    then the [DONE] line. *)
Definition delta_stream (fragments : list jsstring) : jsstring :=
  concat (map (fun s => delta_line s ++ [LF]) fragments) ++ DONE_LINE.

End Fixtures.

(** * Properties *)

(** ** Strings *)

Section StringFacts.
Import Js.

Lemma jsstring_eqb_eq (a b : jsstring) : jsstring_eqb a b = true <-> a = b.
Proof.
  revert b. induction a as [|x a IH]; intros [|y b]; simpl; try (split; congruence).
  rewrite andb_true_iff, N.eqb_eq, IH. split.
  - intros [-> ->]. reflexivity.
  - intros [= -> ->]. auto.
Qed.

Lemma jsstring_eqb_refl (a : jsstring) : jsstring_eqb a a = true.
Proof. apply jsstring_eqb_eq. reflexivity. Qed.

Lemma indexOf_None (c : code_unit) (s : jsstring) :
  indexOf c s = None <-> c ∉ s.
Proof.
  induction s as [|x s IH]; simpl.
  - split; [intros _; apply not_elem_of_nil | reflexivity].
  - rewrite not_elem_of_cons. destruct (N.eqb_spec x c) as [->|Hne].
    + split; [discriminate | intros [[] _]; reflexivity].
    + destruct (indexOf c s); simpl.
      * split; [discriminate | intros [_ H]; apply IH in H; discriminate].
      * split; [intros _; split; [congruence | apply IH; reflexivity] | reflexivity].
Qed.

Lemma indexOf_Some (c : code_unit) (s : jsstring) (i : nat) :
  indexOf c s = Some i -> (c ∉ take i s) /\ s = take i s ++ c :: drop (S i) s.
Proof.
  revert i. induction s as [|x s IH]; intros i; simpl; [discriminate|].
  destruct (N.eqb_spec x c) as [->|Hne].
  - intros [= <-]. simpl. split; [apply not_elem_of_nil | rewrite drop_0; reflexivity].
  - destruct (indexOf c s) as [j|]; simpl; [|discriminate].
    intros [= <-]. destruct (IH j eq_refl) as [Hnot Heq]. simpl. split.
    + rewrite not_elem_of_cons. split; [congruence | exact Hnot].
    + f_equal. exact Heq.
Qed.

Lemma indexOf_lt (c : code_unit) (s : jsstring) (i : nat) :
  indexOf c s = Some i -> (i < length s)%nat.
Proof.
  revert i. induction s as [|x s IH]; intros i; simpl; [discriminate|].
  destruct (x =? c); [intros [= <-]; lia|].
  destruct (indexOf c s) as [j|]; simpl; [|discriminate].
  intros [= <-]. specialize (IH j eq_refl). lia.
Qed.

Lemma indexOf_app_l (c : code_unit) (s t : jsstring) (i : nat) :
  indexOf c s = Some i -> indexOf c (s ++ t) = Some i.
Proof.
  revert i. induction s as [|x s IH]; intros i; simpl; [discriminate|].
  destruct (x =? c); [tauto|].
  destruct (indexOf c s) as [j|]; simpl; [|discriminate].
  intros [= <-]. rewrite (IH j eq_refl). reflexivity.
Qed.

(** A line feed that is not in [line] is first found right after it. *)
Lemma indexOf_line (line rest : jsstring) :
  LF ∉ line -> indexOf LF (line ++ LF :: rest) = Some (length line).
Proof.
  induction line as [|x line IH]; simpl; intros Hnot.
  - reflexivity.
  - apply not_elem_of_cons in Hnot as [Hne Hnot].
    destruct (N.eqb_spec x LF) as [->|_]; [congruence|].
    rewrite (IH Hnot). reflexivity.
Qed.

(** A header value without HTTP white space at its ends is kept as it
    is. *)
Lemma normalize_header_value_id (v : jsstring) :
  (forall c : code_unit, head v = Some c -> is_http_whitespace c = false) ->
  (forall c : code_unit, last v = Some c -> is_http_whitespace c = false) ->
  normalize_header_value v = v.
Proof.
  intros Hh Hl. unfold normalize_header_value.
  assert (strip_http_whitespace_start v = v) as ->.
  { destruct v as [|c r]; [reflexivity|]. cbn. rewrite (Hh c eq_refl). reflexivity. }
  destruct v as [|x v' _] using rev_ind; [reflexivity|].
  rewrite rev_app_distr. cbn [rev app strip_http_whitespace_start].
  rewrite (Hl x (last_snoc _ _)). cbn [rev]. rewrite rev_involutive. reflexivity.
Qed.

(** The regular expressions of the code are words, looked for in any mix
    of upper and lower case. *)
Lemma matches_at_ci_spec (pat s : jsstring) :
  matches_at_ci pat s = true <->
  exists mid post : jsstring, s = mid ++ post /\ map ascii_upper mid = map ascii_upper pat.
Proof.
  revert s. induction pat as [|p pat IH]; intros s; cbn [matches_at_ci].
  - split; [intros _; exists [], s; split; reflexivity | reflexivity].
  - destruct s as [|c s].
    + split; [discriminate|]. intros (mid & post & H & Hm).
      destruct mid; [discriminate | discriminate].
    + rewrite andb_true_iff, N.eqb_eq, IH. split.
      * intros (Hc & mid & post & -> & Hm). exists (c :: mid), post.
        split; [reflexivity|]. cbn [map]. rewrite Hm, Hc. reflexivity.
      * intros (mid & post & H & Hm). destruct mid as [|d mid]; [discriminate|].
        injection H as -> ->. injection Hm as Hd Hm.
        split; [symmetry; exact Hd|]. exists mid, post. split; [reflexivity | exact Hm].
Qed.

Lemma regex_test_ci_spec (pat s : jsstring) :
  regex_test_ci pat s = true <->
  exists pre mid post : jsstring,
    s = pre ++ mid ++ post /\ map ascii_upper mid = map ascii_upper pat.
Proof.
  induction s as [|c s IH]; cbn [regex_test_ci]; rewrite orb_true_iff, matches_at_ci_spec.
  - split.
    + intros [(mid & post & H & Hm)|H]; [|discriminate]. exists [], mid, post. auto.
    + intros (pre & mid & post & H & Hm). left.
      destruct pre; [|discriminate]. exists mid, post. auto.
  - rewrite IH. split.
    + intros [(mid & post & H & Hm)|(pre & mid & post & H & Hm)].
      * exists [], mid, post. auto.
      * exists (c :: pre), mid, post. rewrite H. auto.
    + intros (pre & mid & post & H & Hm). destruct pre as [|d pre].
      * left. exists mid, post. auto.
      * right. injection H as -> ->. exists pre, mid, post. auto.
Qed.

End StringFacts.

(** ** The read loop of [send] *)

Section ReadLoopFacts.
Import Js Page.

(** The updaters keep the length of the conversation. *)
Lemma set_last_length (m : Msg) (curr : list Msg) : length (set_last m curr) = length curr.
Proof.
  unfold set_last. destruct (length curr) eqn:E; [exact E|].
  rewrite length_insert. exact E.
Qed.

Lemma set_last_snoc (m x : Msg) (front : list Msg) :
  set_last m (front ++ [x]) = front ++ [m].
Proof.
  unfold set_last. rewrite length_app. simpl.
  replace (length front + 1)%nat with (S (length front)) by lia.
  replace (length front) with (length front + 0)%nat at 1 by lia.
  rewrite insert_app_r. reflexivity.
Qed.

Lemma set_last_nil (m : Msg) : set_last m [] = [].
Proof. reflexivity. Qed.

(** A conversation is empty or has a last message. *)
Lemma snoc_cases (curr : list Msg) :
  curr = [] \/ exists front x, curr = front ++ [x].
Proof.
  destruct curr as [|y l] using rev_ind; [left; reflexivity|].
  right. eauto.
Qed.

Lemma append_delta_snoc (delta : jsstring) (front : list Msg) (x : Msg) :
  append_delta delta (front ++ [x]) =
    if is_assistant (role x)
    then front ++ [ {| role := Assistant; content := content x ++ delta |} ]
    else front ++ [x].
Proof.
  unfold append_delta. rewrite last_snoc.
  destruct (is_assistant (role x)); [apply set_last_snoc | reflexivity].
Qed.

Lemma append_delta_nil (delta : jsstring) : append_delta delta [] = [].
Proof. reflexivity. Qed.

(** A truthy value that is not a string is appended as its string, or
    leaves the conversation as it is. *)
Lemma append_value_Some (v : json) (curr curr' : list Msg) :
  append_value v curr = Some curr' ->
  curr' = curr \/ exists text : jsstring, curr' = append_delta text curr.
Proof.
  unfold append_value. destruct (last curr) as [l|]; [|intros [= <-]; left; reflexivity].
  destruct (is_assistant (role l)); [|intros [= <-]; left; reflexivity].
  destruct (to_text v) as [text|]; cbn; [|discriminate].
  intros [= <-]. right. exists text. reflexivity.
Qed.

Lemma append_value_snoc (v : json) (front : list Msg) (x : Msg) :
  role x = Assistant ->
  append_value v (front ++ [x])
    = text ← to_text v;
      Some (front ++ [ {| role := Assistant; content := content x ++ text |} ]).
Proof.
  intros Hx. unfold append_value. rewrite last_snoc, Hx. cbn [is_assistant].
  destruct (to_text v) as [text|]; cbn; [|reflexivity].
  rewrite append_delta_snoc, Hx. reflexivity.
Qed.

Lemma drain_turns_S (n : nat) (buffer : jsstring) (curr : list Msg) :
  drain_turns (S n) buffer curr =
    match indexOf LF buffer with
    | Some idx =>
        curr' ← process_line (trim (slice_to idx buffer)) curr;
        drain_turns n (slice_from (S idx) buffer) curr'
    | None => Some (buffer, curr)
    end.
Proof. reflexivity. Qed.

(** More turns than the buffer has code units change nothing. *)
Lemma drain_turns_enough (n m : nat) (buffer : jsstring) (curr : list Msg) :
  (length buffer <= n)%nat -> (length buffer <= m)%nat ->
  drain_turns n buffer curr = drain_turns m buffer curr.
Proof.
  revert m buffer curr. induction n as [|n IH]; intros m buffer curr Hn Hm.
  - destruct buffer; [|simpl in Hn; lia]. destruct m; reflexivity.
  - destruct m as [|m].
    + destruct buffer; [|simpl in Hm; lia]. reflexivity.
    + rewrite !drain_turns_S. destruct (indexOf LF buffer) as [idx|] eqn:E; [|reflexivity].
      destruct (process_line _ curr) as [curr'|]; [|reflexivity].
      apply indexOf_lt in E.
      apply IH; unfold slice_from; rewrite length_drop; lia.
Qed.

Lemma drain_unfold (buffer : jsstring) (curr : list Msg) :
  drain buffer curr =
    match indexOf LF buffer with
    | None => Some (buffer, curr)
    | Some idx =>
        curr' ← process_line (trim (slice_to idx buffer)) curr;
        drain (slice_from (S idx) buffer) curr'
    end.
Proof.
  unfold drain. destruct (indexOf LF buffer) as [idx|] eqn:E.
  - pose proof (indexOf_lt _ _ _ E) as Hlt.
    destruct (length buffer) as [|n] eqn:El; [lia|].
    rewrite drain_turns_S, E.
    destruct (process_line _ curr) as [curr'|]; [|reflexivity].
    apply drain_turns_enough; unfold slice_from; rewrite length_drop; lia.
  - destruct (length buffer); [|rewrite drain_turns_S]; rewrite ?E; reflexivity.
Qed.

(** The inner loop ends by its own test: no line feed is left in the
    buffer, which holds the incomplete last line. *)
Lemma drain_exits (buffer : jsstring) (curr : list Msg) (buffer' : jsstring)
    (curr' : list Msg) :
  drain buffer curr = Some (buffer', curr') -> indexOf LF buffer' = None.
Proof.
  remember (length buffer) as n eqn:Hn.
  revert buffer curr Hn. induction n as [n IH] using lt_wf_ind.
  intros buffer curr Hn. rewrite drain_unfold.
  destruct (indexOf LF buffer) as [idx|] eqn:E.
  - destruct (process_line _ curr) as [c1|]; simpl; [|discriminate].
    apply indexOf_lt in E.
    eapply IH; [|reflexivity]. unfold slice_from. rewrite length_drop. lia.
  - intros [= <- <-]. exact E.
Qed.

(** Text that arrives later does not change what the complete lines already
    in the buffer did. *)
Lemma drain_app (buffer text : jsstring) (curr : list Msg) :
  drain (buffer ++ text) curr =
    '(buffer', curr') ← drain buffer curr; drain (buffer' ++ text) curr'.
Proof.
  remember (length buffer) as n eqn:Hn.
  revert buffer curr Hn. induction n as [n IH] using lt_wf_ind.
  intros buffer curr Hn.
  rewrite (drain_unfold buffer).
  destruct (indexOf LF buffer) as [idx|] eqn:E; [|reflexivity].
  rewrite (drain_unfold (buffer ++ text)), (indexOf_app_l _ _ text _ E).
  pose proof (indexOf_lt _ _ _ E) as Hlt.
  unfold slice_to, slice_from.
  rewrite take_app_le, drop_app_le by lia.
  destruct (process_line _ curr) as [c1|]; simpl; [|reflexivity].
  eapply IH; [|reflexivity]. rewrite length_drop. lia.
Qed.

Lemma drain_no_line (buffer : jsstring) (curr : list Msg) :
  LF ∉ buffer -> drain buffer curr = Some (buffer, curr).
Proof.
  intros H. rewrite drain_unfold. apply indexOf_None in H. rewrite H. reflexivity.
Qed.

(** The buffer holds no line feed between two reads, and reading chunk
    after chunk does what reading their concatenation at once does. *)
Lemma read_chunks_concat (chunks : list jsstring) (buffer : jsstring) (curr : list Msg) :
  LF ∉ buffer ->
  read_chunks chunks buffer curr = drain (buffer ++ concat chunks) curr.
Proof.
  revert buffer curr. induction chunks as [|text rest IH]; intros buffer curr Hb; simpl.
  - rewrite app_nil_r, drain_no_line by exact Hb. reflexivity.
  - rewrite app_assoc, (drain_app (buffer ++ text)).
    destruct (drain (buffer ++ text) curr) as [[b1 c1]|] eqn:E; simpl; [|reflexivity].
    apply IH. apply indexOf_None. eapply drain_exits. exact E.
Qed.

(** A complete line alone in the buffer is taken out and handled once. *)
Lemma drain_one_line (line : jsstring) (curr : list Msg) :
  LF ∉ line ->
  drain (line ++ [LF]) curr = curr' ← process_line (trim line) curr; Some ([], curr').
Proof.
  intros Hnot. rewrite drain_unfold, (indexOf_line line [] Hnot).
  unfold slice_to, slice_from.
  rewrite take_app_length.
  replace (S (length line)) with (length line + 1)%nat by lia.
  rewrite drop_app_add'; [|reflexivity]. simpl.
  destruct (process_line _ curr) as [c1|]; simpl; [|reflexivity].
  rewrite drain_unfold. reflexivity.
Qed.

End ReadLoopFacts.

(** ** The renderer: fragments *)

Section RendererFacts.
Import Js Page Fixtures.

Lemma process_line_not_data (line : jsstring) (curr : list Msg) :
  startsWith line Sse.DATA_MARKER = false -> process_line line curr = Some curr.
Proof. intros H. unfold process_line. rewrite H. reflexivity. Qed.

Lemma process_line_parse_error (line : jsstring) (curr : list Msg) :
  JSON_parse (trim (slice_from 5 line)) = None -> process_line line curr = Some curr.
Proof.
  intros H. unfold process_line, Sse.delta_of_payload. rewrite H.
  destruct (negb _); [reflexivity|]. destruct (_ || _); reflexivity.
Qed.

Lemma delta_of_payload_no_path (data : jsstring) (obj : json) :
  JSON_parse data = Some obj -> Sse.delta_path obj = None ->
  Sse.delta_of_payload data = Sse.NoDelta.
Proof. intros Hp Hd. unfold Sse.delta_of_payload. rewrite Hp, Hd. reflexivity. Qed.

Lemma process_line_delta (line delta : jsstring) (curr : list Msg) :
  startsWith line Sse.DATA_MARKER = true ->
  Sse.delta_of_payload (trim (slice_from 5 line)) = Sse.Delta delta ->
  process_line line curr = Some (append_delta delta curr).
Proof.
  intros Hs Hd. unfold process_line. rewrite Hs, Hd. simpl.
  destruct (jsstring_eqb _ [] || _) eqn:E; [|reflexivity].
  apply orb_true_iff in E as [E|E]; apply jsstring_eqb_eq in E;
    rewrite E in Hd; vm_compute in Hd; discriminate.
Qed.

(** C10: a fragment changes the last message only, and only an assistant
    one. The length of the conversation stays; every message before the last
    stays; a last assistant message gets the fragment at the end of its
    content; when the last message is not an assistant message (or there is
    none) the conversation is unchanged. *)
Theorem append_delta_touches_last_assistant_only (delta : jsstring) (curr : list Msg) :
  length (append_delta delta curr) = length curr
  /\ (forall i : nat, (S i < length curr)%nat -> append_delta delta curr !! i = curr !! i)
  /\ (forall l : Msg, last curr = Some l -> role l = Assistant ->
        last (append_delta delta curr)
          = Some {| role := Assistant; content := content l ++ delta |})
  /\ ((forall l : Msg, last curr = Some l -> role l <> Assistant) ->
        append_delta delta curr = curr).
Proof.
  destruct (snoc_cases curr) as [->|(front & x & ->)].
  - rewrite append_delta_nil. repeat split; try reflexivity.
    intros l [=].
  - rewrite append_delta_snoc, last_snoc.
    destruct (is_assistant (role x)) eqn:Hx.
    + repeat split.
      * rewrite !length_app. reflexivity.
      * intros i Hi. rewrite length_app in Hi. simpl in Hi.
        rewrite !lookup_app_l by lia. reflexivity.
      * intros l [= <-] _. rewrite last_snoc. reflexivity.
      * intros H. destruct (H x eq_refl). destruct (role x); try discriminate. reflexivity.
    + repeat split.
      * intros l [= <-] Hr. rewrite Hr in Hx. discriminate.
Qed.

(** The three lines of the test, in one buffer: whatever the conversation,
    two fragments are appended and the buffer is left empty. *)
Lemma drain_bonjour_stream (curr : list Msg) :
  drain BONJOUR_STREAM curr
    = Some ([], append_delta (js " !") (append_delta (js "Bonjour") curr)).
Proof. vm_compute. reflexivity. Qed.

(** C5: the stream of the test, however it is cut into reads, makes the
    placeholder at the end of any conversation read "Bonjour !"; with the
    events of the test the page ends, not pending, with the user's message
    and that answer; and [extractDeltaContentFromSSE] finds the two fragments.
    A line that does not start with the marker, an empty payload and [DONE]
    leave the conversation as it is; so does a payload that parses and has no
    [choices[0].delta.content] (the fragment is empty, nothing is thrown). *)
Theorem bonjour_stream_renders :
  (forall (chunks : list jsstring) (front : list Msg),
      concat chunks = BONJOUR_STREAM ->
      read_chunks chunks [] (front ++ [placeholder])
        = Some ([], front ++ [ {| role := Assistant; content := js "Bonjour !" |} ]))
  /\ (forall abort_message : jsstring,
        (fun w => (messages w, pending w)) <$> run abort_message BONJOUR_EVENTS initial
          = Some ([ {| role := User; content := INITIAL_INPUT |};
                    {| role := Assistant; content := js "Bonjour !" |} ], false))
  /\ Sse.extractDeltaContentFromSSE BONJOUR_STREAM = [JStr (js "Bonjour"); JStr (js " !")]
  /\ (forall (line : jsstring) (curr : list Msg),
        startsWith line Sse.DATA_MARKER = false ->
        process_line line curr = Some curr /\ Sse.fragment_of_line line = [])
  /\ (forall (line : jsstring) (curr : list Msg),
        trim (slice_from 5 line) = [] \/ trim (slice_from 5 line) = Sse.DONE_SENTINEL ->
        process_line line curr = Some curr /\ Sse.fragment_of_line line = [])
  /\ (forall (line : jsstring) (obj : json) (curr : list Msg),
        JSON_parse (trim (slice_from 5 line)) = Some obj ->
        Sse.delta_path obj = None ->
        process_line line curr = Some curr /\ Sse.fragment_of_line line = []).
Proof.
  split; [|split; [|split; [|split; [|split]]]].
  - intros chunks front Hc.
    rewrite read_chunks_concat by apply not_elem_of_nil.
    rewrite app_nil_l, Hc, drain_bonjour_stream.
    unfold placeholder.
    rewrite append_delta_snoc. cbn [is_assistant role content].
    rewrite append_delta_snoc. reflexivity.
  - intros abort_message. vm_compute. reflexivity.
  - vm_compute. reflexivity.
  - intros line curr H. split; [apply process_line_not_data, H|].
    unfold Sse.fragment_of_line. rewrite H. reflexivity.
  - intros line curr H. unfold process_line, Sse.fragment_of_line.
    destruct (negb _); [split; reflexivity|].
    destruct H as [-> | ->]; split; reflexivity.
  - intros line obj curr Hp Hd.
    unfold process_line, Sse.fragment_of_line.
    rewrite (delta_of_payload_no_path _ _ Hp Hd).
    destruct (negb _); [split; reflexivity|].
    destruct (_ || _); split; reflexivity.
Qed.

End RendererFacts.

(** ** Doubles *)

Section NumberFacts.
Import Js.
Local Open Scope Q_scope.

Lemma round_half_even_le (t : Q) : inject_Z (round_half_even t) <= t + (1 # 2).
Proof.
  unfold round_half_even.
  pose proof (Qfloor_le t) as Hf.
  destruct (Qcompare_spec (t - inject_Z (Qfloor t)) (1 # 2)) as [E|E|E].
  - destruct (Z.even (Qfloor t)).
    + lra.
    + rewrite inject_Z_plus. change (inject_Z 1) with 1. lra.
  - lra.
  - rewrite inject_Z_plus. change (inject_Z 1) with 1. lra.
Qed.

Lemma round_half_even_nonneg (t : Q) : 0 <= t -> (0 <= round_half_even t)%Z.
Proof.
  intros H. unfold round_half_even.
  assert (0 <= Qfloor t)%Z as Hf by (change 0%Z with (Qfloor 0); apply Qfloor_resp_le, H).
  destruct (Qcompare _ _); [destruct (Z.even _)| |]; lia.
Qed.

Lemma ilog2_below_256 (a : Q) : 0 < a -> a < 256 -> (ilog2 a <= 7)%Z.
Proof.
  intros H0 H1. unfold ilog2.
  destruct a as [n d]. cbn [Qnum Qden].
  assert (0 < n)%Z as Hn by (unfold Qlt in H0; cbn in H0; lia).
  assert (n < 256 * Z.pos d)%Z as Hnd by (unfold Qlt in H1; cbn in H1; lia).
  assert (Z.log2 n - Z.log2 (Z.pos d) <= 8)%Z as Hl.
  { assert (Z.log2 n <= Z.log2 (Z.pos d * 2 ^ 8))%Z as H by (apply Z.log2_le_mono; lia).
    rewrite Z.log2_mul_pow2 in H by lia. lia. }
  destruct (Qle_bool _ _) eqn:E; [|lia].
  apply Qle_bool_iff in E.
  destruct (Z.eq_dec (Z.log2 n - Z.log2 (Z.pos d)) 8) as [H8|H8]; [|lia].
  rewrite H8 in E. unfold pow2 in E.
  assert ((2:Q) ^ 8 == 256) as Hp by reflexivity.
  rewrite Hp in E. lra.
Qed.

Lemma nearest_double_times_200 (r : Q) :
  0 <= r -> r <= MAX_RANDOM ->
  exists x : Q, nearest_double (r * 200) = Finite x /\ (0 <= Qfloor x < 200)%Z.
Proof.
  intros H0 H1. unfold nearest_double.
  destruct (Qcompare_spec (r * 200) 0) as [E|E|E].
  - exists 0. split; [reflexivity|]. change (Qfloor 0) with 0%Z. lia.
  - exfalso. lra.
  - assert (Qabs (r * 200) == r * 200) as Ha by (apply Qabs_pos; lra).
    set (a := Qabs (r * 200)) in *.
    assert (0 < a) as Ha0 by lra.
    assert (a <= MAX_RANDOM * 200) as Ha1 by lra.
    set (e := Z.max (ilog2 a - 52) (-1074)).
    assert (e <= -45)%Z as He.
    { pose proof (ilog2_below_256 a Ha0) as H. unfold MAX_RANDOM in Ha1.
      assert (a < 256) as H256 by lra. specialize (H H256). lia. }
    assert (0 < pow2 e) as Hp0 by (apply Qpower_0_lt; reflexivity).
    assert (pow2 e <= pow2 (-45)) as Hp1 by (apply Qpower_le_compat_l; [exact He | discriminate]).
    set (m := round_half_even (a / pow2 e)).
    assert (inject_Z m <= a / pow2 e + (1 # 2)) as Hm by apply round_half_even_le.
    assert (0 <= m)%Z as Hm0.
    { apply round_half_even_nonneg. apply Qle_shift_div_l; [exact Hp0 | lra]. }
    set (x := inject_Z m * pow2 e).
    assert (0 <= x) as Hx0.
    { apply Qmult_le_0_compat; [|lra]. change 0 with (inject_Z 0). rewrite <- Zle_Qle. exact Hm0. }
    assert (x <= a + pow2 e * (1 # 2)) as Hx1.
    { unfold x.
      assert (inject_Z m * pow2 e <= (a / pow2 e + (1 # 2)) * pow2 e) as H
        by (apply Qmult_le_compat_r; [exact Hm | lra]).
      assert ((a / pow2 e + (1 # 2)) * pow2 e == a + pow2 e * (1 # 2)) as Hq
        by (field; lra).
      lra. }
    assert (x < 200) as Hx2.
    { assert (pow2 (-45) == 1 # 35184372088832) as Hc by reflexivity.
      unfold MAX_RANDOM in Ha1. lra. }
    assert (Qred x == x) as Hr by apply Qred_correct.
    assert (Qle_bool (pow2 1024) (Qred x) = false) as Hb.
    { destruct (Qle_bool _ _) eqn:Hb; [|reflexivity]. apply Qle_bool_iff in Hb.
      assert (pow2 8 <= pow2 1024) as H by (apply Qpower_le_compat_l; [lia | discriminate]).
      assert (pow2 8 == 256) as H8 by reflexivity. lra. }
    rewrite Hb. exists (Qred x). split; [reflexivity|].
    rewrite (Qfloor_comp _ _ Hr). split.
    + change 0%Z with (Qfloor 0). apply Qfloor_resp_le, Hx0.
    + rewrite Zlt_Qlt. eapply Qle_lt_trans; [apply Qfloor_le | exact Hx2].
Qed.

Lemma pow2_pos (e : Z) : 0 < pow2 e.
Proof. apply Qpower_0_lt. reflexivity. Qed.

Lemma pow2_plus (a b : Z) : pow2 (a + b) == pow2 a * pow2 b.
Proof. apply Qpower_plus. discriminate. Qed.

Lemma pow2_inject (n : Z) : (0 <= n)%Z -> pow2 n == inject_Z (2 ^ n).
Proof.
  intros H. unfold pow2. change (2:Q) with (inject_Z 2).
  symmetry. apply Zpower_Qpower. exact H.
Qed.

(** [ilog2] is the floor of the binary logarithm. *)
Lemma ilog2_spec (a : Q) : 0 < a -> pow2 (ilog2 a) <= a /\ a < pow2 (ilog2 a + 1).
Proof.
  intros H0. unfold ilog2. destruct a as [n d]. cbn [Qnum Qden].
  assert (0 < n)%Z as Hn by (unfold Qlt in H0; cbn in H0; lia).
  destruct (Z.log2_spec n Hn) as [Hn1 Hn2].
  destruct (Z.log2_spec (Z.pos d) (Pos2Z.is_pos d)) as [Hd1 Hd2].
  pose proof (Z.log2_nonneg n) as Ln. pose proof (Z.log2_nonneg (Z.pos d)) as Ld.
  set (ln := Z.log2 n) in *. set (ld := Z.log2 (Z.pos d)) in *.
  assert (n # d == inject_Z n / inject_Z (Z.pos d)) as Hq by apply Qmake_Qdiv.
  assert (0 < inject_Z (Z.pos d)) as Hdpos by (change 0 with (inject_Z 0); rewrite <- Zlt_Qlt; lia).
  assert (forall x : Z, pow2 x * inject_Z (Z.pos d) <= inject_Z n -> pow2 x <= n # d) as Hle.
  { intros x H. rewrite Hq. apply Qle_shift_div_l; assumption. }
  assert (forall x : Z, inject_Z n < pow2 x * inject_Z (Z.pos d) -> n # d < pow2 x) as Hlt.
  { intros x H. rewrite Hq. apply Qlt_shift_div_r; assumption. }
  assert (inject_Z (2 ^ ln) <= inject_Z n) as Qn1 by (rewrite <- Zle_Qle; exact Hn1).
  assert (inject_Z n < inject_Z (2 ^ Z.succ ln)) as Qn2 by (rewrite <- Zlt_Qlt; exact Hn2).
  assert (inject_Z (2 ^ ld) <= inject_Z (Z.pos d)) as Qd1 by (rewrite <- Zle_Qle; exact Hd1).
  assert (inject_Z (Z.pos d) < inject_Z (2 ^ Z.succ ld)) as Qd2 by (rewrite <- Zlt_Qlt; exact Hd2).
  rewrite <- pow2_inject in Qn1, Qn2, Qd1, Qd2 by lia.
  destruct (Qle_bool (pow2 (ln - ld)) (n # d)) eqn:E.
  - apply Qle_bool_iff in E. split; [exact E|].
    apply Hlt.
    assert (pow2 (Z.succ ln) == pow2 (ln - ld + 1) * pow2 ld) as Hs.
    { rewrite <- pow2_plus. replace (ln - ld + 1 + ld)%Z with (Z.succ ln) by lia. reflexivity. }
    pose proof (pow2_pos (ln - ld + 1)) as Hp.
    eapply Qlt_le_trans; [exact Qn2|]. rewrite Hs.
    apply Qmult_le_l; [exact Hp | exact Qd1].
  - assert (~ pow2 (ln - ld) <= n # d) as E'.
    { intros H. apply Qle_bool_iff in H. congruence. }
    apply Qnot_le_lt in E'. split.
    + apply Hle.
      assert (pow2 ln == pow2 (ln - ld - 1) * pow2 (Z.succ ld)) as Hs.
      { rewrite <- pow2_plus. replace (ln - ld - 1 + Z.succ ld)%Z with ln by lia. reflexivity. }
      pose proof (pow2_pos (ln - ld - 1)) as Hp.
      eapply Qle_trans; [|exact Qn1]. rewrite Hs.
      apply Qmult_le_l; [exact Hp | apply Qlt_le_weak, Qd2].
    + replace (ln - ld - 1 + 1)%Z with (ln - ld)%Z by lia. exact E'.
Qed.

(** A double below 1 is at most the largest double below 1. *)
Lemma is_double_below_one (r : Q) : is_double r -> 0 <= r -> r < 1 -> r <= MAX_RANDOM.
Proof.
  intros (x & Hx & Hxr) H0 H1. unfold MAX_RANDOM.
  destruct (Qlt_le_dec (1 # 2) r) as [Hhalf|Hhalf]; [|lra].
  unfold nearest_double in Hx.
  destruct (Qcompare_spec r 0) as [E|E|E]; [lra | lra |].
  assert (Qabs r == r) as Ha by (apply Qabs_pos; lra).
  set (a := Qabs r) in *.
  assert (0 < a) as Ha0 by lra.
  destruct (ilog2_spec a Ha0) as [L1 L2].
  assert (ilog2 a = -1)%Z as Hl.
  { assert (pow2 (ilog2 a) < pow2 0) as U by (change (pow2 0) with 1; lra).
    apply Qpower_lt_compat_l_inv in U; [|reflexivity].
    assert (pow2 (-1) < pow2 (ilog2 a + 1)) as V by (change (pow2 (-1)) with (1 # 2); lra).
    apply Qpower_lt_compat_l_inv in V; [|reflexivity]. lia. }
  rewrite Hl in Hx. change (Z.max (-1 - 52) (-1074)) with (-53)%Z in Hx.
  set (m := round_half_even (a / pow2 (-53))) in *.
  destruct (Qle_bool _ _); [discriminate|]. injection Hx as Hx.
  assert (x == inject_Z m * pow2 (-53)) as Hxm by (rewrite <- Hx; apply Qred_correct).
  assert (pow2 (-53) == 1 # 9007199254740992) as Hp by reflexivity.
  assert (inject_Z m < inject_Z 9007199254740992) as Hm.
  { change (inject_Z 9007199254740992) with 9007199254740992. rewrite Hp in Hxm. lra. }
  rewrite <- Zlt_Qlt in Hm.
  assert (inject_Z m <= inject_Z 9007199254740991) as Hm' by (rewrite <- Zle_Qle; lia).
  change (inject_Z 9007199254740991) with 9007199254740991 in Hm'. clear Hx.
  rewrite Hp in Hxm. lra.
Qed.

(** X2 and C1 rest on this: for a double [r] of [0, 1) the product
    [r * 200] of doubles is finite and its floor is an integer from 0 to
    199. *)
Lemma jitter_bounds (r : Q) :
  is_double r -> 0 <= r -> r < 1 ->
  (exists x : Q, double_mul r 200 = Finite x)
  /\ (200 <= 200 + Math_floor (double_mul r 200) < 400)%Z.
Proof.
  intros Hd H0 H1.
  destruct (nearest_double_times_200 r H0 (is_double_below_one r Hd H0 H1)) as (x & Hx & Hf).
  unfold double_mul. rewrite Hx. split; [exists x; reflexivity|]. cbn [Math_floor]. lia.
Qed.

End NumberFacts.

(** ** The proxy forwarder *)

Section ForwarderFacts.
Import Js Route.

Variable axios_post : trace -> upstream_request -> post_result.
Variable Math_random : trace -> Q.
Variable init_error : init_failure -> thrown.
Variable key : jsstring.
Variable msgs : list message.
Variable temp : Q.
Variable caPathUsed : option jsstring.
Variable allowInsecure : bool.

Abbreviation request_for := (request_for key msgs temp).
Abbreviation try_attempts :=
  (try_attempts axios_post Math_random init_error key msgs temp caPathUsed allowInsecure).
Abbreviation try_models :=
  (try_models axios_post Math_random init_error key msgs temp caPathUsed allowInsecure).
Abbreviation fallback :=
  (fallback axios_post Math_random init_error key msgs temp caPathUsed allowInsecure).
Abbreviation backoff := (backoff Math_random).

Lemma posts_app (tr1 tr2 : trace) : posts (tr1 ++ tr2) = posts tr1 ++ posts tr2.
Proof.
  induction tr1 as [|[ms|req] tr1 IH]; simpl; [reflexivity | exact IH | rewrite IH; reflexivity].
Qed.

Lemma posts_backoff (attempt : nat) (tr : trace) : posts (backoff attempt tr) = posts tr.
Proof.
  unfold Route.backoff. destruct (0 <? attempt)%nat; [|reflexivity].
  rewrite posts_app. simpl. apply app_nil_r.
Qed.

(** The first attempt waits for nothing; the second waits 200 ms and a
    jitter, the floor of the product of [Math.random()] and 200. *)
Lemma backoff_first (tr : trace) : backoff 0 tr = tr.
Proof. reflexivity. Qed.

Lemma backoff_second (tr : trace) :
  backoff 1 tr = tr ++ [Sleep (200 + Math_floor (double_mul (Math_random tr) 200))].
Proof. reflexivity. Qed.

(** One turn of the inner loop, by what the upstream answers. *)
Lemma try_attempts_nil (m : jsstring) (tr : trace) : try_attempts m [] tr = (Continue, tr).
Proof. reflexivity. Qed.

Lemma try_attempts_capacity (m : jsstring) (attempt : nat) (rest : list nat) (tr : trace) :
  capacity_signal (axios_post (backoff attempt tr) (request_for m)) = true ->
  try_attempts m (attempt :: rest) tr
    = try_attempts m rest (backoff attempt tr ++ [Post (request_for m)]).
Proof.
  intros H. cbn [Route.try_attempts].
  destruct (axios_post _ _) as [res|e]; [|discriminate]. simpl in H.
  apply andb_true_iff in H as [Hs H4]. apply negb_true_iff in Hs.
  rewrite Hs, H4. reflexivity.
Qed.

Lemma try_models_cons (m : jsstring) (rest : list jsstring) (tr : trace) :
  try_models (m :: rest) tr
    = match try_attempts m [0; 1]%nat tr with
      | (Continue, tr') => try_models rest tr'
      | stop => stop
      end.
Proof. reflexivity. Qed.

(** The constructor accepts what the handler gives it in these cases. *)
Lemma respond_text (st : Z) (text : jsstring) :
  (200 <= st <= 599)%Z -> null_body_status st = false ->
  respond init_error (BodyText text) st [] = Return (text_response st text).
Proof.
  intros [Hlo Hhi] Hn. unfold respond, new_Response.
  apply Z.leb_le in Hlo, Hhi. rewrite Hlo, Hhi, Hn. reflexivity.
Qed.

Lemma respond_stream (chunks : list jsstring) (m : jsstring) :
  header_value_ok m = true -> ca_header_ok caPathUsed ->
  exists r : response,
    respond init_error (BodyStream chunks) 200 (success_headers caPathUsed m) = Return r
    /\ status r = 200%Z
    /\ body_of r = BodyStream chunks
    /\ headers_get (js "X-Model-Used") (headers r) = Some (normalize_header_value m).
Proof.
  intros Hm Hca. unfold respond, new_Response, success_headers.
  assert (forallb (fun h : jsstring * jsstring => header_value_ok h.2)
            ([(js "Content-Type", js "text/event-stream; charset=utf-8");
              (js "Cache-Control", js "no-cache, no-transform");
              (js "Connection", js "keep-alive"); (js "X-Model-Used", m)]
             ++ match caPathUsed with
                | Some (c :: p) => [(js "X-CA-Used", c :: p)]
                | _ => []
                end) = true) as ->.
  { rewrite forallb_app. apply andb_true_iff. split.
    - cbn [forallb snd]. rewrite Hm. reflexivity.
    - unfold ca_header_ok in Hca. destruct caPathUsed as [[|c p]|]; try reflexivity.
      cbn [forallb snd]. rewrite Hca. reflexivity. }
  cbn [negb Z.leb Z.compare andb null_body_status Z.eqb orb].
  eexists. split; [reflexivity|]. repeat split.
Qed.

(** The requests of the inner loop: the same request, at most once per
    attempt, and once per attempt when the loop goes on to the next model. *)
Lemma try_attempts_shape (m : jsstring) (attempts : list nat) (tr : trace)
    (out : outcome) (tr' : trace) :
  try_attempts m attempts tr = (out, tr') ->
  exists n : nat,
    (n <= length attempts)%nat
    /\ posts tr' = posts tr ++ replicate n (request_for m)
    /\ (out = Continue -> n = length attempts).
Proof.
  revert tr. induction attempts as [|attempt rest IH]; intros tr.
  - rewrite try_attempts_nil. intros [= <- <-]. exists 0%nat.
    rewrite app_nil_r. auto.
  - cbn [Route.try_attempts].
    assert (posts (backoff attempt tr ++ [Post (request_for m)])
              = posts tr ++ [request_for m]) as Hp.
    { rewrite posts_app, posts_backoff. reflexivity. }
    assert (forall o : outcome, o <> Continue ->
              (o, backoff attempt tr ++ [Post (request_for m)]) = (out, tr') ->
              exists n : nat, (n <= length (attempt :: rest))%nat
                /\ posts tr' = posts tr ++ replicate n (request_for m)
                /\ (out = Continue -> n = length (attempt :: rest))) as Hstop.
    { intros o Ho [= <- <-]. exists 1%nat. simpl. rewrite Hp.
      split; [lia|]. split; [reflexivity|]. intros; contradiction. }
    destruct (axios_post _ _) as [res|e]; [|apply Hstop; discriminate].
    destruct (isSuccess res).
    { unfold respond. destruct (new_Response _ _ _); apply Hstop; discriminate. }
    destruct (negb (is429 res)).
    { unfold respond. destruct (new_Response _ _ _); apply Hstop; discriminate. }
    intros H. destruct (IH _ H) as (n & Hn & Hposts & Hc).
    exists (S n). simpl. split; [lia|]. split.
    + rewrite Hposts, Hp, <- app_assoc. reflexivity.
    + intros Ho. rewrite (Hc Ho). reflexivity.
Qed.

(** Each model is asked twice at most, in the order of the candidates. *)
Lemma try_models_shape (candidates : list jsstring) (tr : trace)
    (out : outcome) (tr' : trace) :
  try_models candidates tr = (out, tr') ->
  exists models : list jsstring,
    posts tr' = posts tr ++ map request_for models
    /\ models `prefix_of` twice candidates
    /\ (out = Continue -> models = twice candidates).
Proof.
  revert tr. induction candidates as [|m rest IH]; intros tr.
  - intros [= <- <-]. exists []. rewrite app_nil_r. repeat split. reflexivity.
  - rewrite try_models_cons.
    destruct (try_attempts m [0; 1]%nat tr) as [o tr1] eqn:E.
    destruct (try_attempts_shape _ _ _ _ _ E) as (n & Hn & Hposts & Hc).
    assert (o <> Continue -> (o, tr1) = (out, tr') ->
            exists models : list jsstring,
              posts tr' = posts tr ++ map request_for models
              /\ models `prefix_of` twice (m :: rest)
              /\ (out = Continue -> models = twice (m :: rest))) as Hstop.
    { intros Ho [= <- <-]. exists (replicate n m).
      split; [rewrite Hposts; f_equal; symmetry; apply (fmap_replicate (request_for))|].
      split; [|intros; contradiction].
      simpl in Hn. unfold twice. simpl.
      destruct n as [|[|[|n]]]; [| | |lia]; simpl.
      - apply prefix_nil.
      - apply prefix_cons, prefix_nil.
      - apply prefix_cons, prefix_cons, prefix_nil. }
    destruct o; [apply Hstop; discriminate | apply Hstop; discriminate |].
    intros H. destruct (IH _ H) as (models & Hm & Hpre & Hall).
    specialize (Hc eq_refl). subst n. simpl in Hposts.
    exists (m :: m :: models). split.
    + rewrite Hm, Hposts, <- app_assoc. reflexivity.
    + unfold twice. simpl. split.
      * apply prefix_cons, prefix_cons. exact Hpre.
      * intros Ho. rewrite (Hall Ho). reflexivity.
Qed.

Abbreviation decisive := (decisive init_error caPathUsed allowInsecure).
Abbreviation conclude := (conclude caPathUsed allowInsecure).

Lemma decisive_not_Continue (r : post_result) (m : jsstring) : decisive r m <> Continue.
Proof.
  unfold Route.decisive, respond. destruct r as [res|e]; [|discriminate].
  destruct (isSuccess res); destruct (new_Response _ _ _); discriminate.
Qed.

Lemma try_attempts_decisive (m : jsstring) (attempt : nat) (rest : list nat) (tr : trace) :
  capacity_signal (axios_post (backoff attempt tr) (request_for m)) = false ->
  try_attempts m (attempt :: rest) tr
    = (decisive (axios_post (backoff attempt tr) (request_for m)) m,
       backoff attempt tr ++ [Post (request_for m)]).
Proof.
  intros H. cbn [Route.try_attempts]. unfold Route.decisive.
  destruct (axios_post _ _) as [res|e]; [|reflexivity]. simpl in H.
  destruct (isSuccess res); [reflexivity|]. simpl in H. rewrite H. reflexivity.
Qed.

Abbreviation before_retry := (before_retry Math_random key msgs temp).
Abbreviation after_retry := (after_retry Math_random key msgs temp).
Abbreviation trace_before := (trace_before Math_random key msgs temp).

Lemma try_models_first (m : jsstring) (rest : list jsstring) (tr : trace) :
  capacity_signal (axios_post tr (request_for m)) = false ->
  try_models (m :: rest) tr
    = (decisive (axios_post tr (request_for m)) m, tr ++ [Post (request_for m)]).
Proof.
  intros H. rewrite try_models_cons, try_attempts_decisive by exact H.
  rewrite backoff_first.
  pose proof (decisive_not_Continue (axios_post tr (request_for m)) m) as Hd.
  destruct (decisive _ m); [reflexivity | reflexivity | contradiction].
Qed.

Lemma try_models_retry (m : jsstring) (rest : list jsstring) (tr : trace) :
  capacity_signal (axios_post tr (request_for m)) = true ->
  capacity_signal (axios_post (before_retry m tr) (request_for m)) = false ->
  try_models (m :: rest) tr
    = (decisive (axios_post (before_retry m tr) (request_for m)) m, after_retry m tr).
Proof.
  intros H1 H2.
  rewrite try_models_cons, try_attempts_capacity by exact H1.
  rewrite backoff_first, try_attempts_decisive by exact H2.
  pose proof (decisive_not_Continue (axios_post (before_retry m tr) (request_for m)) m) as Hd.
  destruct (decisive _ m); [reflexivity | reflexivity | contradiction].
Qed.

Lemma try_models_next (m : jsstring) (rest : list jsstring) (tr : trace) :
  capacity_signal (axios_post tr (request_for m)) = true ->
  capacity_signal (axios_post (before_retry m tr) (request_for m)) = true ->
  try_models (m :: rest) tr = try_models rest (after_retry m tr).
Proof.
  intros H1 H2.
  rewrite try_models_cons, try_attempts_capacity by exact H1.
  rewrite backoff_first, try_attempts_capacity by exact H2.
  rewrite try_attempts_nil. reflexivity.
Qed.

Lemma posts_before_retry (m : jsstring) (tr : trace) :
  posts (before_retry m tr) = posts tr ++ [request_for m].
Proof. unfold Route.before_retry. rewrite posts_backoff, posts_app. reflexivity. Qed.

Lemma posts_after_retry (m : jsstring) (tr : trace) :
  posts (after_retry m tr) = posts tr ++ [request_for m; request_for m].
Proof.
  unfold Route.after_retry. rewrite posts_app, posts_before_retry, <- app_assoc. reflexivity.
Qed.

Lemma posts_trace_before (preferModel : jsstring) (k : nat) :
  (k <= 6)%nat ->
  posts (trace_before preferModel k)
    = map request_for (take k (twice [preferModel; MEDIUM_MODEL; SMALL_MODEL])).
Proof.
  intros Hk. destruct k as [|[|[|[|[|[|[|k]]]]]]]; [..|lia];
    unfold Route.trace_before; rewrite ?posts_before_retry, ?posts_after_retry; reflexivity.
Qed.

Abbreviation candidates_of preferModel := [preferModel; MEDIUM_MODEL; SMALL_MODEL].

Lemma capacity_before (preferModel : jsstring) (j k : nat) (req : upstream_request) :
  (forall (tr : trace) (req : upstream_request),
      (length (posts tr) < k)%nat -> capacity_signal (axios_post tr req) = true) ->
  (j < k)%nat -> (k <= 6)%nat ->
  capacity_signal (axios_post (trace_before preferModel j) req) = true.
Proof.
  intros H Hj Hk. apply H.
  rewrite posts_trace_before, length_map, length_take by lia. simpl. lia.
Qed.

(** When the first [k] answers are capacity signals and the next is not,
    the handler ends with what that answer decides, and asks nothing more. *)
Lemma fallback_decisive (preferModel : jsstring) (k : nat) (m : jsstring) :
  (forall (tr : trace) (req : upstream_request),
      (length (posts tr) < k)%nat -> capacity_signal (axios_post tr req) = true) ->
  twice (candidates_of preferModel) !! k = Some m ->
  capacity_signal (axios_post (trace_before preferModel k) (request_for m)) = false ->
  fallback preferModel
    = (conclude (candidates_of preferModel)
         (decisive (axios_post (trace_before preferModel k) (request_for m)) m),
       trace_before preferModel k ++ [Post (request_for m)]).
Proof.
  intros H Hm Hd. unfold Route.fallback.
  pose proof (fun j req Hj Hk => capacity_before preferModel j k req H Hj Hk) as C.
  destruct k as [|[|[|[|[|[|k]]]]]]; [injection Hm as <-..|discriminate].
  - rewrite try_models_first by exact Hd. reflexivity.
  - rewrite try_models_retry by first [exact Hd | apply (C 0%nat); lia]. reflexivity.
  - rewrite try_models_next by first [apply (C 0%nat); lia | apply (C 1%nat); lia].
    rewrite try_models_first by exact Hd. reflexivity.
  - rewrite try_models_next by first [apply (C 0%nat); lia | apply (C 1%nat); lia].
    rewrite try_models_retry by first [exact Hd | apply (C 2%nat); lia]. reflexivity.
  - rewrite try_models_next by first [apply (C 0%nat); lia | apply (C 1%nat); lia].
    rewrite try_models_next by first [apply (C 2%nat); lia | apply (C 3%nat); lia].
    rewrite try_models_first by exact Hd. reflexivity.
  - rewrite try_models_next by first [apply (C 0%nat); lia | apply (C 1%nat); lia].
    rewrite try_models_next by first [apply (C 2%nat); lia | apply (C 3%nat); lia].
    rewrite try_models_retry by first [exact Hd | apply (C 4%nat); lia]. reflexivity.
Qed.


(** When [Math.random] gives doubles of [0, 1), every sleep of the longest
    run, and of every run that is a beginning of it, lasts at least 200 ms and
    less than 400 ms. *)
Lemma trace_before_sleeps (preferModel : jsstring) (k : nat) (ms : Z) :
  (forall tr : trace,
      is_double (Math_random tr) /\ (0 <= Math_random tr)%Q /\ (Math_random tr < 1)%Q) ->
  Sleep ms ∈ trace_before preferModel k -> (200 <= ms < 400)%Z.
Proof.
  intros Hrand Hin.
  destruct k as [|[|[|[|[|[|k]]]]]];
    unfold Route.trace_before, Route.after_retry, Route.before_retry, Route.backoff in Hin;
    cbn [Nat.ltb Nat.leb] in Hin;
    repeat (apply elem_of_app in Hin as [Hin|Hin]);
    repeat match goal with
           | H : _ ∈ [] |- _ => inversion H
           | H : _ ∈ [_] |- _ => apply list_elem_of_singleton in H
           end;
    try discriminate;
    injection Hin as ->;
    match goal with
    | |- context [Math_random ?t] =>
        destruct (Hrand t) as (Hd & H0 & H1);
        apply (jitter_bounds (Math_random t) Hd H0 H1)
    end.
Qed.

(** Every request of a run carries the filtered messages, and the models
    asked are a prefix of: each candidate twice. *)
Lemma fallback_requests (preferModel : jsstring) :
  exists models : list jsstring,
    posts (fallback preferModel).2 = map request_for models
    /\ models `prefix_of` twice (candidates_of preferModel).
Proof.
  unfold Route.fallback.
  destruct (try_models (candidates_of preferModel) []) as [o tr] eqn:E.
  destruct (try_models_shape _ _ _ _ E) as (models & Hp & Hpre & _).
  exists models. split; [exact Hp | exact Hpre].
Qed.

End ForwarderFacts.

(** ** The handler [POST] *)

Section HandlerFacts.
Import Js Route.

Variable axios_post : trace -> upstream_request -> post_result.
Variable Math_random : trace -> Q.
Variable init_error : init_failure -> thrown.

Abbreviation POST := (POST axios_post Math_random init_error).

Lemma POST_with_key (e : env) (p : payload) (key : jsstring) :
  MISTRAL_API_KEY e = Some key -> key <> [] ->
  POST e (BodyOk p)
    = fallback axios_post Math_random init_error key (filtered p)
        (default (2 # 10)%Q (temperature p)) (find_ca e (caCandidates e))
        (allow_insecure e) (preferred p).
Proof.
  intros Hk Hne. unfold Route.POST. rewrite Hk.
  destruct key; [contradiction | reflexivity].
Qed.

Lemma POST_requests (e : env) (req : request_json) (r : upstream_request) :
  r ∈ posts (POST e req).2 ->
  exists (p : payload) (key m : jsstring), req = BodyOk p /\ r = request_of key p m.
Proof.
  unfold Route.POST.
  destruct (MISTRAL_API_KEY e) as [[|c key]|]; simpl; try (intros H; inversion H; fail).
  destruct req as [p|err]; simpl; [|intros H; inversion H].
  intros H.
  destruct (fallback_requests axios_post Math_random init_error (c :: key) (filtered p)
              (default (2 # 10)%Q (temperature p)) (find_ca e (caCandidates e))
              (allow_insecure e) (preferred p)) as (models & Hp & _).
  fold (filtered p) (preferred p) in H. rewrite Hp in H.
  apply list_elem_of_fmap in H as (m & -> & _).
  exists p, (c :: key), m. split; reflexivity.
Qed.

Lemma empty_assistant_dropped (m : message) : empty_assistant m -> keep_message m = false.
Proof.
  intros (Hr & Hc & Ht). unfold keep_message, blank_content, no_tool_calls.
  rewrite Hr, jsstring_eqb_refl.
  destruct (content m) as [[|c s]|]; [| |].
  - destruct (tool_calls m) as [calls|]; [rewrite (Ht calls eq_refl)|]; reflexivity.
  - rewrite (Hc (c :: s) eq_refl).
    destruct (tool_calls m) as [calls|]; [rewrite (Ht calls eq_refl)|]; reflexivity.
  - destruct (tool_calls m) as [calls|]; [rewrite (Ht calls eq_refl)|]; reflexivity.
Qed.



(** C2 (amended): after three capacity signals (the two attempts of the
    preferred model and the first attempt of medium) the next request is the
    second attempt of medium; when it succeeds, the response has status 200,
    the header [X-Model-Used] is "mistral-medium-latest" and the body is the
    stream of the upstream, chunk for chunk. *)
Theorem success_after_three_capacity_signals_is_medium
    (e : env) (p : payload) (key : jsstring) :
  MISTRAL_API_KEY e = Some key ->
  key <> [] ->
  ca_header_ok (find_ca e (caCandidates e)) ->
  (forall (tr : trace) (req : upstream_request),
      (length (posts tr) < 3)%nat -> capacity_signal (axios_post tr req) = true) ->
  (forall (tr : trace) (req : upstream_request),
      length (posts tr) = 3%nat ->
      exists res : upstream_response, axios_post tr req = Resolved res /\ isSuccess res = true) ->
  let run := POST e (BodyOk p) in
  status run.1 = 200%Z
  /\ headers_get (js "X-Model-Used") (headers run.1) = Some MEDIUM_MODEL
  /\ map req_model (posts run.2)
       = [preferred p; preferred p; MEDIUM_MODEL; MEDIUM_MODEL]
  /\ exists (tr : trace) (res : upstream_response),
       axios_post tr (request_of key p MEDIUM_MODEL) = Resolved res
       /\ body_of run.1 = BodyStream (default [] (res_data res)).
Proof.
  intros Hk Hne Hca Hcap Hok run. subst run. rewrite (POST_with_key e p key Hk Hne).
  set (tr3 := trace_before Math_random key (filtered p) (default (2 # 10)%Q (temperature p))
                (preferred p) 3).
  assert (length (posts tr3) = 3%nat) as Hlen.
  { unfold tr3. rewrite posts_trace_before by lia. reflexivity. }
  destruct (Hok tr3 (request_of key p MEDIUM_MODEL) Hlen) as (res & Hres & Hs).
  rewrite (fallback_decisive _ _ _ _ _ _ _ _ _ 3 MEDIUM_MODEL Hcap eq_refl)
    by (fold tr3; unfold request_of in Hres; rewrite Hres; simpl; rewrite Hs; reflexivity).
  fold tr3. unfold request_of in Hres. rewrite Hres.
  unfold decisive. rewrite Hs.
  destruct (respond_stream init_error (find_ca e (caCandidates e))
              (default [] (res_data res)) MEDIUM_MODEL eq_refl Hca)
    as (r & Hr & Hst & Hbody & Hhdr).
  rewrite Hr. cbn [conclude fst snd].
  split; [exact Hst|]. split; [exact Hhdr|]. split.
  - rewrite posts_app. unfold tr3. rewrite posts_trace_before by lia. reflexivity.
  - exists tr3, res. split; [exact Hres | exact Hbody].
Qed.

(** After four capacity signals the next request is the first attempt of
    small: a success then names "mistral-small-latest". *)
Lemma success_after_four_capacity_signals_is_small
    (e : env) (p : payload) (key : jsstring) :
  MISTRAL_API_KEY e = Some key ->
  key <> [] ->
  ca_header_ok (find_ca e (caCandidates e)) ->
  (forall (tr : trace) (req : upstream_request),
      (length (posts tr) < 4)%nat -> capacity_signal (axios_post tr req) = true) ->
  (forall (tr : trace) (req : upstream_request),
      length (posts tr) = 4%nat ->
      exists res : upstream_response, axios_post tr req = Resolved res /\ isSuccess res = true) ->
  let run := POST e (BodyOk p) in
  status run.1 = 200%Z
  /\ headers_get (js "X-Model-Used") (headers run.1) = Some SMALL_MODEL
  /\ map req_model (posts run.2)
       = [preferred p; preferred p; MEDIUM_MODEL; MEDIUM_MODEL; SMALL_MODEL].
Proof.
  intros Hk Hne Hca Hcap Hok run. subst run. rewrite (POST_with_key e p key Hk Hne).
  set (tr4 := trace_before Math_random key (filtered p) (default (2 # 10)%Q (temperature p))
                (preferred p) 4).
  assert (length (posts tr4) = 4%nat) as Hlen.
  { unfold tr4. rewrite posts_trace_before by lia. reflexivity. }
  destruct (Hok tr4 (request_of key p SMALL_MODEL) Hlen) as (res & Hres & Hs).
  rewrite (fallback_decisive _ _ _ _ _ _ _ _ _ 4 SMALL_MODEL Hcap eq_refl)
    by (fold tr4; unfold request_of in Hres; rewrite Hres; simpl; rewrite Hs; reflexivity).
  fold tr4. unfold request_of in Hres. rewrite Hres.
  unfold decisive. rewrite Hs.
  destruct (respond_stream init_error (find_ca e (caCandidates e))
              (default [] (res_data res)) SMALL_MODEL eq_refl Hca)
    as (r & Hr & Hst & Hbody & Hhdr).
  rewrite Hr. cbn [conclude fst snd].
  split; [exact Hst|]. split; [exact Hhdr|].
  rewrite posts_app. unfold tr4. rewrite posts_trace_before by lia. reflexivity.
Qed.

(** C3 (amended): when the answer number [k] (after [k] capacity signals) is
    not a success and not a capacity signal, and its status is one the
    [Response] constructor takes with a body (200..599, not 204, 205, 304),
    the handler answers at once with that status; the body is the line
    "Upstream <status>: " followed by the upstream error body as it came, and
    a second line with the JSON of status, model and TLS settings; the
    request that got the answer is the last one. *)
Theorem other_upstream_error_is_returned_at_once
    (e : env) (p : payload) (key : jsstring) (k : nat) (m : jsstring)
    (res : upstream_response) :
  MISTRAL_API_KEY e = Some key ->
  key <> [] ->
  twice [preferred p; MEDIUM_MODEL; SMALL_MODEL] !! k = Some m ->
  (forall (tr : trace) (req : upstream_request),
      (length (posts tr) < k)%nat -> capacity_signal (axios_post tr req) = true) ->
  (forall (tr : trace) (req : upstream_request),
      length (posts tr) = k -> axios_post tr req = Resolved res) ->
  isSuccess res = false ->
  is429 res = false ->
  (200 <= res_status res <= 599)%Z ->
  null_body_status (res_status res) = false ->
  let run := POST e (BodyOk p) in
  status run.1 = res_status res
  /\ body_of run.1
       = BodyText (js "Upstream " ++ Z_text (res_status res) ++ js ": " ++ errText res
                   ++ [LF]
                   ++ JSON_stringify (error_meta (find_ca e (caCandidates e))
                                        (allow_insecure e) (res_status res) m))
  /\ length (posts run.2) = S k
  /\ last (posts run.2) = Some (request_of key p m).
Proof.
  intros Hk Hne Hm Hcap Hres Hs H4 Hst Hnull run. subst run.
  rewrite (POST_with_key e p key Hk Hne).
  assert (k < 6)%nat as Hk6.
  { apply lookup_lt_Some in Hm. exact Hm. }
  set (trk := trace_before Math_random key (filtered p) (default (2 # 10)%Q (temperature p))
                (preferred p) k).
  assert (length (posts trk) = k) as Hlen.
  { unfold trk. rewrite posts_trace_before, length_map, length_take by lia. simpl. lia. }
  pose proof (Hres trk (request_of key p m) Hlen) as Hr. unfold request_of in Hr.
  rewrite (fallback_decisive _ _ _ _ _ _ _ _ _ k m Hcap Hm)
    by (fold trk; rewrite Hr; simpl; rewrite Hs, H4; reflexivity).
  fold trk. rewrite Hr. unfold decisive. rewrite Hs.
  rewrite respond_text by assumption.
  cbn [conclude fst snd text_response status body_of].
  split; [reflexivity|]. split; [reflexivity|].
  rewrite posts_app, length_app, Hlen. simpl.
  split; [lia|]. apply last_snoc.
Qed.

(** C4: no upstream request of the handler carries an assistant message
    with empty or whitespace-only content and no tool call: the messages of
    every request are the incoming ones without these. A placeholder at the
    end of the conversation is dropped. The page, too, sends its
    conversation without the assistant messages of blank content, so without
    the placeholder it has just appended. *)
Theorem placeholders_never_reach_upstream :
  (forall (e : env) (req : request_json) (r : upstream_request) (m : message),
      r ∈ posts (POST e req).2 -> empty_assistant m -> m ∉ req_messages r)
  /\ (forall (e : env) (p : payload) (r : upstream_request),
        r ∈ posts (POST e (BodyOk p)).2 ->
        req_messages r = List.filter keep_message (default [] (messages p)))
  /\ (forall (e : env) (p : payload) (r : upstream_request)
             (conversation : list message) (m : message),
        messages p = Some (conversation ++ [m]) ->
        empty_assistant m ->
        r ∈ posts (POST e (BodyOk p)).2 ->
        req_messages r = List.filter keep_message conversation)
  /\ (forall w : Page.world,
        Page.send_refused w = false ->
        exists (ac : nat) (b : Page.api_body),
          last (Page.effects (Page.send w)) = Some (Page.EFetch ac b)
          /\ Page.api_messages b
               = List.filter
                   (fun m => negb (Page.is_assistant (Page.role m)
                                   && jsstring_eqb (trim (Page.content m)) []))
                   (Page.messages w)
                 ++ [ {| Page.role := Page.User; Page.content := Page.input w |} ]
          /\ (Fixtures.placeholder ∉ Page.api_messages b)
          /\ forall m' : Page.Msg,
               m' ∈ Page.api_messages b ->
               Page.role m' = Page.Assistant -> trim (Page.content m') <> []).
Proof.
  split; [|split; [|split]].
  - intros e req r m Hr Hm Hin.
    destruct (POST_requests e req r Hr) as (p & key & m0 & -> & ->).
    cbn [request_of request_for req_messages] in Hin. unfold filtered in Hin.
    apply list_elem_of_In, filter_In in Hin as [_ Hkeep].
    rewrite (empty_assistant_dropped m Hm) in Hkeep. discriminate.
  - intros e p r Hr.
    destruct (POST_requests e _ r Hr) as (p' & key & m0 & [= <-] & ->). reflexivity.
  - intros e p r conversation m Hp Hm Hr.
    destruct (POST_requests e _ r Hr) as (p' & key & m0 & [= <-] & ->).
    cbn [request_of request_for req_messages]. unfold filtered. rewrite Hp. simpl.
    rewrite List.filter_app. simpl. rewrite (empty_assistant_dropped m Hm).
    apply app_nil_r.
  - intros w Hw. unfold Page.send. unfold Page.send_refused in Hw. rewrite Hw.
    eexists _, _. cbn [Page.effects]. split.
    { rewrite app_assoc. apply last_snoc. }
    cbn [Page.api_messages].
    assert (List.filter
              (fun m => negb (Page.is_assistant (Page.role m)
                              && jsstring_eqb (trim (Page.content m)) []))
              (Page.messages w ++
                 [ {| Page.role := Page.User; Page.content := Page.input w |};
                   {| Page.role := Page.Assistant; Page.content := [] |} ])
            = List.filter
                (fun m => negb (Page.is_assistant (Page.role m)
                                && jsstring_eqb (trim (Page.content m)) []))
                (Page.messages w)
              ++ [ {| Page.role := Page.User; Page.content := Page.input w |} ]) as Heq.
    { rewrite List.filter_app. reflexivity. }
    split; [exact Heq|]. split.
    + intros Hin. apply list_elem_of_In, filter_In in Hin as [_ Hf]. discriminate.
    + intros m' Hin Hrole Hblank.
      apply list_elem_of_In, filter_In in Hin as [_ Hf].
      rewrite Hrole, Hblank in Hf. discriminate.
Qed.

End HandlerFacts.

(** ** The handler on the upstream of its tests *)

Lemma half_is_random (tr : Route.trace) :
  Js.is_double (Fixtures.HALF tr)
  /\ (0 <= Fixtures.HALF tr)%Q /\ (Fixtures.HALF tr < 1)%Q.
Proof.
  split; [|split; [discriminate | reflexivity]].
  exists (1 # 2)%Q. split; [vm_compute; reflexivity | reflexivity].
Qed.

Lemma scripted_capacity (n : nat) (extra : list Route.post_result) (tr : Route.trace)
    (req : Route.upstream_request) :
  (length (Route.posts tr) < n)%nat ->
  Route.capacity_signal
    (Fixtures.scripted (replicate n Fixtures.CAPACITY_429 ++ extra) tr req) = true.
Proof.
  intros H. unfold Fixtures.scripted.
  rewrite app_nth1 by (rewrite length_replicate; exact H).
  rewrite nth_lookup, lookup_replicate_2 by exact H. reflexivity.
Qed.

Lemma scripted_at (n : nat) (answer : Route.post_result) (tr : Route.trace)
    (req : Route.upstream_request) :
  length (Route.posts tr) = n ->
  Fixtures.scripted (replicate n Fixtures.CAPACITY_429 ++ [answer]) tr req = answer.
Proof.
  intros H. unfold Fixtures.scripted.
  rewrite app_nth2 by (rewrite length_replicate; lia).
  rewrite length_replicate, H, Nat.sub_diag. reflexivity.
Qed.


(** C2, as stated, fails: with 429, 429, 429 and then a success, the fourth
    request is the second attempt of medium, and the header of the response
    is "mistral-medium-latest", not "mistral-small-latest". *)
Lemma three_capacity_signals_then_success_counterexample :
  let upstream :=
    Fixtures.scripted (replicate 3 Fixtures.CAPACITY_429 ++ [Fixtures.SUCCESS_200]) in
  let run :=
    Route.POST upstream Fixtures.HALF Fixtures.INIT_ERROR Fixtures.TEST_ENV
      Fixtures.HI_REQUEST in
  Route.capacity_signal Fixtures.CAPACITY_429 = true
  /\ Route.capacity_signal Fixtures.SUCCESS_200 = false
  /\ map Route.req_model (Route.posts run.2)
       = [Js.js "mistral-large-latest"; Js.js "mistral-large-latest";
          Js.js "mistral-medium-latest"; Js.js "mistral-medium-latest"]
  /\ Js.status run.1 = 200%Z
  /\ Js.headers_get (Js.js "X-Model-Used") (Js.headers run.1)
       = Some (Js.js "mistral-medium-latest")
  /\ Js.headers_get (Js.js "X-Model-Used") (Js.headers run.1)
       <> Some (Js.js "mistral-small-latest").
Proof.
  cbv zeta. repeat split; try (vm_compute; reflexivity).
  vm_compute. discriminate.
Qed.

Lemma success_after_three_capacity_signals_witness :
  Route.MISTRAL_API_KEY Fixtures.TEST_ENV = Some (Js.js "test-key")
  /\ Js.headers_get (Js.js "X-Model-Used")
       (Js.headers
          (Route.POST
             (Fixtures.scripted (replicate 3 Fixtures.CAPACITY_429 ++ [Fixtures.SUCCESS_200]))
             Fixtures.HALF Fixtures.INIT_ERROR Fixtures.TEST_ENV Fixtures.HI_REQUEST).1)
     = Some Route.MEDIUM_MODEL.
Proof.
  split; [reflexivity|].
  apply (success_after_three_capacity_signals_is_medium
           (Fixtures.scripted (replicate 3 Fixtures.CAPACITY_429 ++ [Fixtures.SUCCESS_200]))
           Fixtures.HALF Fixtures.INIT_ERROR Fixtures.TEST_ENV Fixtures.HI_PAYLOAD
           (Js.js "test-key") eq_refl ltac:(discriminate) I).
  - intros tr req H. apply scripted_capacity. exact H.
  - intros tr req H. rewrite (scripted_at 3 _ tr req H).
    eexists. split; reflexivity.
Defined.

(** C3, as stated, fails on the body: for the 400 of the test the handler
    answers 400 at once, and its body is not the upstream error body but a
    text that wraps it. *)
Lemma bad_request_body_counterexample :
  let run :=
    Route.POST (Fixtures.scripted [Fixtures.BAD_REQUEST_400]) Fixtures.HALF
      Fixtures.INIT_ERROR Fixtures.TEST_ENV Fixtures.HI_REQUEST in
  Js.status run.1 = 400%Z
  /\ length (Route.posts run.2) = 1%nat
  /\ Js.body_of run.1
       = Js.BodyText
           (Js.jsq "Upstream 400: {'object':'error','message':'bad request'}"
            ++ [Js.LF]
            ++ Js.jsq "{'status':400,'modelTried':'mistral-large-latest','allowInsecure':false}")
  /\ Js.body_of run.1
       <> Js.BodyText (Js.jsq "{'object':'error','message':'bad request'}").
Proof.
  cbv zeta. repeat split; try (vm_compute; reflexivity).
  vm_compute. discriminate.
Qed.

Lemma other_upstream_error_witness :
  Route.MISTRAL_API_KEY Fixtures.TEST_ENV = Some (Js.js "test-key")
  /\ Js.status
       (Route.POST (Fixtures.scripted (replicate 0 Fixtures.CAPACITY_429
                                        ++ [Fixtures.BAD_REQUEST_400]))
          Fixtures.HALF Fixtures.INIT_ERROR Fixtures.TEST_ENV Fixtures.HI_REQUEST).1
     = 400%Z.
Proof.
  split; [reflexivity|].
  apply (other_upstream_error_is_returned_at_once
           (Fixtures.scripted (replicate 0 Fixtures.CAPACITY_429 ++ [Fixtures.BAD_REQUEST_400]))
           Fixtures.HALF Fixtures.INIT_ERROR Fixtures.TEST_ENV Fixtures.HI_PAYLOAD
           (Js.js "test-key") 0 (Js.js "mistral-large-latest")
           {| Route.res_status := 400;
              Route.res_data :=
                Some [Js.jsq "{'object':'error','message':'bad request'}"] |}
           eq_refl ltac:(discriminate) eq_refl).
  - intros tr req H. inversion H.
  - intros tr req H. apply (scripted_at 0 _ tr req H).
  - reflexivity.
  - reflexivity.
  - split; discriminate.
  - reflexivity.
Defined.

(** ** The page: one call of [send] at a time *)

Section PageFacts.
Import Js Page.

Variable abort_message : jsstring.

Abbreviation step := (step abort_message).
Abbreviation run := (run abort_message).
Abbreviation reachable := (reachable abort_message).
Abbreviation unblock := (unblock abort_message).

Lemma is_abort_abort_error : is_abort (abort_error abort_message) = true.
Proof. reflexivity. Qed.

Lemma is_abort_by_name (err : thrown) :
  t_name err = Some (js "AbortError") -> is_abort err = true.
Proof. intros H. unfold is_abort. rewrite H. reflexivity. Qed.

Lemma is_abort_by_message (err : thrown) :
  regex_test_ci (js "aborted") (message_or_empty err) = true -> is_abort err = true.
Proof.
  intros H. unfold is_abort. rewrite H.
  destruct (t_name err) as [n|]; [destruct (jsstring_eqb n _)|]; reflexivity.
Qed.

Lemma append_delta_ends_with_assistant (delta : jsstring) (curr : list Msg) :
  ends_with_assistant curr -> ends_with_assistant (append_delta delta curr).
Proof.
  intros (front & l & -> & Hl). rewrite append_delta_snoc, Hl. simpl.
  exists front, {| role := Assistant; content := content l ++ delta |}.
  split; reflexivity.
Qed.

Lemma process_line_ends_with_assistant (line : jsstring) (curr curr' : list Msg) :
  process_line line curr = Some curr' ->
  ends_with_assistant curr -> ends_with_assistant curr'.
Proof.
  unfold process_line. intros H Hc.
  destruct (negb _); [injection H as <-; exact Hc|].
  destruct (_ || _); [injection H as <-; exact Hc|].
  destruct (Sse.delta_of_payload _) as [| |delta|v].
  - injection H as <-. exact Hc.
  - injection H as <-. exact Hc.
  - injection H as <-. apply append_delta_ends_with_assistant, Hc.
  - destruct (append_value_Some _ _ _ H) as [->|[text ->]];
      [exact Hc | apply append_delta_ends_with_assistant, Hc].
Qed.

Lemma drain_ends_with_assistant (buffer : jsstring) (curr : list Msg)
    (buffer' : jsstring) (curr' : list Msg) :
  drain buffer curr = Some (buffer', curr') ->
  ends_with_assistant curr -> ends_with_assistant curr'.
Proof.
  remember (length buffer) as n eqn:Hn.
  revert buffer curr Hn. induction n as [n IH] using lt_wf_ind.
  intros buffer curr Hn. rewrite drain_unfold.
  destruct (indexOf LF buffer) as [idx|] eqn:E.
  - destruct (process_line _ curr) as [c1|] eqn:Ep; simpl; [|discriminate].
    intros H Hc. apply indexOf_lt in E.
    eapply (IH (length (slice_from (S idx) buffer))); [| reflexivity | exact H |].
    + unfold slice_from. rewrite length_drop. lia.
    + eapply process_line_ends_with_assistant; eassumption.
  - intros [= <- <-] Hc. exact Hc.
Qed.

(** The updater of the [catch] keeps, and extends, what the assistant has
    said so far. *)
Lemma surface_error_snoc (err : thrown) (front : list Msg) (l : Msg) :
  role l = Assistant ->
  surface_error err (front ++ [l])
    = front ++ [ {| role := Assistant;
                    content := content l ++ [LF; LF] ++ WARNING_SIGN ++ message_or_string err |} ].
Proof.
  intros Hl. unfold surface_error. rewrite last_snoc, Hl. simpl.
  apply set_last_snoc.
Qed.

Lemma preserved_refl (curr : list Msg) : preserved curr curr.
Proof. intros i m Hi Hr. exists m. split; [exact Hi|]. split; [exact Hr | reflexivity]. Qed.

Lemma preserved_trans (a b c : list Msg) : preserved a b -> preserved b c -> preserved a c.
Proof.
  intros Hab Hbc i m Hi Hr.
  destruct (Hab i m Hi Hr) as (m1 & H1 & Hr1 & Hp1).
  destruct (Hbc i m1 H1 Hr1) as (m2 & H2 & Hr2 & Hp2).
  exists m2. split; [exact H2|]. split; [exact Hr2 | etrans; eassumption].
Qed.

Lemma preserved_surface_error (err : thrown) (curr : list Msg) :
  preserved curr (surface_error err curr).
Proof.
  destruct (snoc_cases curr) as [->|(front & l & ->)]; [apply preserved_refl|].
  intros i m Hi Hr. unfold surface_error. rewrite last_snoc, set_last_snoc.
  destruct (decide (i < length front)%nat) as [Hlt|Hge].
  - rewrite lookup_app_l in Hi by exact Hlt. exists m.
    rewrite lookup_app_l by exact Hlt. split; [exact Hi|]. split; [exact Hr | reflexivity].
  - rewrite lookup_app_r in Hi by lia. rewrite lookup_app_r by lia.
    destruct (i - length front)%nat as [|j]; [|discriminate].
    injection Hi as ->. rewrite Hr. simpl. eexists. split; [reflexivity|].
    split; [reflexivity|]. simpl. apply prefix_app_r. reflexivity.
Qed.

Lemma preserved_append_delta (delta : jsstring) (curr : list Msg) :
  preserved curr (append_delta delta curr).
Proof.
  destruct (snoc_cases curr) as [->|(front & l & ->)]; [apply preserved_refl|].
  rewrite append_delta_snoc. destruct (is_assistant (role l)) eqn:E; [|apply preserved_refl].
  intros i m Hi Hr.
  destruct (decide (i < length front)%nat) as [Hlt|Hge].
  - rewrite lookup_app_l in Hi by exact Hlt. exists m.
    rewrite lookup_app_l by exact Hlt. split; [exact Hi|]. split; [exact Hr | reflexivity].
  - rewrite lookup_app_r in Hi by lia. rewrite lookup_app_r by lia.
    destruct (i - length front)%nat as [|j]; [|discriminate].
    injection Hi as ->. eexists. split; [reflexivity|].
    split; [reflexivity|]. simpl. apply prefix_app_r. reflexivity.
Qed.

Lemma consistent_initial : consistent initial.
Proof. apply Idle; [reflexivity | reflexivity | discriminate]. Qed.

Lemma nat_in_fresh (n : nat) (o : option nat) :
  (forall a : nat, o = Some a -> (a < n)%nat) -> nat_in n o = false.
Proof.
  intros H. destruct o as [a|]; [|reflexivity]. simpl.
  apply Nat.eqb_neq. specialize (H a eq_refl). lia.
Qed.

Lemma ends_with_assistant_snoc (front : list Msg) (l : Msg) :
  role l = Assistant -> ends_with_assistant (front ++ [l]).
Proof. intros H. exists front, l. split; [reflexivity | exact H]. Qed.

Lemma ends_with_assistant_placeholder (curr : list Msg) (u : Msg) :
  ends_with_assistant (curr ++ [u; {| role := Assistant; content := [] |}]).
Proof.
  exists (curr ++ [u]), {| role := Assistant; content := [] |}.
  rewrite <- app_assoc. split; reflexivity.
Qed.

Ltac world_cases w :=
  destruct w as [msgs inp mdl pend aref rref ts cr effs]; cbn in *; subst.

(** Every event keeps the page consistent. *)
Lemma step_consistent (l : label) (w w' : world) :
  consistent w -> step l w = Some w' -> consistent w'.
Proof.
  intros Hc Hs. destruct Hc as [Ht Hr Hf | ac Ht Hr Ha Hlt Hp Hm | ac buffer Ht Hr Ha Hlt Hp Hm].
  - (* no call of send is suspended *)
    world_cases w. destruct l; cbn in Hs; try discriminate; try (injection Hs as <-).
    + apply Idle; auto.
    + apply Idle; auto.
    + unfold send_refused, send in *. cbn in *.
      destruct (jsstring_eqb (trim inp) [] || pend) eqn:E; cbn in Hs; injection Hs as <-.
      * apply Idle; auto.
      * unfold Page.unblock. cbn. rewrite (nat_in_fresh cr aref Hf). cbn.
        apply (Fetching _ cr); cbn; auto.
        apply ends_with_assistant_placeholder.
    + apply Idle; cbn; auto. discriminate.
    + apply Idle; cbn; auto. discriminate.
  - (* one call waits for the response, or for its text *)
    destruct Ht as [Ht|Ht]; world_cases w;
      destruct l; cbn in Hs; try discriminate; try (injection Hs as <-).
    + apply (Fetching _ ac); cbn; auto.
    + apply (Fetching _ ac); cbn; auto.
    + unfold send_refused, send in *. cbn in *.
      rewrite !orb_true_r in Hs. cbn in Hs. injection Hs as <-.
      apply (Fetching _ ac); cbn; auto.
    + unfold Page.unblock. cbn. rewrite Nat.eqb_refl. cbn.
      apply Idle; cbn; auto. discriminate.
    + unfold Page.unblock. cbn. rewrite Nat.eqb_refl. cbn.
      apply Idle; cbn; auto. discriminate.
    + destruct (Nat.eqb_spec ac ac0) as [<-|Hne]; cbn in Hs; [|discriminate].
      injection Hs as <-. unfold after_fetch. cbn.
      destruct (negb (ok res) || negb (has_body res)); cbn.
      * apply (Fetching _ ac); cbn; auto.
      * apply (Reading _ ac []); cbn; auto.
    + destruct (Nat.eqb_spec ac ac0) as [<-|Hne]; cbn in Hs; [|discriminate].
      injection Hs as <-. apply Idle; cbn; auto. intros a [= <-]. exact Hlt.
    + apply (Fetching _ ac); cbn; auto.
    + apply (Fetching _ ac); cbn; auto.
    + unfold send_refused, send in *. cbn in *.
      rewrite !orb_true_r in Hs. cbn in Hs. injection Hs as <-.
      apply (Fetching _ ac); cbn; auto.
    + unfold Page.unblock. cbn. rewrite Nat.eqb_refl. cbn.
      apply Idle; cbn; auto. discriminate.
    + unfold Page.unblock. cbn. rewrite Nat.eqb_refl. cbn.
      apply Idle; cbn; auto. discriminate.
    + destruct (Nat.eqb_spec ac ac0) as [<-|Hne]; cbn in Hs; [|discriminate].
      injection Hs as <-. apply Idle; cbn; auto. intros a [= <-]. exact Hlt.
    + destruct (Nat.eqb_spec ac ac0) as [<-|Hne]; cbn in Hs; [|discriminate].
      injection Hs as <-. apply Idle; cbn; auto. intros a [= <-]. exact Hlt.
  - (* one call reads the stream *)
    world_cases w. destruct l; cbn in Hs; try discriminate; try (injection Hs as <-).
    + apply (Reading _ ac buffer); cbn; auto.
    + apply (Reading _ ac buffer); cbn; auto.
    + unfold send_refused, send in *. cbn in *.
      rewrite !orb_true_r in Hs. cbn in Hs. injection Hs as <-.
      apply (Reading _ ac buffer); cbn; auto.
    + unfold Page.unblock. cbn. rewrite Nat.eqb_refl. cbn.
      apply Idle; cbn; auto. discriminate.
    + unfold Page.unblock. cbn. rewrite Nat.eqb_refl. cbn.
      apply Idle; cbn; auto. discriminate.
    + destruct (Nat.eqb_spec ac ac0) as [<-|Hne]; cbn in Hs; [|discriminate].
      destruct r as [text| |err]; cbn in Hs.
      * destruct (drain (buffer ++ text) msgs) as [[b1 c1]|] eqn:E; cbn in Hs; [|discriminate].
        injection Hs as <-. apply (Reading _ ac b1); cbn; auto.
        eapply drain_ends_with_assistant; eassumption.
      * injection Hs as <-. apply Idle; cbn; auto. discriminate.
      * injection Hs as <-. unfold leave_loop, catch.
        destruct (is_abort err); apply Idle; cbn; auto; discriminate.
Qed.

Lemma reachable_consistent (w : world) : reachable w -> consistent w.
Proof.
  intros [ls Hrun]. revert Hrun. generalize consistent_initial. generalize initial.
  induction ls as [|l ls IH]; intros w0 Hc; simpl.
  - intros [= <-]. exact Hc.
  - destruct (step l w0) as [w1|] eqn:E; simpl; [|discriminate].
    apply IH. eapply step_consistent; eassumption.
Qed.

(** The reads of the page that bring chunks are the turns of
    [read_chunks]. *)
Lemma run_chunks (chunks : list jsstring) (w : world) (ac : nat) (buffer : jsstring) :
  tasks w = [AwaitRead ac buffer] ->
  run (map (fun text => ReadResolves ac (Chunk text)) chunks) w
    = '(buffer', curr') ← read_chunks chunks buffer (messages w);
      Some (set_tasks [AwaitRead ac buffer'] (set_messages (fun _ => curr') w)).
Proof.
  revert w buffer. induction chunks as [|text rest IH]; intros w buffer Ht.
  - destruct w; cbn in *; subst; reflexivity.
  - cbn [map Page.run read_chunks]. unfold Page.step. rewrite Ht. cbn.
    rewrite Nat.eqb_refl. cbn.
    destruct (drain (buffer ++ text) (messages w)) as [[b1 c1]|]; cbn; [|reflexivity].
    rewrite (IH _ b1) by reflexivity. cbn.
    destruct (read_chunks rest b1 c1) as [[b2 c2]|]; reflexivity.
Qed.

(** The calls of [send] that a handler unblocks leave the conversation as
    it is: a cancelled read ends the loop by [break], an aborted one by an
    [AbortError], which the [catch] lets pass. *)
Lemma settle_messages (cancelled aborted : option nat) (ts : list task) (w : world) :
  messages (settle abort_message cancelled aborted ts w) = messages w.
Proof.
  revert w. induction ts as [|t ts IH]; intros w; [reflexivity|].
  cbn [settle]. rewrite IH.
  destruct t as [ac|ac|ac buffer]; repeat (destruct (nat_in ac _)); reflexivity.
Qed.

Lemma take_task_awaits_read (ac : nat) (ts : list task) (t : task) (others : list task) :
  take_task (awaits_read ac) ts = Some (t, others) ->
  exists buffer : jsstring, t = AwaitRead ac buffer.
Proof.
  revert t others. induction ts as [|x ts IH]; intros t others; cbn; [discriminate|].
  destruct (awaits_read ac x) eqn:E.
  - intros [= <- <-]. destruct x as [a|a|a b]; cbn in E; try discriminate.
    apply Nat.eqb_eq in E as ->. eauto.
  - destruct (take_task _ ts) as [[f o]|]; cbn; [|discriminate].
    intros [= <- <-]. eapply IH. reflexivity.
Qed.

(** C9: the end of the stream, an exception of [read] and Stop take
    nothing back. After such an event the conversation is as long as before,
    and every assistant message is at its place with its content, or with
    its content followed by the text of the error. *)
Theorem partial_output_is_preserved (l : label) (w w' : world) :
  ends_read_loop l ->
  step l w = Some w' ->
  length (messages w') = length (messages w)
  /\ preserved (messages w) (messages w').
Proof.
  intros Hl Hs. destruct l as [| | | | | | | | |ac r]; try contradiction.
  - (* Stop *)
    cbn in Hs. injection Hs as <-. unfold Page.unblock.
    rewrite settle_messages. split; [reflexivity | apply preserved_refl].
  - cbn in Hs.
    destruct (take_task (awaits_read ac) (tasks w)) as [[t others]|] eqn:E; cbn in Hs;
      [|discriminate].
    destruct (take_task_awaits_read _ _ _ _ E) as [buffer ->].
    destruct r as [text| |err]; [contradiction| |]; cbn in Hs; injection Hs as <-.
    + split; [reflexivity | apply preserved_refl].
    + unfold leave_loop, catch. destruct (is_abort err); cbn.
      * split; [reflexivity | apply preserved_refl].
      * split; [unfold surface_error; apply set_last_length | apply preserved_surface_error].
Qed.

(** The test of the [catch], read off the source: the name is
    [AbortError], or the message holds one of the two alternatives of the
    regular expression, in any mix of upper and lower case. *)
Lemma is_abort_spec (err : thrown) :
  is_abort err = true <->
  t_name err = Some (js "AbortError")
  \/ occurs_ci (js "aborted") (message_or_empty err)
  \/ occurs_ci (js "BodyStreamBuffer was aborted") (message_or_empty err).
Proof.
  unfold is_abort, occurs_ci. rewrite !orb_true_iff, !regex_test_ci_spec.
  assert (match t_name err with
          | Some n => jsstring_eqb n (js "AbortError")
          | None => false
          end = true <-> t_name err = Some (js "AbortError")) as ->.
  { destruct (t_name err) as [n|]; [|split; discriminate].
    rewrite jsstring_eqb_eq. split; [intros ->; reflexivity | intros [= ->]; reflexivity]. }
  tauto.
Qed.

(** C7: every way out of the read loop cancels the reader and clears
    [pending] and the refs. From a state that the page can reach and in which
    a call of [send] reads the stream of controller [ac]: at the end of the
    stream and on Stop the conversation stays as it is and no promise is
    rejected. An exception of [read] is an abort exactly when its name is
    [AbortError] or its message holds "aborted" or "BodyStreamBuffer was
    aborted", in any mix of upper and lower case; the test of the [catch]
    decides this. An abort leaves the conversation as it is; every other
    exception puts a warning sign and its message (or its string, when it has
    no message) at the end of the assistant message that ends the
    conversation. An error with no name and no message is no abort, an error
    whose message is "Request ABORTED by user" is one. *)
Theorem read_loop_exits_release_reader (w : world) (ac : nat) (buffer : jsstring) :
  reachable w ->
  tasks w = [AwaitRead ac buffer] ->
  let released (w' : world) :=
    pending w' = false /\ readerRef w' = None /\ abortRef w' = None /\ tasks w' = [] in
  let aborted (err : thrown) :=
    t_name err = Some (js "AbortError")
    \/ occurs_ci (js "aborted") (message_or_empty err)
    \/ occurs_ci (js "BodyStreamBuffer was aborted") (message_or_empty err) in
  (exists w' : world,
      step (ReadResolves ac Done) w = Some w'
      /\ released w'
      /\ effects w' = effects w ++ [ECancel ac]
      /\ messages w' = messages w)
  /\ (exists w' : world,
        step PressStop w = Some w'
        /\ released w'
        /\ effects w' = effects w ++ [ECancel ac; EAbort ac; ECancel ac]
        /\ messages w' = messages w)
  /\ (forall err : thrown,
        exists w' : world,
          step (ReadResolves ac (ReadError err)) w = Some w'
          /\ released w'
          /\ effects w' = effects w ++ [ECancel ac]
          /\ (aborted err -> messages w' = messages w)
          /\ (~ aborted err ->
              exists (front : list Msg) (l : Msg),
                messages w = front ++ [l]
                /\ role l = Assistant
                /\ messages w'
                   = front ++ [ {| role := Assistant;
                                   content := content l ++ [LF; LF] ++ WARNING_SIGN
                                              ++ message_or_string err |} ]))
  /\ (forall err : thrown, is_abort err = true <-> aborted err)
  /\ (forall (code : option jsstring) (text : jsstring),
        ~ aborted {| t_name := None; t_message := None; t_code := code; t_string := text |}
        /\ aborted {| t_name := Some (js "Error");
                      t_message := Some (js "Request ABORTED by user");
                      t_code := code; t_string := text |}).
Proof.
  intros Hr Ht released aborted.
  destruct (reachable_consistent w Hr) as [Ht' _ _ | a [Ht'|Ht'] _ _ _ _ _ | a b Ht' Hrd Hab _ Hp Hm];
    try (rewrite Ht in Ht'; discriminate).
  rewrite Ht in Ht'. injection Ht' as <- <-.
  destruct w as [msgs inp mdl pend aref rref ts cr effs]; cbn in *; subst.
  subst released. split; [|split; [|split; [|split]]].
  - cbn. rewrite Nat.eqb_refl. cbn. eexists. split; [reflexivity|]. repeat split.
  - unfold Page.unblock. cbn. rewrite Nat.eqb_refl. cbn.
    eexists. split; [reflexivity|]. cbn. repeat split. rewrite <- app_assoc. reflexivity.
  - intros err. cbn. rewrite Nat.eqb_refl. cbn. eexists. split; [reflexivity|].
    pose proof (is_abort_spec err) as Hspec. fold (aborted err) in Hspec.
    unfold leave_loop, catch. destruct (is_abort err) eqn:E; cbn.
    + repeat split. intros Hn. destruct Hn. apply Hspec. reflexivity.
    + repeat split; [intros Ha; apply Hspec in Ha; discriminate|]. intros _.
      destruct Hm as (front & l & -> & Hl). exists front, l.
      split; [reflexivity|]. split; [exact Hl|]. apply surface_error_snoc, Hl.
  - intros err. apply is_abort_spec.
  - intros code text. split.
    + intros Ha. apply is_abort_spec in Ha. discriminate.
    + apply is_abort_spec. reflexivity.
Qed.


End PageFacts.

(** ** The page on the data of its tests *)

Lemma reading_reachable : Page.reachable Fixtures.ABORT_MESSAGE Fixtures.READING.
Proof. exists Fixtures.READING_EVENTS. vm_compute. reflexivity. Qed.

Lemma in_flight_reachable : Page.reachable Fixtures.ABORT_MESSAGE Fixtures.IN_FLIGHT.
Proof. exists Fixtures.IN_FLIGHT_EVENTS. vm_compute. reflexivity. Qed.

(** While the first line has been read: Stop cancels the reader, clears
    [pending] and leaves "Bonjour"; a network error of [read] is no abort, and
    its message is put after "Bonjour". *)
Lemma read_loop_exits_witness :
  Page.tasks Fixtures.READING = [Page.AwaitRead 0 []]
  /\ (exists w' : Page.world,
        Page.step Fixtures.ABORT_MESSAGE Page.PressStop Fixtures.READING = Some w'
        /\ Page.pending w' = false
        /\ Page.readerRef w' = None
        /\ Page.messages w' = Page.messages Fixtures.READING)
  /\ Page.is_abort Fixtures.NETWORK_ERROR = false
  /\ (exists (w' : Page.world) (front : list Page.Msg) (l : Page.Msg),
        Page.step Fixtures.ABORT_MESSAGE
          (Page.ReadResolves 0 (Page.ReadError Fixtures.NETWORK_ERROR)) Fixtures.READING
          = Some w'
        /\ Page.pending w' = false
        /\ Page.readerRef w' = None
        /\ Page.messages Fixtures.READING = front ++ [l]
        /\ Page.messages w'
           = front ++ [ {| Page.role := Page.Assistant;
                           Page.content := Page.content l ++ [Js.LF; Js.LF]
                                           ++ Page.WARNING_SIGN
                                           ++ Js.message_or_string Fixtures.NETWORK_ERROR |} ]).
Proof.
  split; [reflexivity|].
  destruct (read_loop_exits_release_reader Fixtures.ABORT_MESSAGE Fixtures.READING 0 []
              reading_reachable eq_refl)
    as (_ & (w' & Hs & (Hp & Hr & _) & _ & Hm) & Herr & Hspec & _).
  split; [exists w'; repeat split; assumption|].
  split; [reflexivity|].
  destruct (Herr Fixtures.NETWORK_ERROR) as (w2 & Hs2 & (Hp2 & Hr2 & _) & _ & _ & Hsurf).
  destruct Hsurf as (front & l & Hfront & _ & Hm2).
  { intros Ha. apply Hspec in Ha. discriminate. }
  exists w2, front, l. repeat split; assumption.
Defined.



(** An exception of [read] after "Bonjour": the text stays, the error comes
    after it. *)
Lemma partial_output_witness :
  let l := Page.ReadResolves 0 (Page.ReadError Fixtures.NETWORK_ERROR) in
  let w' := default Page.initial (Page.step Fixtures.ABORT_MESSAGE l Fixtures.READING) in
  Page.ends_read_loop l
  /\ Page.step Fixtures.ABORT_MESSAGE l Fixtures.READING = Some w'
  /\ Page.preserved (Page.messages Fixtures.READING) (Page.messages w')
  /\ last (Page.messages Fixtures.READING)
       = Some {| Page.role := Page.Assistant; Page.content := Js.js "Bonjour" |}
  /\ last (Page.messages w')
       = Some {| Page.role := Page.Assistant;
                 Page.content := Js.js "Bonjour" ++ [Js.LF; Js.LF] ++ Page.WARNING_SIGN
                                 ++ Js.js "network error" |}.
Proof.
  cbv zeta. split; [exact I|]. split; [vm_compute; reflexivity|].
  split; [|split; vm_compute; reflexivity].
  apply (partial_output_is_preserved Fixtures.ABORT_MESSAGE
           (Page.ReadResolves 0 (Page.ReadError Fixtures.NETWORK_ERROR))
           Fixtures.READING _ I).
  vm_compute. reflexivity.
Defined.

(** * More on the code *)

(** ** The loops of the handler in closed form *)

Section LoopFacts.
Import Js Route.

Variable axios_post : trace -> upstream_request -> post_result.
Variable Math_random : trace -> Q.
Variable init_error : init_failure -> thrown.
Variable key : jsstring.
Variable msgs : list message.
Variable temp : Q.
Variable caPathUsed : option jsstring.
Variable allowInsecure : bool.

Abbreviation request_for := (request_for key msgs temp).
Abbreviation try_models :=
  (try_models axios_post Math_random init_error key msgs temp caPathUsed allowInsecure).
Abbreviation fallback :=
  (fallback axios_post Math_random init_error key msgs temp caPathUsed allowInsecure).
Abbreviation decisive := (decisive init_error caPathUsed allowInsecure).
Abbreviation conclude := (conclude caPathUsed allowInsecure).
Abbreviation trace_before := (trace_before Math_random key msgs temp).
Abbreviation answer := (answer axios_post Math_random key msgs temp).
Abbreviation decisive_index := (decisive_index axios_post Math_random key msgs temp).
Abbreviation candidates_of preferModel := [preferModel; MEDIUM_MODEL; SMALL_MODEL].

(** The two loops do what the first answer that is not a capacity signal
    decides; without one they end after six requests and the handler answers
    429. *)
Lemma fallback_closed_form (preferModel : jsstring) :
  fallback preferModel
    = let k := decisive_index preferModel in
      if (k <? 6)%nat
      then (conclude (candidates_of preferModel)
              (decisive (answer preferModel k) (asked preferModel k)),
            trace_before preferModel k ++ [Post (request_for (asked preferModel k))])
      else (text_response 429
              (exhausted_text caPathUsed allowInsecure (candidates_of preferModel)),
            trace_before preferModel 6).
Proof.
  unfold Route.fallback, Route.decisive_index. cbn [capacity_run].
  destruct (capacity_signal (answer preferModel 0)) eqn:E0.
  2:{ cbv beta zeta; cbn [Nat.ltb Nat.leb]. rewrite (try_models_first _ _ _ _ _ _ _ _ _ _ _ E0). reflexivity. }
  destruct (capacity_signal (answer preferModel 1)) eqn:E1.
  2:{ cbv beta zeta; cbn [Nat.ltb Nat.leb]. rewrite (try_models_retry _ _ _ _ _ _ _ _ _ _ _ E0 E1). reflexivity. }
  rewrite (try_models_next _ _ _ _ _ _ _ _ _ _ _ E0 E1).
  destruct (capacity_signal (answer preferModel 2)) eqn:E2.
  2:{ cbv beta zeta; cbn [Nat.ltb Nat.leb]. rewrite (try_models_first _ _ _ _ _ _ _ _ _ _ _ E2). reflexivity. }
  destruct (capacity_signal (answer preferModel 3)) eqn:E3.
  2:{ cbv beta zeta; cbn [Nat.ltb Nat.leb]. rewrite (try_models_retry _ _ _ _ _ _ _ _ _ _ _ E2 E3). reflexivity. }
  rewrite (try_models_next _ _ _ _ _ _ _ _ _ _ _ E2 E3).
  destruct (capacity_signal (answer preferModel 4)) eqn:E4.
  2:{ cbv beta zeta; cbn [Nat.ltb Nat.leb]. rewrite (try_models_first _ _ _ _ _ _ _ _ _ _ _ E4). reflexivity. }
  destruct (capacity_signal (answer preferModel 5)) eqn:E5.
  2:{ cbv beta zeta; cbn [Nat.ltb Nat.leb]. rewrite (try_models_retry _ _ _ _ _ _ _ _ _ _ _ E4 E5). reflexivity. }
  rewrite (try_models_next _ _ _ _ _ _ _ _ _ _ _ E4 E5). cbv beta zeta; cbn [Nat.ltb Nat.leb]. reflexivity.
Qed.

End LoopFacts.

(** ** The handler: refusals, failures, bounds *)

Section HandlerEdges.
Import Js Route.

Variable axios_post : trace -> upstream_request -> post_result.
Variable Math_random : trace -> Q.
Variable init_error : init_failure -> thrown.

Abbreviation POST := (POST axios_post Math_random init_error).

Lemma trace_before_6 (key : jsstring) (msgs : list message) (temp : Q) (m : jsstring) :
  let ask := Route.request_for key msgs temp in
  exists tr1 tr2 tr3 : trace,
    tr1 = [Post (ask m)]
    /\ tr2 = tr1 ++ [Sleep (200 + Math_floor (double_mul (Math_random tr1) 200));
                     Post (ask m); Post (ask MEDIUM_MODEL)]
    /\ tr3 = tr2 ++ [Sleep (200 + Math_floor (double_mul (Math_random tr2) 200));
                     Post (ask MEDIUM_MODEL); Post (ask SMALL_MODEL)]
    /\ Route.trace_before Math_random key msgs temp m 6
       = tr3 ++ [Sleep (200 + Math_floor (double_mul (Math_random tr3) 200));
                 Post (ask SMALL_MODEL)].
Proof. do 3 eexists. repeat (split; [reflexivity|]). reflexivity. Qed.

Lemma decisive_index_le (key : jsstring) (msgs : list message) (temp : Q) (m : jsstring) :
  (Route.decisive_index axios_post Math_random key msgs temp m <= 6)%nat.
Proof.
  unfold Route.decisive_index.
  assert (forall count from : nat,
            (capacity_run axios_post Math_random key msgs temp m from count <= count)%nat) as H.
  { induction count as [|count IH]; intros from; cbn [capacity_run]; [lia|].
    destruct (capacity_signal _); [specialize (IH (S from)); lia | lia]. }
  apply H.
Qed.

(** A run of the loops, as a piece of the longest one. *)
Lemma fallback_trace (key : jsstring) (msgs : list message) (temp : Q)
    (ca : option jsstring) (allow : bool) (m : jsstring) :
  let ask := Route.request_for key msgs temp in
  let tr := (fallback axios_post Math_random init_error key msgs temp ca allow m).2 in
  exists (k : nat) (rest : trace),
    (1 <= k <= 6)%nat
    /\ length (posts tr) = k
    /\ Route.trace_before Math_random key msgs temp m 6 = tr ++ rest
    /\ exists front : trace, tr = Post (ask m) :: front.
Proof.
  intros ask tr. subst tr. rewrite fallback_closed_form. cbv zeta.
  pose proof (decisive_index_le key msgs temp m) as Hle.
  destruct (Route.decisive_index axios_post Math_random key msgs temp m)
    as [|[|[|[|[|[|[|k]]]]]]]; [..|lia]; cbn [Nat.ltb Nat.leb fst snd].
  - exists 1%nat. eexists. split; [lia|]. split; [reflexivity|]. split; [reflexivity|].
    eexists; reflexivity.
  - exists 2%nat. eexists. split; [lia|]. split; [reflexivity|]. split; [reflexivity|].
    eexists; reflexivity.
  - exists 3%nat. eexists. split; [lia|]. split; [reflexivity|]. split; [reflexivity|].
    eexists; reflexivity.
  - exists 4%nat. eexists. split; [lia|]. split; [reflexivity|]. split; [reflexivity|].
    eexists; reflexivity.
  - exists 5%nat. eexists. split; [lia|]. split; [reflexivity|]. split; [reflexivity|].
    eexists; reflexivity.
  - exists 6%nat. eexists. split; [lia|]. split; [reflexivity|]. split; [reflexivity|].
    eexists; reflexivity.
  - exists 6%nat, []. split; [lia|]. split; [reflexivity|]. split; [symmetry; apply app_nil_r|].
    eexists; reflexivity.
Qed.

(** X1: the credential is checked first, then the body. Without a
    credential (absent or empty) the handler answers 500 whatever the body,
    also an unreadable one; with a credential and an unreadable body it
    answers 400 with the message of the parser; in both cases it asks the
    upstream nothing. With a credential and a body it always asks, and first
    for the preferred model, which is "mistral-large-latest" when the body
    names none. *)
Theorem upstream_is_asked_iff_configured (e : env) :
  (MISTRAL_API_KEY e = None \/ MISTRAL_API_KEY e = Some [] ->
   forall req : request_json,
     POST e req = (text_response 500 (js "missing MISTRAL_API_KEY"), []))
  /\ (forall (key : jsstring) (err : thrown),
        MISTRAL_API_KEY e = Some key -> key <> [] ->
        POST e (BodyBad err)
          = (text_response 400 (js "Bad request JSON: " ++ message_or_string err), []))
  /\ (forall (key : jsstring) (p : payload),
        MISTRAL_API_KEY e = Some key -> key <> [] ->
        exists rest : trace,
          (POST e (BodyOk p)).2
            = Post (request_of key p (default DEFAULT_MODEL (model p))) :: rest).
Proof.
  split; [|split].
  - intros [H|H] req; unfold Route.POST; rewrite H; reflexivity.
  - intros key err Hk Hne. unfold Route.POST. rewrite Hk.
    destruct key; [contradiction | reflexivity].
  - intros key p Hk Hne. rewrite (POST_with_key _ _ _ e p key Hk Hne).
    destruct (fallback_trace key (filtered p) (default (2 # 10)%Q (temperature p))
                (find_ca e (caCandidates e)) (allow_insecure e) (preferred p))
      as (k & rest & _ & _ & _ & front & Hfront).
    exists front. exact Hfront.
Qed.

(** X2: a run asks the upstream at least once and at most six times and
    sleeps at most three times; its trace is a beginning of the trace of the
    longest run (request, sleep, request for each of the three models), in
    which every sleep is 200 ms and the floor of the product of doubles of
    200 and the value [Math.random] gives at that moment; when [Math.random]
    gives doubles of [0, 1), every sleep lasts at least 200 ms and less than
    400 ms. The product is rounded before its floor is taken: for the double
    nearest to 0.015 the jitter is 3, where the floor of the exact product
    is 2. *)
Theorem handler_trace_is_bounded (e : env) (p : payload) (key : jsstring) :
  MISTRAL_API_KEY e = Some key ->
  key <> [] ->
  (forall tr : trace,
      is_double (Math_random tr) /\ (0 <= Math_random tr)%Q /\ (Math_random tr < 1)%Q) ->
  let tr := (POST e (BodyOk p)).2 in
  let ask := request_of key p in
  (1 <= length (posts tr) <= 6)%nat
  /\ (length tr <= length (posts tr) + 3)%nat
  /\ (exists rest tr1 tr2 tr3 : trace,
        tr1 = [Post (ask (preferred p))]
        /\ tr2 = tr1 ++ [Sleep (200 + Math_floor (double_mul (Math_random tr1) 200));
                         Post (ask (preferred p)); Post (ask MEDIUM_MODEL)]
        /\ tr3 = tr2 ++ [Sleep (200 + Math_floor (double_mul (Math_random tr2) 200));
                         Post (ask MEDIUM_MODEL); Post (ask SMALL_MODEL)]
        /\ tr ++ rest
           = tr3 ++ [Sleep (200 + Math_floor (double_mul (Math_random tr3) 200));
                     Post (ask SMALL_MODEL)])
  /\ (forall ms : Z, Sleep ms ∈ tr -> (200 <= ms < 400)%Z)
  /\ exists r : Q,
       nearest_double (15 # 1000) = Finite r
       /\ is_double r
       /\ Qfloor (r * 200) = 2%Z
       /\ Math_floor (double_mul r 200) = 3%Z.
Proof.
  intros Hk Hne Hrand tr ask. subst tr ask. rewrite (POST_with_key _ _ _ e p key Hk Hne).
  destruct (fallback_trace key (filtered p) (default (2 # 10)%Q (temperature p))
              (find_ca e (caCandidates e)) (allow_insecure e) (preferred p))
    as (k & rest & Hk6 & Hposts & Hfull & _).
  cbv zeta in *.
  set (tr := (fallback axios_post Math_random init_error key (filtered p)
                (default (2 # 10)%Q (temperature p)) (find_ca e (caCandidates e))
                (allow_insecure e) (preferred p)).2) in *.
  destruct (trace_before_6 key (filtered p) (default (2 # 10)%Q (temperature p)) (preferred p))
    as (tr1 & tr2 & tr3 & H1 & H2 & H3 & H6).
  cbv zeta in H6.
  split; [lia|]. split; [|split; [|split]].
  - (* at most three sleeps: the longest trace has six requests and three sleeps *)
    assert (length tr + length rest = 9)%nat as Hlen.
    { rewrite <- length_app, <- Hfull, H6, H3, H2, H1. reflexivity. }
    assert (length (posts tr) + length (posts rest) = 6)%nat as Hp.
    { rewrite <- length_app, <- posts_app, <- Hfull, H6, H3, H2, H1. reflexivity. }
    assert (forall t : trace, (length (posts t) <= length t)%nat) as Hpl.
    { induction t as [|[ms|req] t IH]; simpl; lia. }
    specialize (Hpl rest). lia.
  - exists rest, tr1, tr2, tr3. rewrite <- Hfull. auto.
  - intros ms Hin.
    apply (trace_before_sleeps Math_random key (filtered p)
             (default (2 # 10)%Q (temperature p)) (preferred p) 6 ms Hrand).
    rewrite Hfull. apply elem_of_app. left. exact Hin.
  - exists (1080863910568919 # 72057594037927936).
    split; [vm_compute; reflexivity|]. split; [|split; vm_compute; reflexivity].
    exists (1080863910568919 # 72057594037927936).
    split; [vm_compute; reflexivity | reflexivity].
Qed.

(** X3: a request that fails in transport ends the run. When the answers
    before it were capacity signals and [axios.post] rejects with [err], the
    handler answers 502, the body is "Axios failed: " and the JSON of the
    message, name and code of [err] and of the TLS settings, and no other
    model is tried. *)
Theorem transport_failure_is_502
    (e : env) (p : payload) (key : jsstring) (k : nat) (m : jsstring) (err : thrown) :
  MISTRAL_API_KEY e = Some key ->
  key <> [] ->
  twice [preferred p; MEDIUM_MODEL; SMALL_MODEL] !! k = Some m ->
  (forall (tr : trace) (req : upstream_request),
      (length (posts tr) < k)%nat -> capacity_signal (axios_post tr req) = true) ->
  (forall (tr : trace) (req : upstream_request),
      length (posts tr) = k -> axios_post tr req = Rejected err) ->
  let run := POST e (BodyOk p) in
  status run.1 = 502%Z
  /\ body_of run.1
       = BodyText (js "Axios failed: "
                   ++ JSON_stringify
                        (object_literal
                           [(js "message", Some (JStr (message_or_string err)));
                            (js "name", JStr <$> t_name err);
                            (js "code", JStr <$> t_code err);
                            (js "caPathUsed", JStr <$> find_ca e (caCandidates e));
                            (js "allowInsecure", Some (JBool (allow_insecure e)))]))
  /\ length (posts run.2) = S k
  /\ last (posts run.2) = Some (request_of key p m).
Proof.
  intros Hk Hne Hm Hcap Hrej run. subst run.
  rewrite (POST_with_key _ _ _ e p key Hk Hne).
  assert (k < 6)%nat as Hk6 by (apply lookup_lt_Some in Hm; exact Hm).
  set (trk := trace_before Math_random key (filtered p) (default (2 # 10)%Q (temperature p))
                (preferred p) k).
  assert (length (posts trk) = k) as Hlen.
  { unfold trk. rewrite posts_trace_before, length_map, length_take by lia. simpl. lia. }
  pose proof (Hrej trk (request_of key p m) Hlen) as Hr. unfold request_of in Hr.
  rewrite (fallback_decisive _ _ _ _ _ _ _ _ _ k m Hcap Hm)
    by (fold trk; rewrite Hr; reflexivity).
  fold trk. rewrite Hr.
  cbn [Route.decisive Route.conclude fst snd text_response status body_of].
  split; [reflexivity|]. split; [reflexivity|].
  rewrite posts_app, length_app, Hlen. simpl.
  split; [lia|]. apply last_snoc.
Qed.

(** X4: an upstream status that the [Response] constructor does not take
    is not passed on. When the answer is no success and no capacity signal,
    and its status is outside 200..599 or is 204, 205 or 304 (for which a
    body is not allowed), the constructor throws inside the [try], and the
    handler answers 502 with the "Axios failed: " text of that exception;
    it tries no other model. *)
Theorem refused_status_becomes_502
    (e : env) (p : payload) (key : jsstring) (k : nat) (m : jsstring)
    (res : upstream_response) :
  MISTRAL_API_KEY e = Some key ->
  key <> [] ->
  twice [preferred p; MEDIUM_MODEL; SMALL_MODEL] !! k = Some m ->
  (forall (tr : trace) (req : upstream_request),
      (length (posts tr) < k)%nat -> capacity_signal (axios_post tr req) = true) ->
  (forall (tr : trace) (req : upstream_request),
      length (posts tr) = k -> axios_post tr req = Resolved res) ->
  isSuccess res = false ->
  is429 res = false ->
  (res_status res < 200)%Z \/ (599 < res_status res)%Z
  \/ null_body_status (res_status res) = true ->
  let run := POST e (BodyOk p) in
  status run.1 = 502%Z
  /\ (exists f : init_failure,
        (f = BadStatus \/ f = NullBodyStatus)
        /\ body_of run.1
           = BodyText (js "Axios failed: "
                       ++ JSON_stringify
                            (failure_details (find_ca e (caCandidates e))
                               (allow_insecure e) (init_error f))))
  /\ length (posts run.2) = S k.
Proof.
  intros Hk Hne Hm Hcap Hres Hs H4 Hbad run. subst run.
  rewrite (POST_with_key _ _ _ e p key Hk Hne).
  assert (k < 6)%nat as Hk6 by (apply lookup_lt_Some in Hm; exact Hm).
  set (trk := trace_before Math_random key (filtered p) (default (2 # 10)%Q (temperature p))
                (preferred p) k).
  assert (length (posts trk) = k) as Hlen.
  { unfold trk. rewrite posts_trace_before, length_map, length_take by lia. simpl. lia. }
  pose proof (Hres trk (request_of key p m) Hlen) as Hr. unfold request_of in Hr.
  rewrite (fallback_decisive _ _ _ _ _ _ _ _ _ k m Hcap Hm)
    by (fold trk; rewrite Hr; simpl; rewrite Hs, H4; reflexivity).
  fold trk. rewrite Hr. unfold Route.decisive. rewrite Hs.
  assert (exists f : init_failure,
            (f = BadStatus \/ f = NullBodyStatus)
            /\ respond init_error
                 (BodyText (upstream_error_text (find_ca e (caCandidates e))
                              (allow_insecure e) res m)) (res_status res) []
               = Throw (init_error f)) as (f & Hf & Hrespond).
  { unfold respond, new_Response. cbn [forallb negb].
    destruct ((200 <=? res_status res)%Z && (res_status res <=? 599)%Z) eqn:Hrange; cbn [negb].
    - exists NullBodyStatus. split; [right; reflexivity|].
      apply andb_true_iff in Hrange as [Hlo Hhi].
      apply Z.leb_le in Hlo, Hhi.
      destruct Hbad as [Hb|[Hb|Hb]]; [lia | lia | rewrite Hb; reflexivity].
    - exists BadStatus. split; [left; reflexivity | reflexivity]. }
  rewrite Hrespond. cbn [Route.conclude fst snd text_response status body_of].
  split; [reflexivity|]. split.
  - exists f. split; [exact Hf | reflexivity].
  - rewrite posts_app, length_app, Hlen. simpl. lia.
Qed.

Lemma new_Response_valid (b : body) (st : Z) (hs : list (jsstring * jsstring))
    (r : response) :
  new_Response b st hs = inr r ->
  status r = st /\ body_of r = b /\ (200 <= st <= 599)%Z /\ null_body_status st = false.
Proof.
  unfold new_Response.
  destruct ((200 <=? st)%Z && (st <=? 599)%Z) eqn:Hrange; cbn [negb]; [|discriminate].
  destruct (forallb _ hs); cbn [negb]; [|discriminate].
  destruct (null_body_status st) eqn:Hn; [discriminate|].
  intros [= <-]. apply andb_true_iff in Hrange as [Hlo Hhi].
  apply Z.leb_le in Hlo, Hhi. cbn. auto.
Qed.

(** X5: the handler never answers with a status that a response cannot
    have: whatever the environment, the body and the upstream do, the status
    of its answer is in 200..599 and is not one that forbids a body (204,
    205, 304); it is 200 only when the answer is the stream of an upstream
    success. *)
Theorem handler_status_is_valid (e : env) (req : request_json) :
  let r := (POST e req).1 in
  (200 <= status r <= 599)%Z
  /\ null_body_status (status r) = false
  /\ (forall chunks : list jsstring, body_of r = BodyStream chunks -> status r = 200%Z).
Proof.
  assert (forall (st : Z) (text : jsstring),
            (200 <= st <= 599)%Z -> null_body_status st = false ->
            (200 <= status (text_response st text) <= 599)%Z
            /\ null_body_status (status (text_response st text)) = false
            /\ (forall chunks : list jsstring,
                  body_of (text_response st text) = BodyStream chunks ->
                  status (text_response st text) = 200%Z)) as Htext.
  { intros st text Hr Hn. cbn. repeat split; try lia; try assumption. discriminate. }
  assert (forall (o : outcome) (ca : option jsstring) (allow : bool) (cands : list jsstring),
            (forall r : response, o = Return r ->
               (200 <= status r <= 599)%Z /\ null_body_status (status r) = false
               /\ (forall chunks, body_of r = BodyStream chunks -> status r = 200%Z)) ->
            let r := Route.conclude ca allow cands o in
            (200 <= status r <= 599)%Z /\ null_body_status (status r) = false
            /\ (forall chunks, body_of r = BodyStream chunks -> status r = 200%Z)) as Hconclude.
  { intros [r| |] ca allow cands Hret; cbn [Route.conclude].
    - apply Hret. reflexivity.
    - apply Htext; [lia | reflexivity].
    - apply Htext; [lia | reflexivity]. }
  assert (forall (r0 : post_result) (ca : option jsstring) (allow : bool) (m : jsstring)
                 (r : response),
            Route.decisive init_error ca allow r0 m = Return r ->
            (200 <= status r <= 599)%Z /\ null_body_status (status r) = false
            /\ (forall chunks, body_of r = BodyStream chunks -> status r = 200%Z)) as Hdecisive.
  { intros [res|err] ca allow m r; unfold Route.decisive, respond; [|discriminate].
    destruct (isSuccess res).
    - destruct (new_Response (BodyStream (default [] (res_data res))) 200
                  (success_headers ca m)) as [f|r'] eqn:E; [discriminate|].
      intros [= <-]. apply new_Response_valid in E as (Hst & Hb & Hr & Hn).
      rewrite Hst. repeat split; try lia.
    - destruct (new_Response (BodyText (upstream_error_text ca allow res m))
                  (res_status res) []) as [f|r'] eqn:E; [discriminate|].
      intros [= <-]. apply new_Response_valid in E as (Hst & Hb & Hr & Hn).
      rewrite Hst, Hb. repeat split; try lia; try assumption. discriminate. }
  cbv zeta. unfold Route.POST.
  destruct (MISTRAL_API_KEY e) as [[|c key]|];
    [apply Htext; [lia | reflexivity] | | apply Htext; [lia | reflexivity]].
  destruct req as [p|err]; [|apply Htext; [lia | reflexivity]].
  cbv zeta. rewrite fallback_closed_form. cbv zeta.
  destruct (_ <? 6)%nat; cbn [fst].
  - apply Hconclude. intros r. apply Hdecisive.
  - apply Htext; [lia | reflexivity].
Qed.

(** X6: a success is answered with the model that succeeded. When the
    answers before the request number [k] were capacity signals and that
    request, for the model [m], succeeds, the handler answers 200 with the
    upstream stream as body, the content type of an event stream, and the
    header [X-Model-Used] equal to [m] stripped of HTTP white space at its
    ends, as the [Headers] of the response keep it, provided [m] and the CA
    path can be header values; it asks nothing more. The header is [m] itself
    when [m] neither starts nor ends with HTTP white space, as the two
    fallback models do; for the model " my-model " of a request it is
    "my-model", which is not the model that was asked. *)
Theorem success_names_the_model_that_answered
    (e : env) (p : payload) (key : jsstring) (k : nat) (m : jsstring)
    (res : upstream_response) :
  MISTRAL_API_KEY e = Some key ->
  key <> [] ->
  twice [preferred p; MEDIUM_MODEL; SMALL_MODEL] !! k = Some m ->
  (forall (tr : trace) (req : upstream_request),
      (length (posts tr) < k)%nat -> capacity_signal (axios_post tr req) = true) ->
  (forall (tr : trace) (req : upstream_request),
      length (posts tr) = k -> axios_post tr req = Resolved res) ->
  isSuccess res = true ->
  header_value_ok m = true ->
  ca_header_ok (find_ca e (caCandidates e)) ->
  let run := POST e (BodyOk p) in
  status run.1 = 200%Z
  /\ body_of run.1 = BodyStream (default [] (res_data res))
  /\ headers_get (js "X-Model-Used") (headers run.1) = Some (normalize_header_value m)
  /\ headers_get (js "content-type") (headers run.1)
       = Some (js "text/event-stream; charset=utf-8")
  /\ length (posts run.2) = S k
  /\ last (posts run.2) = Some (request_of key p m)
  /\ ((forall c : code_unit, head m = Some c -> is_http_whitespace c = false) ->
      (forall c : code_unit, last m = Some c -> is_http_whitespace c = false) ->
      headers_get (js "X-Model-Used") (headers run.1) = Some m)
  /\ normalize_header_value MEDIUM_MODEL = MEDIUM_MODEL
  /\ normalize_header_value SMALL_MODEL = SMALL_MODEL
  /\ header_value_ok (js " my-model ") = true
  /\ normalize_header_value (js " my-model ") = js "my-model".
Proof.
  intros Hk Hne Hm Hcap Hres Hs Hhdr Hca run. subst run.
  rewrite (POST_with_key _ _ _ e p key Hk Hne).
  assert (k < 6)%nat as Hk6 by (apply lookup_lt_Some in Hm; exact Hm).
  set (trk := trace_before Math_random key (filtered p) (default (2 # 10)%Q (temperature p))
                (preferred p) k).
  assert (length (posts trk) = k) as Hlen.
  { unfold trk. rewrite posts_trace_before, length_map, length_take by lia. simpl. lia. }
  pose proof (Hres trk (request_of key p m) Hlen) as Hr. unfold request_of in Hr.
  rewrite (fallback_decisive _ _ _ _ _ _ _ _ _ k m Hcap Hm)
    by (fold trk; rewrite Hr; simpl; rewrite Hs; reflexivity).
  fold trk. rewrite Hr. unfold Route.decisive. rewrite Hs.
  unfold respond, new_Response, success_headers.
  assert (forallb (fun h : jsstring * jsstring => header_value_ok h.2)
            ([(js "Content-Type", js "text/event-stream; charset=utf-8");
              (js "Cache-Control", js "no-cache, no-transform");
              (js "Connection", js "keep-alive"); (js "X-Model-Used", m)]
             ++ match find_ca e (caCandidates e) with
                | Some (c :: q) => [(js "X-CA-Used", c :: q)]
                | _ => []
                end) = true) as ->.
  { rewrite forallb_app. apply andb_true_iff. split.
    - cbn [forallb snd]. rewrite Hhdr. reflexivity.
    - unfold ca_header_ok in Hca. destruct (find_ca e (caCandidates e)) as [[|c q]|];
        try reflexivity.
      cbn [forallb snd]. rewrite Hca. reflexivity. }
  cbn [negb Z.leb Z.compare andb null_body_status Z.eqb orb Route.conclude fst snd
       status body_of headers].
  split; [reflexivity|]. split; [reflexivity|]. split; [reflexivity|].
  split; [reflexivity|].
  rewrite posts_app, length_app, Hlen. simpl.
  split; [lia|]. split; [apply last_snoc|].
  split; [|repeat split; vm_compute; reflexivity].
  intros Hh Hl. rewrite (normalize_header_value_id m Hh Hl). reflexivity.
Qed.

(** X7: the requests of one run differ in the model only. Each carries the
    filtered messages, the temperature of the body or 0.2 when it has none,
    [stream] and [safe_prompt] set, and the credential as a bearer token; the
    model is the preferred one or one of the two fallbacks. *)
Theorem requests_differ_in_model_only (e : env) (p : payload) (r : upstream_request) :
  r ∈ posts (POST e (BodyOk p)).2 ->
  req_messages r = List.filter keep_message (default [] (messages p))
  /\ req_temperature r = default (2 # 10)%Q (temperature p)
  /\ req_stream r = true
  /\ req_safe_prompt r = true
  /\ (exists key : jsstring,
        MISTRAL_API_KEY e = Some key /\ req_authorization r = js "Bearer " ++ key)
  /\ (req_model r = default DEFAULT_MODEL (model p)
      \/ req_model r = MEDIUM_MODEL \/ req_model r = SMALL_MODEL).
Proof.
  unfold Route.POST.
  destruct (MISTRAL_API_KEY e) as [[|c key]|] eqn:Hk; simpl;
    try (intros H; inversion H; fail).
  intros H.
  destruct (fallback_requests axios_post Math_random init_error (c :: key) (filtered p)
              (default (2 # 10)%Q (temperature p)) (find_ca e (caCandidates e))
              (allow_insecure e) (preferred p)) as (models & Hp & Hpre).
  fold (filtered p) (preferred p) in H. rewrite Hp in H.
  apply list_elem_of_fmap in H as (m & -> & Hin).
  cbn [request_for req_messages req_temperature req_stream req_safe_prompt
       req_authorization req_model].
  repeat split.
  - exists (c :: key). split; reflexivity.
  - destruct Hpre as [tl Htl].
    assert (m ∈ twice [preferred p; MEDIUM_MODEL; SMALL_MODEL]) as Hm.
    { rewrite Htl. apply elem_of_app. left. exact Hin. }
    unfold twice in Hm. cbn in Hm.
    repeat (apply elem_of_cons in Hm as [->|Hm]); auto. inversion Hm.
Qed.

End HandlerEdges.

(** ** The handler: what it reads before the loops *)

Section HandlerInputs.
Import Js Route.

Lemma find_ca_Some (e : env) (paths : list jsstring) (p : jsstring) :
  find_ca e paths = Some p <->
  exists before after : list jsstring,
    paths = before ++ p :: after
    /\ readable e p
    /\ forall q : jsstring, q ∈ before -> ~ readable e q.
Proof.
  unfold readable. induction paths as [|x paths IH]; cbn [find_ca].
  - split; [discriminate|]. intros (before & after & H & _). destruct before; discriminate.
  - destruct (fs_existsSync e x) eqn:Ex; [destruct (fs_readFileSync e x) as [bytes|] eqn:Er|].
    + split.
      * intros [= <-]. exists [], paths. split; [reflexivity|]. split.
        -- rewrite Ex, Er. split; [reflexivity | discriminate].
        -- intros q Hq. inversion Hq.
      * intros (before & after & H & Hp & Hb). destruct before as [|y before].
        -- injection H as -> _. reflexivity.
        -- injection H as <- _. exfalso. apply (Hb x); [left|].
           rewrite Ex, Er. split; [reflexivity | discriminate].
    + rewrite IH. split.
      * intros (before & after & -> & Hp & Hb). exists (x :: before), after.
        split; [reflexivity|]. split; [exact Hp|].
        intros q Hq. apply elem_of_cons in Hq as [->|Hq]; [|apply Hb, Hq].
        rewrite Er. intros [_ H]. apply H. reflexivity.
      * intros (before & after & H & Hp & Hb). destruct before as [|y before].
        -- injection H as -> _. rewrite Er in Hp. destruct Hp as [_ Hp]. contradiction.
        -- injection H as <- ->. exists before, after. split; [reflexivity|].
           split; [exact Hp|]. intros q Hq. apply Hb. right. exact Hq.
    + rewrite IH. split.
      * intros (before & after & -> & Hp & Hb). exists (x :: before), after.
        split; [reflexivity|]. split; [exact Hp|].
        intros q Hq. apply elem_of_cons in Hq as [->|Hq]; [|apply Hb, Hq].
        rewrite Ex. intros [H _]. discriminate.
      * intros (before & after & H & Hp & Hb). destruct before as [|y before].
        -- injection H as -> _. rewrite Ex in Hp. destruct Hp as [Hp _]. discriminate.
        -- injection H as <- ->. exists before, after. split; [reflexivity|].
           split; [exact Hp|]. intros q Hq. apply Hb. right. exact Hq.
Qed.

Lemma find_ca_None (e : env) (paths : list jsstring) :
  find_ca e paths = None <-> forall q : jsstring, q ∈ paths -> ~ readable e q.
Proof.
  unfold readable. induction paths as [|x paths IH]; cbn [find_ca].
  - split; [intros _ q Hq; inversion Hq | reflexivity].
  - destruct (fs_existsSync e x) eqn:Ex; [destruct (fs_readFileSync e x) as [bytes|] eqn:Er|].
    + split; [discriminate|]. intros H. exfalso. apply (H x); [left|].
      rewrite Ex, Er. split; [reflexivity | discriminate].
    + rewrite IH. split.
      * intros H q Hq. apply elem_of_cons in Hq as [->|Hq]; [|apply H, Hq].
        rewrite Er. intros [_ Hr]. apply Hr. reflexivity.
      * intros H q Hq. apply H. right. exact Hq.
    + rewrite IH. split.
      * intros H q Hq. apply elem_of_cons in Hq as [->|Hq]; [|apply H, Hq].
        rewrite Ex. intros [Hr _]. discriminate.
      * intros H q Hq. apply H. right. exact Hq.
Qed.

(** X8: the CA bundle is the first candidate that exists and can be read.
    [caPathUsed] is a path [p] exactly when [p] is readable and every
    candidate before it is not; there is none exactly when no candidate is
    readable; a readable file named by NODE_EXTRA_CA_CERTS wins over the
    six fixed paths; an empty NODE_EXTRA_CA_CERTS is not a candidate. *)
Theorem ca_bundle_is_first_readable (e : env) :
  (forall p : jsstring,
      find_ca e (caCandidates e) = Some p <->
      exists before after : list jsstring,
        caCandidates e = before ++ p :: after
        /\ readable e p
        /\ forall q : jsstring, q ∈ before -> ~ readable e q)
  /\ (find_ca e (caCandidates e) = None <->
      forall q : jsstring, q ∈ caCandidates e -> ~ readable e q)
  /\ (forall v : jsstring,
        NODE_EXTRA_CA_CERTS e = Some v -> v <> [] -> readable e v ->
        find_ca e (caCandidates e) = Some v)
  /\ ([] ∉ caCandidates e)
  /\ (6 <= length (caCandidates e) <= 7)%nat.
Proof.
  split; [intros p; apply find_ca_Some|]. split; [apply find_ca_None|]. split; [|split].
  - intros v Hv Hne Hr. apply find_ca_Some. exists [].
    unfold caCandidates. rewrite Hv. destruct v as [|c v]; [contradiction|].
    eexists. split; [reflexivity|]. split; [exact Hr|]. intros q Hq. inversion Hq.
  - unfold caCandidates. intros H. apply elem_of_app in H as [H|H].
    + destruct (NODE_EXTRA_CA_CERTS e) as [[|c v]|]; inversion H; subst;
        try discriminate; match goal with H' : _ ∈ [] |- _ => inversion H' end.
    + repeat (apply elem_of_cons in H as [H|H]; [discriminate|]). inversion H.
  - unfold caCandidates. rewrite length_app.
    destruct (NODE_EXTRA_CA_CERTS e) as [[|c v]|]; simpl; lia.
Qed.

(** X9: the filter of the handler drops the empty assistant messages and
    nothing else. A message is dropped exactly when its role is "assistant",
    its content is absent, empty or white space, and it has no tool call; the
    messages that stay keep their order; every message of another role
    stays; filtering again changes nothing. *)
Theorem filter_drops_exactly_empty_assistants :
  (forall m : message, keep_message m = false <-> empty_assistant m)
  /\ (forall incoming : list message,
        List.filter keep_message incoming `sublist_of` incoming)
  /\ (forall (incoming : list message) (m : message),
        m ∈ incoming -> role m <> js "assistant" ->
        m ∈ List.filter keep_message incoming)
  /\ (forall incoming : list message,
        List.filter keep_message (List.filter keep_message incoming)
          = List.filter keep_message incoming).
Proof.
  split; [|split; [|split]].
  - intros m. split; [|apply empty_assistant_dropped].
    unfold keep_message, blank_content, no_tool_calls, empty_assistant.
    intros H. apply negb_false_iff in H.
    apply andb_true_iff in H as [H Ht]. apply andb_true_iff in H as [Hr Hc].
    apply jsstring_eqb_eq in Hr. split; [exact Hr|]. split.
    + intros s Hs. rewrite Hs in Hc. destruct s as [|c s]; [reflexivity|].
      apply jsstring_eqb_eq in Hc. exact Hc.
    + intros calls Hcalls. rewrite Hcalls in Ht. destruct calls; [reflexivity | discriminate].
  - induction incoming as [|x l IH]; cbn [List.filter]; [reflexivity|].
    destruct (keep_message x); [apply sublist_skip | apply sublist_cons]; exact IH.
  - intros incoming m Hin Hr. apply list_elem_of_In, filter_In.
    split; [apply list_elem_of_In, Hin|].
    unfold keep_message.
    destruct (jsstring_eqb (role m) (js "assistant")) eqn:E; [|reflexivity].
    apply jsstring_eqb_eq in E. contradiction.
  - induction incoming as [|x l IH]; cbn [List.filter]; [reflexivity|].
    destruct (keep_message x) eqn:E; [|exact IH].
    cbn [List.filter]. rewrite E, IH. reflexivity.
Qed.

(** X10: what counts as a capacity error. A response is classified so
    exactly when its status is 429 or its error body, the chunks put
    together, holds "service_tier_capacity_exceeded" somewhere, in any mix of
    upper and lower case; the status does not matter then. *)
Theorem capacity_pattern_in_any_case (res : upstream_response) :
  is429 res = true <->
  res_status res = 429%Z
  \/ exists pre mid post : jsstring,
       errText res = pre ++ mid ++ post
       /\ map ascii_upper mid = map ascii_upper (js "service_tier_capacity_exceeded").
Proof.
  unfold is429. rewrite orb_true_iff, Z.eqb_eq, regex_test_ci_spec. reflexivity.
Qed.

End HandlerInputs.

(** ** The handler on more upstreams of the test kind *)

Lemma handler_trace_witness :
  let tr :=
    (Route.POST
       (Fixtures.scripted (replicate 2 Fixtures.CAPACITY_429 ++ [Fixtures.SUCCESS_200]))
       Fixtures.HALF Fixtures.INIT_ERROR Fixtures.TEST_ENV Fixtures.HI_REQUEST).2 in
  Route.MISTRAL_API_KEY Fixtures.TEST_ENV = Some (Js.js "test-key")
  /\ (1 <= length (Route.posts tr) <= 6)%nat
  /\ (forall ms : Z, Route.Sleep ms ∈ tr -> (200 <= ms < 400)%Z)
  /\ (Route.Sleep 300 ∈ tr).
Proof.
  cbv zeta. split; [reflexivity|].
  destruct (handler_trace_is_bounded
              (Fixtures.scripted (replicate 2 Fixtures.CAPACITY_429 ++ [Fixtures.SUCCESS_200]))
              Fixtures.HALF Fixtures.INIT_ERROR Fixtures.TEST_ENV Fixtures.HI_PAYLOAD
              (Js.js "test-key") eq_refl ltac:(discriminate) half_is_random)
    as (Hp & _ & _ & Hms & _).
  split; [exact Hp|]. split; [exact Hms|].
  vm_compute. apply list_elem_of_further, list_elem_of_here.
Defined.

Lemma transport_failure_witness :
  Route.MISTRAL_API_KEY Fixtures.TEST_ENV = Some (Js.js "test-key")
  /\ Js.status
       (Route.POST
          (Fixtures.scripted (replicate 1 Fixtures.CAPACITY_429
                              ++ [Route.Rejected Fixtures.NETWORK_ERROR]))
          Fixtures.HALF Fixtures.INIT_ERROR Fixtures.TEST_ENV Fixtures.HI_REQUEST).1
     = 502%Z.
Proof.
  split; [reflexivity|].
  apply (transport_failure_is_502
           (Fixtures.scripted (replicate 1 Fixtures.CAPACITY_429
                               ++ [Route.Rejected Fixtures.NETWORK_ERROR]))
           Fixtures.HALF Fixtures.INIT_ERROR Fixtures.TEST_ENV Fixtures.HI_PAYLOAD
           (Js.js "test-key") 1 (Js.js "mistral-large-latest") Fixtures.NETWORK_ERROR
           eq_refl ltac:(discriminate) eq_refl).
  - intros tr req H. apply scripted_capacity. exact H.
  - intros tr req H. apply (scripted_at 1 _ tr req H).
Defined.

Lemma refused_status_witness :
  Route.MISTRAL_API_KEY Fixtures.TEST_ENV = Some (Js.js "test-key")
  /\ Js.status
       (Route.POST
          (Fixtures.scripted (replicate 0 Fixtures.CAPACITY_429 ++ [Fixtures.NOT_MODIFIED_304]))
          Fixtures.HALF Fixtures.INIT_ERROR Fixtures.TEST_ENV Fixtures.HI_REQUEST).1
     = 502%Z.
Proof.
  split; [reflexivity|].
  apply (refused_status_becomes_502
           (Fixtures.scripted (replicate 0 Fixtures.CAPACITY_429 ++ [Fixtures.NOT_MODIFIED_304]))
           Fixtures.HALF Fixtures.INIT_ERROR Fixtures.TEST_ENV Fixtures.HI_PAYLOAD
           (Js.js "test-key") 0 (Js.js "mistral-large-latest")
           {| Route.res_status := 304; Route.res_data := Some [] |}
           eq_refl ltac:(discriminate) eq_refl).
  - intros tr req H. inversion H.
  - intros tr req H. apply (scripted_at 0 _ tr req H).
  - reflexivity.
  - reflexivity.
  - right. right. reflexivity.
Defined.

Lemma success_names_the_model_witness :
  Route.MISTRAL_API_KEY Fixtures.TEST_ENV = Some (Js.js "test-key")
  /\ Js.headers_get (Js.js "X-Model-Used")
       (Js.headers
          (Route.POST
             (Fixtures.scripted (replicate 5 Fixtures.CAPACITY_429 ++ [Fixtures.SUCCESS_200]))
             Fixtures.HALF Fixtures.INIT_ERROR Fixtures.TEST_ENV Fixtures.HI_REQUEST).1)
     = Some (Js.js "mistral-small-latest").
Proof.
  split; [reflexivity|].
  refine (proj1 (proj2 (proj2 (success_names_the_model_that_answered
           (Fixtures.scripted (replicate 5 Fixtures.CAPACITY_429 ++ [Fixtures.SUCCESS_200]))
           Fixtures.HALF Fixtures.INIT_ERROR Fixtures.TEST_ENV Fixtures.HI_PAYLOAD
           (Js.js "test-key") 5 (Js.js "mistral-small-latest")
           {| Route.res_status := 200;
              Route.res_data :=
                Some [Js.jsq "data: {'choices':[{'delta':{'content':'OK'}}]}" ++ [Js.LF];
                      Js.js "data: [DONE]" ++ [Js.LF]] |}
           eq_refl ltac:(discriminate) eq_refl _ _ eq_refl eq_refl I)))).
  - intros tr req H. apply scripted_capacity. exact H.
  - intros tr req H. apply (scripted_at 5 _ tr req H).
Defined.

Lemma requests_differ_witness :
  let run :=
    Route.POST (Fixtures.scripted [Fixtures.CAPACITY_429; Fixtures.SUCCESS_200])
      Fixtures.HALF Fixtures.INIT_ERROR Fixtures.TEST_ENV Fixtures.HI_REQUEST in
  let r := Route.request_of (Js.js "test-key") Fixtures.HI_PAYLOAD
             (Js.js "mistral-large-latest") in
  Route.posts run.2 = [r; r]
  /\ Route.req_safe_prompt r = true.
Proof.
  cbv zeta. split; [vm_compute; reflexivity|].
  apply (requests_differ_in_model_only
           (Fixtures.scripted [Fixtures.CAPACITY_429; Fixtures.SUCCESS_200])
           Fixtures.HALF Fixtures.INIT_ERROR Fixtures.TEST_ENV Fixtures.HI_PAYLOAD).
  vm_compute. left.
Defined.

(** ** The page: the conversation and the requests *)

Section PageInvariants.
Import Js Page.

Variable abort_message : jsstring.

Abbreviation step := (step abort_message).
Abbreviation run := (run abort_message).
Abbreviation reachable := (reachable abort_message).

Lemma list_pair_ind (P : list Msg -> Prop) :
  P [] -> (forall x, P [x]) -> (forall x y l, P l -> P (x :: y :: l)) -> forall l, P l.
Proof.
  intros H0 H1 H2 l. enough (P l /\ forall x, P (x :: l)) as [H _] by exact H.
  induction l as [|y l [IH1 IH2]]; [split; [exact H0 | exact H1]|].
  split; [apply IH2|]. intros x. apply H2, IH1.
Qed.

Lemma turns_app (a b : list Msg) : turns a -> turns b -> turns (a ++ b).
Proof.
  induction a as [|x|x y l IH] using list_pair_ind; cbn; [tauto | tauto |].
  intros (? & ? & ? & ?) Hb. auto.
Qed.

Lemma turns_set_last (m : Msg) (curr : list Msg) :
  role m = Assistant -> turns curr -> turns (set_last m curr).
Proof.
  intros Hm. induction curr as [|x|x y l IH] using list_pair_ind; [auto | cbn; tauto |].
  intros (Hu & Hn & Ha & Hl). destruct l as [|z l'].
  - cbn. auto.
  - change (set_last m (x :: y :: z :: l')) with (x :: y :: set_last m (z :: l')).
    cbn [turns]. auto.
Qed.

Lemma turns_append_delta (delta : jsstring) (curr : list Msg) :
  turns curr -> turns (append_delta delta curr).
Proof.
  intros H. unfold append_delta. destruct (last curr) as [l|]; [|exact H].
  destruct (is_assistant (role l)); [apply turns_set_last; [reflexivity | exact H] | exact H].
Qed.

Lemma turns_process_line (line : jsstring) (curr curr' : list Msg) :
  process_line line curr = Some curr' -> turns curr -> turns curr'.
Proof.
  unfold process_line. intros H Hc.
  destruct (negb _); [injection H as <-; exact Hc|].
  destruct (_ || _); [injection H as <-; exact Hc|].
  destruct (Sse.delta_of_payload _) as [| |delta|v].
  - injection H as <-. exact Hc.
  - injection H as <-. exact Hc.
  - injection H as <-. apply turns_append_delta, Hc.
  - destruct (append_value_Some _ _ _ H) as [->|[text ->]];
      [exact Hc | apply turns_append_delta, Hc].
Qed.

Lemma turns_drain (buffer : jsstring) (curr : list Msg)
    (buffer' : jsstring) (curr' : list Msg) :
  drain buffer curr = Some (buffer', curr') -> turns curr -> turns curr'.
Proof.
  remember (length buffer) as n eqn:Hn.
  revert buffer curr Hn. induction n as [n IH] using lt_wf_ind.
  intros buffer curr Hn. rewrite drain_unfold.
  destruct (indexOf LF buffer) as [idx|] eqn:E.
  - destruct (process_line _ curr) as [c1|] eqn:Ep; simpl; [|discriminate].
    intros H Hc. apply indexOf_lt in E.
    eapply (IH (length (slice_from (S idx) buffer))); [| reflexivity | exact H |].
    + unfold slice_from. rewrite length_drop. lia.
    + eapply turns_process_line; eassumption.
  - intros [= <- <-] Hc. exact Hc.
Qed.

Lemma step_turns (l : label) (w w' : world) :
  step l w = Some w' -> turns (messages w) -> turns (messages w').
Proof.
  intros Hs Ht. unfold Page.step in Hs.
  destruct l as [text|m| | | |ac res|ac|ac errText|ac|ac r].
  - injection Hs as <-. exact Ht.
  - injection Hs as <-. exact Ht.
  - unfold send_refused, send in Hs.
    destruct (jsstring_eqb (trim (input w)) [] || pending w) eqn:E; injection Hs as <-;
      [exact Ht|].
    unfold Page.unblock. rewrite settle_messages. cbn [messages set_tasks].
    apply turns_app; [exact Ht|]. apply orb_false_iff in E as [E _].
    cbn. repeat split. intros H. rewrite H in E. discriminate.
  - injection Hs as <-. unfold Page.unblock. rewrite settle_messages. exact Ht.
  - injection Hs as <-. unfold Page.unblock. rewrite settle_messages. exact I.
  - destruct (take_task _ _) as [[t others]|]; cbn in Hs; [|discriminate].
    injection Hs as <-. unfold after_fetch. destruct (_ || _); exact Ht.
  - destruct (take_task _ _) as [[t others]|]; cbn in Hs; [|discriminate].
    injection Hs as <-. exact Ht.
  - destruct (take_task _ _) as [[t others]|]; cbn in Hs; [|discriminate].
    injection Hs as <-. cbn. apply turns_set_last; [reflexivity | exact Ht].
  - destruct (take_task _ _) as [[t others]|]; cbn in Hs; [|discriminate].
    injection Hs as <-. exact Ht.
  - destruct (take_task _ _) as [[t others]|]; cbn in Hs; [|discriminate].
    destruct t as [a|a|a buffer]; try discriminate.
    destruct r as [text| |err]; cbn in Hs.
    + destruct (drain _ _) as [[b1 c1]|] eqn:E; cbn in Hs; [|discriminate].
      injection Hs as <-. cbn. eapply turns_drain; [exact E | exact Ht].
    + injection Hs as <-. exact Ht.
    + injection Hs as <-. unfold leave_loop, catch. destruct (is_abort err); cbn; [exact Ht|].
      unfold surface_error. apply turns_set_last; [reflexivity | exact Ht].
Qed.

Lemma turns_roles (curr : list Msg) :
  turns curr ->
  forall (i : nat) (m : Msg),
    curr !! i = Some m -> role m = if Nat.even i then User else Assistant.
Proof.
  induction curr as [|x|x y l IH] using list_pair_ind; [intros _ i m [=] | intros [] |].
  intros (Hu & _ & Ha & Hl) i m. destruct i as [|[|i]].
  - intros [= <-]. exact Hu.
  - intros [= <-]. exact Ha.
  - intros H. change (Nat.even (S (S i))) with (Nat.even i). apply (IH Hl i m H).
Qed.

(** X11: the conversation of the page is made of turns. In every state
    that the page can reach the messages come in pairs, a user message whose
    content is not blank and then an assistant message: the messages at the
    even places are the user's, the others the assistant's, and no message
    has the role [system]. *)
Theorem conversation_is_made_of_turns (w : world) :
  reachable w ->
  turns (messages w)
  /\ Nat.Even (length (messages w))
  /\ forall (i : nat) (m : Msg),
       messages w !! i = Some m ->
       role m = (if Nat.even i then User else Assistant) /\ role m <> System.
Proof.
  intros [ls Hrun].
  assert (turns (messages w)) as Ht.
  { revert Hrun. assert (turns (messages initial)) as H0 by exact I.
    revert H0. generalize initial.
    induction ls as [|l ls IH]; intros w0 H0; simpl.
    - intros [= <-]. exact H0.
    - destruct (Page.step abort_message l w0) as [w1|] eqn:E; simpl; [|discriminate].
      apply IH. eapply step_turns; eassumption. }
  split; [exact Ht|]. split.
  - clear Hrun. induction (messages w) as [|x|x y l IH] using list_pair_ind.
    + exists 0%nat. reflexivity.
    + destruct Ht.
    + destruct Ht as (_ & _ & _ & Hl). destruct (IH Hl) as [k Hk].
      exists (S k). cbn [length]. lia.
  - intros i m Hi. rewrite (turns_roles _ Ht i m Hi).
    destruct (Nat.even i); split; [reflexivity | discriminate | reflexivity | discriminate].
Qed.

Lemma fetch_ids_app (a b : list effect) : fetch_ids (a ++ b) = fetch_ids a ++ fetch_ids b.
Proof.
  induction a as [|[ac|ac body|r|ac] a IH]; cbn; rewrite ?IH; reflexivity.
Qed.

Lemma about_latest_app (latest : option nat) (a b : list effect) :
  about_latest latest (a ++ b)
  <-> about_latest latest a
      /\ about_latest (match last (fetch_ids a) with
                       | Some ac => Some ac
                       | None => latest
                       end) b.
Proof.
  revert latest. induction a as [|[ac|ac body|r|ac] a IH]; intros latest; cbn [app about_latest fetch_ids].
  - cbn. tauto.
  - rewrite IH. tauto.
  - rewrite IH, last_cons. destruct (last (fetch_ids a)); tauto.
  - rewrite IH. tauto.
  - rewrite IH. tauto.
Qed.

Lemma last_seq (n : nat) : last (seq 0 (S n)) = Some n.
Proof. rewrite seq_S. apply last_snoc. Qed.

Lemma about_latest_concerns (a : nat) (es : list effect) :
  Forall (concerns a) es -> about_latest (Some a) es /\ fetch_ids es = [].
Proof.
  induction 1 as [|ef es [Hid Hf] _ [IH1 IH2]]; [split; [exact I | reflexivity]|].
  destruct ef as [ac|ac body|r|ac]; cbn in *; try discriminate; subst; auto.
Qed.

Ltac world_fields w :=
  destruct w as [msgs inp mdl pend aref rref ts cr effs]; cbn in *; subst.

Tactic Notation "quiet" constr(es) :=
  left; cbn; split; [reflexivity|]; split; [auto|]; exists es;
  split; [rewrite <- ?app_assoc, ?app_nil_r; reflexivity|];
  first [ left; reflexivity
        | right; eexists; split; [reflexivity|]; repeat constructor ].

(** The effects of one event: nothing, or effects about the controller in
    [abortRef]; a call of [send] that passes the guard aborts that controller
    and makes a request with a new one. *)
Lemma step_effects (l : label) (w w' : world) :
  consistent w -> step l w = Some w' ->
  (created w' = created w
   /\ (abortRef w' = abortRef w \/ abortRef w' = None)
   /\ exists es : list effect,
        effects w' = effects w ++ es
        /\ (es = [] \/ exists a : nat, abortRef w = Some a /\ Forall (concerns a) es))
  \/ (l = PressSend /\ send_refused w = false
      /\ created w' = S (created w) /\ abortRef w' = Some (created w)
      /\ exists b : api_body,
           effects w' = effects w
                        ++ match abortRef w with
                           | Some old => [EAbort old]
                           | None => []
                           end
                        ++ [EFetch (created w) b]).
Proof.
  intros Hc Hs.
  destruct Hc as [Ht Hr Hf | ac Ht Hr Ha Hlt Hp Hm | ac buffer Ht Hr Ha Hlt Hp Hm].
  - world_fields w. destruct l; cbn in Hs; try discriminate; try (injection Hs as <-).
    + quiet (@nil effect).
    + quiet (@nil effect).
    + unfold send_refused, send in *. cbn in *.
      destruct (jsstring_eqb (trim inp) [] || pend) eqn:E; cbn in Hs; injection Hs as <-.
      * quiet (@nil effect).
      * right. unfold Page.unblock. cbn. rewrite (nat_in_fresh cr aref Hf). cbn.
        repeat split. eexists. reflexivity.
    + unfold Page.unblock. cbn. destruct aref as [a|].
      * quiet [EAbort a].
      * quiet (@nil effect).
    + unfold Page.unblock. cbn. destruct aref as [a|].
      * quiet [EAbort a].
      * quiet (@nil effect).
  - destruct Ht as [Ht|Ht]; world_fields w;
      destruct l; cbn in Hs; try discriminate; try (injection Hs as <-);
      try (quiet (@nil effect); fail).
    + unfold send_refused, send in *. cbn in *.
      rewrite !orb_true_r in Hs. cbn in Hs. injection Hs as <-.
      quiet (@nil effect).
    + unfold Page.unblock. cbn. rewrite Nat.eqb_refl. cbn.
      quiet [EAbort ac; EUnhandled ac].
    + unfold Page.unblock. cbn. rewrite Nat.eqb_refl. cbn.
      quiet [EAbort ac; EUnhandled ac].
    + destruct (Nat.eqb_spec ac ac0) as [<-|Hne]; cbn in Hs; [|discriminate].
      injection Hs as <-. unfold after_fetch. cbn.
      destruct (negb (ok res) || negb (has_body res)); cbn;
        quiet (@nil effect).
    + destruct (Nat.eqb_spec ac ac0) as [<-|Hne]; cbn in Hs; [|discriminate].
      injection Hs as <-. quiet [EUnhandled ac].
    + unfold send_refused, send in *. cbn in *.
      rewrite !orb_true_r in Hs. cbn in Hs. injection Hs as <-.
      quiet (@nil effect).
    + unfold Page.unblock. cbn. rewrite Nat.eqb_refl. cbn.
      quiet [EAbort ac; EUnhandled ac].
    + unfold Page.unblock. cbn. rewrite Nat.eqb_refl. cbn.
      quiet [EAbort ac; EUnhandled ac].
    + destruct (Nat.eqb_spec ac ac0) as [<-|Hne]; cbn in Hs; [|discriminate].
      injection Hs as <-. quiet (@nil effect).
    + destruct (Nat.eqb_spec ac ac0) as [<-|Hne]; cbn in Hs; [|discriminate].
      injection Hs as <-. quiet [EUnhandled ac].
  - world_fields w. destruct l; cbn in Hs; try discriminate; try (injection Hs as <-);
      try (quiet (@nil effect); fail).
    + unfold send_refused, send in *. cbn in *.
      rewrite !orb_true_r in Hs. cbn in Hs. injection Hs as <-.
      quiet (@nil effect).
    + unfold Page.unblock. cbn. rewrite Nat.eqb_refl. cbn.
      quiet [ECancel ac; EAbort ac; ECancel ac].
    + unfold Page.unblock. cbn. rewrite Nat.eqb_refl. cbn.
      quiet [ECancel ac; EAbort ac; ECancel ac].
    + destruct (Nat.eqb_spec ac ac0) as [<-|Hne]; cbn in Hs; [|discriminate].
      destruct r as [text| |err]; cbn in Hs.
      * destruct (drain (buffer ++ text) msgs) as [[b1 c1]|] eqn:E; cbn in Hs; [|discriminate].
        injection Hs as <-. quiet (@nil effect).
      * injection Hs as <-. quiet [ECancel ac].
      * injection Hs as <-. unfold leave_loop, catch.
        destruct (is_abort err); quiet [ECancel ac].
Qed.

Lemma step_in_order (l : label) (w w' : world) :
  consistent w -> in_order w -> step l w = Some w' -> in_order w'.
Proof.
  intros Hc (Hf & Hl & Ha) Hs.
  destruct (step_effects l w w' Hc Hs)
    as [(Hcr & Hab & es & He & Hes) | (_ & _ & Hcr & Hab & b & He)].
  - unfold in_order. rewrite He, Hcr, fetch_ids_app, about_latest_app.
    destruct Hes as [->|(a & Hw & Hes)].
    + rewrite app_nil_r. repeat split; auto.
      intros a Hw'. destruct Hab as [Hab|Hab]; rewrite Hab in Hw'; [auto | discriminate].
    + apply about_latest_concerns in Hes as [Hes1 Hes2].
      rewrite Hes2, app_nil_r, Hf, (Ha a Hw), last_seq.
      repeat split; auto.
      intros a' Hw'. destruct Hab as [Hab|Hab]; rewrite Hab in Hw'; [|discriminate].
      rewrite <- (Ha a Hw). auto.
  - unfold in_order. rewrite He, Hcr, Hab, !fetch_ids_app, !about_latest_app, Hf.
    split; [|split].
    + rewrite seq_S. destruct (abortRef w); reflexivity.
    + split; [exact Hl|]. destruct (abortRef w) as [a|] eqn:Hw; cbn.
      * rewrite (Ha a eq_refl), last_seq. auto.
      * auto.
    + intros a [= <-]. reflexivity.
Qed.

Lemma reachable_in_order (w : world) : reachable w -> in_order w.
Proof.
  intros [ls Hrun]. revert Hrun.
  assert (in_order initial) as H0 by (repeat split; discriminate).
  revert H0. generalize (consistent_initial). generalize initial.
  induction ls as [|l ls IH]; intros w0 Hc H0; simpl.
  - intros [= <-]. exact H0.
  - destruct (Page.step abort_message l w0) as [w1|] eqn:E; simpl; [|discriminate].
    apply IH; [eapply step_consistent | eapply step_in_order]; eassumption.
Qed.

(** X12: the page deals with one request at a time. In every state that
    the page can reach the requests made so far have the controllers
    0, 1, 2, ... in this order, one for each call of [send] that passed the
    guard; every abort, every cancelled reader and every rejection that
    nothing handles is about the request made last before it; and
    [abortRef] holds no controller but that of the last request. *)
Theorem effects_are_about_the_latest_request (w : world) :
  reachable w ->
  fetch_ids (effects w) = seq 0 (created w)
  /\ about_latest None (effects w)
  /\ (forall a : nat, abortRef w = Some a -> created w = S a)
  /\ (forall a : nat, readerRef w = Some a -> created w = S a)
  /\ (forall t : task, t ∈ tasks w -> created w = S (task_controller t)).
Proof.
  intros Hr. destruct (reachable_in_order w Hr) as (Hf & Hl & Ha).
  split; [exact Hf|]. split; [exact Hl|]. split; [exact Ha|].
  destruct (reachable_consistent abort_message w Hr)
    as [Ht Hrd _ | ac Ht Hrd Hab _ _ _ | ac b Ht Hrd Hab _ _ _].
  - rewrite Ht, Hrd. split; [discriminate|]. intros t Hin. inversion Hin.
  - rewrite Hrd. split; [discriminate|]. intros t Hin.
    destruct Ht as [Ht|Ht]; rewrite Ht in Hin; apply list_elem_of_singleton in Hin as ->;
      apply Ha, Hab.
  - rewrite Hrd, Ht. split; [intros a [= <-]; apply Ha, Hab|].
    intros t Hin. apply list_elem_of_singleton in Hin as ->. apply Ha, Hab.
Qed.

(** X13: Stop puts the page at rest from wherever it is. The call of
    [send] that is suspended, if any, runs to its end, [pending] and the refs
    are cleared, and the conversation, the input and the model stay. A call
    that waits for the response or for its text is outside the [try]: its
    promise is rejected and nothing handles the rejection. Stop at rest does
    nothing. *)
Theorem stop_puts_the_page_at_rest (w : world) :
  reachable w ->
  exists w' : world,
    step PressStop w = Some w'
    /\ at_rest w'
    /\ messages w' = messages w /\ input w' = input w /\ model w' = model w
    /\ (forall ac : nat,
          tasks w = [AwaitFetch ac] \/ tasks w = [AwaitText ac] ->
          effects w' = effects w ++ [EAbort ac; EUnhandled ac])
    /\ (tasks w = [] ->
        effects w' = effects w ++ match abortRef w with
                                  | Some a => [EAbort a]
                                  | None => []
                                  end)
    /\ step PressStop w' = Some w'.
Proof.
  intros Hr.
  destruct (reachable_consistent abort_message w Hr)
    as [Ht Hrd Hf | ac Ht Hrd Hab Hlt Hp Hm | ac b Ht Hrd Hab Hlt Hp Hm].
  - world_fields w. unfold Page.unblock. cbn. eexists. split; [reflexivity|]. cbn.
    split; [repeat split|]. split; [reflexivity|]. split; [reflexivity|]. split; [reflexivity|].
    split; [intros ac [H|H]; discriminate|]. split; [reflexivity|].
    unfold Page.unblock, stop, set_tasks. cbn. rewrite ?app_nil_r. reflexivity.
  - destruct Ht as [Ht|Ht]; world_fields w; unfold Page.unblock; cbn;
      rewrite Nat.eqb_refl; cbn; (eexists; split; [reflexivity|]); cbn;
      (split; [repeat split|]); (split; [reflexivity|]); (split; [reflexivity|]);
      (split; [reflexivity|]);
      (split; [intros a [[= <-]|[= <-]]; rewrite <- app_assoc; reflexivity|]);
      (split; [discriminate|]); unfold Page.unblock, stop, set_tasks; cbn; rewrite ?app_nil_r; reflexivity.
  - world_fields w. unfold Page.unblock. cbn. rewrite Nat.eqb_refl. cbn.
    eexists. split; [reflexivity|]. cbn.
    split; [repeat split|]. split; [reflexivity|]. split; [reflexivity|]. split; [reflexivity|].
    split; [intros a [H|H]; discriminate|]. split; [discriminate|].
    unfold Page.unblock, stop, set_tasks. cbn. rewrite ?app_nil_r. reflexivity.
Qed.

(** X14: Reset does what Stop does and empties the conversation and the
    input; after it Send has nothing to send. *)
Theorem reset_empties_the_page (w : world) :
  reachable w ->
  exists w' w0 : world,
    step PressReset w = Some w'
    /\ step PressStop w = Some w0
    /\ w' = set_input [] (set_messages (fun _ => []) w0)
    /\ at_rest w'
    /\ messages w' = [] /\ input w' = [] /\ model w' = model w
    /\ step PressSend w' = Some w'.
Proof.
  intros Hr.
  destruct (reachable_consistent abort_message w Hr)
    as [Ht Hrd Hf | ac Ht Hrd Hab Hlt Hp Hm | ac b Ht Hrd Hab Hlt Hp Hm].
  - world_fields w. unfold Page.unblock. cbn. eexists. eexists.
    split; [reflexivity|]. split; [reflexivity|]. cbn. repeat split.
  - destruct Ht as [Ht|Ht]; world_fields w; unfold Page.unblock; cbn;
      rewrite Nat.eqb_refl; cbn; eexists; eexists;
      (split; [reflexivity|]); (split; [reflexivity|]); cbn; repeat split.
  - world_fields w. unfold Page.unblock. cbn. rewrite Nat.eqb_refl. cbn.
    eexists. eexists. split; [reflexivity|]. split; [reflexivity|]. cbn. repeat split.
Qed.

(** X15: a response that is not [ok], or has no body, is shown in place of
    the last message. Its text, after a warning sign, replaces the message
    that ends the conversation; [pending] is cleared and nothing is
    aborted, but [abortRef] keeps the controller of the finished request:
    the next call of [send] that passes the guard aborts it. *)
Theorem error_response_replaces_the_last_message
    (w : world) (ac : nat) (res : fetch_response) (errText : jsstring) :
  reachable w ->
  tasks w = [AwaitFetch ac] ->
  ok res = false \/ has_body res = false ->
  exists (w1 w2 : world) (front : list Msg) (l : Msg),
    step (FetchResolves ac res) w = Some w1
    /\ step (TextResolves ac errText) w1 = Some w2
    /\ messages w1 = messages w /\ tasks w1 = [AwaitText ac] /\ pending w1 = true
    /\ messages w = front ++ [l]
    /\ messages w2 = front ++ [ {| role := Assistant; content := WARNING_SIGN ++ errText |} ]
    /\ tasks w2 = [] /\ pending w2 = false /\ readerRef w2 = None
    /\ abortRef w2 = Some ac
    /\ effects w2 = effects w
    /\ forall text : jsstring,
         trim text <> [] ->
         exists (w3 : world) (b : api_body),
           run [Typing text; PressSend] w2 = Some w3
           /\ effects w3 = effects w ++ [EAbort ac; EFetch (created w) b]
           /\ tasks w3 = [AwaitFetch (created w)].
Proof.
  intros Hr Ht Hres.
  assert (negb (ok res) || negb (has_body res) = true) as Hbad.
  { destruct Hres as [-> | ->]; [reflexivity | apply orb_true_r]. }
  destruct (reachable_consistent abort_message w Hr)
    as [Ht' _ _ | a [Ht'|Ht'] Hrd Hab Hlt Hp Hm | a b Ht' _ _ _ _ _];
    try (rewrite Ht in Ht'; discriminate).
  rewrite Ht in Ht'. injection Ht' as <-.
  destruct Hm as (front & l & Hm & _).
  world_fields w. rewrite ?Nat.eqb_refl. cbn. unfold after_fetch. rewrite Hbad. cbn.
  rewrite ?Nat.eqb_refl. cbn.
  eexists. eexists. exists front, l.
  split; [reflexivity|].
  split; [unfold set_tasks; cbn; rewrite Nat.eqb_refl; cbn; reflexivity|].
  unfold after_text, set_tasks. cbn.
  rewrite set_last_snoc. repeat split.
  intros text Hn. unfold send_refused, send. cbn.
  destruct (jsstring_eqb (trim text) []) eqn:E; [apply jsstring_eqb_eq in E; contradiction|].
  cbn. unfold Page.unblock. cbn.
  assert ((cr =? ac)%nat = false) as -> by (apply Nat.eqb_neq; lia).
  cbn. eexists. eexists. split; [reflexivity|]. cbn. split; reflexivity.
Qed.

Lemma run_while_pending (ls : list label) (v : world) :
  pending v = true -> Forall keeps_going ls ->
  exists v' : world,
    run ls v = Some v'
    /\ pending v' = true /\ messages v' = messages v /\ effects v' = effects v
    /\ tasks v' = tasks v /\ abortRef v' = abortRef v /\ readerRef v' = readerRef v
    /\ created v' = created v.
Proof.
  intros Hp Hls. revert v Hp. induction Hls as [|l ls Hl _ IH]; intros v Hp.
  - exists v. repeat split. exact Hp.
  - destruct l as [text|m| | | | | | | |]; try contradiction; cbn [Page.run Page.step].
    + destruct (IH (set_input text v) Hp) as (v' & Hrun & H). exists v'.
      split; [exact Hrun | exact H].
    + destruct (IH (set_model m v) Hp) as (v' & Hrun & H). exists v'.
      split; [exact Hrun | exact H].
    + unfold send_refused, send. rewrite Hp, orb_true_r. cbn.
      destruct (IH v Hp) as (v' & Hrun & H). exists v'. split; [exact Hrun | exact H].
Qed.

(** X16: a request that fails leaves Send disabled. [await fetch] and
    [await res.text()] are outside the [try]: when one of them rejects, the
    call of [send] ends there, nothing handles the rejection, and [pending]
    stays set. Whatever the user types, selects or sends after that changes
    neither the conversation nor the effects: every call of [send] returns
    at the guard, until Stop (or Reset) clears [pending]. *)
Theorem failed_request_leaves_send_disabled (w w1 : world) (ac : nat) (l : label) :
  reachable w ->
  l = FetchRejects ac \/ l = TextRejects ac ->
  step l w = Some w1 ->
  effects w1 = effects w ++ [EUnhandled ac]
  /\ messages w1 = messages w
  /\ tasks w1 = [] /\ pending w1 = true /\ abortRef w1 = Some ac
  /\ (forall ls : list label,
        Forall keeps_going ls ->
        exists w2 : world,
          run ls w1 = Some w2
          /\ pending w2 = true /\ messages w2 = messages w1 /\ effects w2 = effects w1)
  /\ (exists w3 : world,
        step PressStop w1 = Some w3 /\ at_rest w3
        /\ effects w3 = effects w1 ++ [EAbort ac]).
Proof.
  intros Hr Hl Hs.
  assert (effects w1 = effects w ++ [EUnhandled ac] /\ messages w1 = messages w
          /\ tasks w1 = [] /\ pending w1 = true /\ abortRef w1 = Some ac
          /\ readerRef w1 = None) as (He & Hm & Ht & Hp & Ha & Hrd).
  { destruct (reachable_consistent abort_message w Hr)
      as [Ht Hrd Hf | a Ht Hrd Hab Hlt Hp Hm | a b Ht Hrd Hab Hlt Hp Hm].
    - world_fields w. destruct Hl as [-> | ->]; discriminate.
    - destruct Ht as [Ht|Ht]; world_fields w; destruct Hl as [-> | ->]; cbn in Hs;
        try discriminate;
        (destruct (Nat.eqb_spec a ac) as [->|Hne]; cbn in Hs; [|discriminate]);
        injection Hs as <-; repeat split.
    - world_fields w. destruct Hl as [-> | ->]; discriminate. }
  repeat (split; [assumption|]). split.
  - intros ls Hls. destruct (run_while_pending ls w1 Hp Hls) as (w2 & Hrun & H2 & H3 & H4 & _).
    exists w2. auto.
  - world_fields w1. unfold Page.unblock. cbn. eexists. split; [reflexivity|].
    cbn. repeat split.
Qed.

Lemma run_app (a b : list label) (w : world) :
  run (a ++ b) w = w' ← run a w; run b w'.
Proof.
  revert w. induction a as [|l a IH]; intros w; [reflexivity|].
  cbn [app Page.run]. destruct (Page.step abort_message l w) as [w1|]; [apply IH | reflexivity].
Qed.

(** One exchange, from a state in which Send is not refused. *)
Lemma run_exchange (w : world) (chunks : list jsstring) :
  reachable w ->
  send_refused w = false ->
  run (exchange_events (created w) chunks) w
    = '(_, curr') ← read_chunks chunks []
                      (messages w ++ [ {| role := User; content := input w |};
                                       {| role := Assistant; content := [] |} ]);
      Some {| messages := curr'; input := []; model := model w; pending := false;
              abortRef := None; readerRef := None; tasks := []; created := S (created w);
              effects := effects (send w) ++ [ECancel (created w)] |}.
Proof.
  intros Hr Hg. unfold exchange_events.
  destruct (reachable_consistent abort_message w Hr)
    as [Ht Hrd Hf | a Ht Hrd Hab Hlt Hp Hm | a b Ht Hrd Hab Hlt Hp Hm];
    [| unfold send_refused in Hg; rewrite Hp, orb_true_r in Hg; discriminate
     | unfold send_refused in Hg; rewrite Hp, orb_true_r in Hg; discriminate].
  rewrite run_app.
  assert (run [PressSend; FetchResolves (created w) {| ok := true; has_body := true |}] w
          = Some {| messages := messages (send w); input := []; model := model w;
                    pending := true; abortRef := Some (created w);
                    readerRef := Some (created w);
                    tasks := [AwaitRead (created w) []]; created := S (created w);
                    effects := effects (send w) |}) as ->.
  { world_fields w. unfold send_refused, send in *. cbn in *. rewrite Hg. cbn.
    unfold Page.unblock. cbn. rewrite (nat_in_fresh _ _ Hf). cbn.
    rewrite Nat.eqb_refl. reflexivity. }
  cbn [mbind option_bind].
  rewrite run_app, (run_chunks abort_message chunks _ (created w) []) by reflexivity.
  assert (messages (send w)
          = messages w ++ [ {| role := User; content := input w |};
                            {| role := Assistant; content := [] |} ]) as Hm.
  { unfold send. unfold send_refused in Hg. rewrite Hg. reflexivity. }
  cbn [messages]. rewrite Hm.
  destruct (read_chunks chunks [] _) as [[b1 c1]|]; [|reflexivity].
  cbn. rewrite Nat.eqb_refl. reflexivity.
Qed.

Lemma append_delta_length (delta : jsstring) (curr : list Msg) :
  length (append_delta delta curr) = length curr.
Proof.
  unfold append_delta. destruct (last curr) as [l|]; [|reflexivity].
  destruct (is_assistant (role l)); [apply set_last_length | reflexivity].
Qed.

Lemma process_line_length (line : jsstring) (curr curr' : list Msg) :
  process_line line curr = Some curr' -> length curr' = length curr.
Proof.
  unfold process_line. intros H.
  destruct (negb _); [injection H as <-; reflexivity|].
  destruct (_ || _); [injection H as <-; reflexivity|].
  destruct (Sse.delta_of_payload _) as [| |delta|v].
  - injection H as <-. reflexivity.
  - injection H as <-. reflexivity.
  - injection H as <-. apply append_delta_length.
  - destruct (append_value_Some _ _ _ H) as [->|[text ->]];
      [reflexivity | apply append_delta_length].
Qed.

Lemma drain_length (buffer : jsstring) (curr : list Msg)
    (buffer' : jsstring) (curr' : list Msg) :
  drain buffer curr = Some (buffer', curr') -> length curr' = length curr.
Proof.
  remember (length buffer) as n eqn:Hn.
  revert buffer curr Hn. induction n as [n IH] using lt_wf_ind.
  intros buffer curr Hn. rewrite drain_unfold.
  destruct (indexOf LF buffer) as [idx|] eqn:E.
  - destruct (process_line _ curr) as [c1|] eqn:Ep; simpl; [|discriminate].
    intros H. apply indexOf_lt in E. rewrite <- (process_line_length _ _ _ Ep).
    eapply (IH (length (slice_from (S idx) buffer))); [| reflexivity | exact H].
    unfold slice_from. rewrite length_drop. lia.
  - intros [= <- <-]. reflexivity.
Qed.

Lemma read_chunks_length (chunks : list jsstring) (buffer : jsstring) (curr : list Msg)
    (buffer' : jsstring) (curr' : list Msg) :
  read_chunks chunks buffer curr = Some (buffer', curr') -> length curr' = length curr.
Proof.
  revert buffer curr. induction chunks as [|text rest IH]; intros buffer curr; cbn.
  - intros [= <- <-]. reflexivity.
  - destruct (drain (buffer ++ text) curr) as [[b1 c1]|] eqn:E; cbn; [|discriminate].
    intros H. rewrite (IH _ _ H). eapply drain_length. exact E.
Qed.

End PageInvariants.

(** ** Lines: lib/sse.ts and the read loop of the page *)

Section LineFacts.
Import Js Page.

Lemma trimStart_head (c : code_unit) (s : jsstring) :
  is_js_whitespace c = false -> trimStart (c :: s) = c :: s.
Proof. intros H. cbn. rewrite H. reflexivity. Qed.

(** What comes after a text that starts with a code unit that is not
    white space is not touched by [trimStart]. *)
Lemma trimStart_app_kept (a : jsstring) (c : code_unit) (b : jsstring) :
  is_js_whitespace c = false -> trimStart (a ++ c :: b) = trimStart a ++ c :: b.
Proof.
  intros H. induction a as [|x a IH]; cbn.
  - rewrite H. reflexivity.
  - destruct (is_js_whitespace x); [exact IH | reflexivity].
Qed.

Lemma trimStart_cases (s : jsstring) :
  (trimStart s = [] /\ forall t : jsstring, trimStart (s ++ t) = trimStart t)
  \/ exists (ws : jsstring) (c : code_unit) (r : jsstring),
       s = ws ++ c :: r /\ is_js_whitespace c = false /\ trimStart s = c :: r
       /\ forall t : jsstring, trimStart (ws ++ t) = trimStart t.
Proof.
  induction s as [|x s IH].
  - left. split; reflexivity.
  - destruct (is_js_whitespace x) eqn:E.
    + destruct IH as [[H1 H2]|(ws & c & r & -> & Hc & H1 & H2)].
      * left. cbn. rewrite E. split; [exact H1 | exact H2].
      * right. exists (x :: ws), c, r. cbn. rewrite E. repeat split; auto.
    + right. exists [], x, s. cbn. rewrite E. repeat split.
Qed.

Lemma trimStart_idemp (s : jsstring) : trimStart (trimStart s) = trimStart s.
Proof.
  induction s as [|x s IH]; [reflexivity|]. cbn.
  destruct (is_js_whitespace x) eqn:E; [exact IH|]. cbn. rewrite E. reflexivity.
Qed.

(** [trimEnd] leaves alone what ends before a code unit that is not white
    space. *)
Lemma trimEnd_app_kept (p : jsstring) (c : code_unit) (r : jsstring) :
  is_js_whitespace c = false -> trimEnd (p ++ c :: r) = p ++ c :: trimEnd r.
Proof.
  intros H. unfold trimEnd.
  rewrite rev_app_distr. cbn [rev]. rewrite <- app_assoc. cbn [app].
  rewrite trimStart_app_kept by exact H.
  rewrite rev_app_distr. cbn [rev]. rewrite rev_involutive, <- app_assoc. reflexivity.
Qed.

Lemma trimEnd_nil : trimEnd [] = [].
Proof. reflexivity. Qed.

Lemma trimEnd_idemp (s : jsstring) : trimEnd (trimEnd s) = trimEnd s.
Proof. unfold trimEnd. rewrite rev_involutive, trimStart_idemp. reflexivity. Qed.

Lemma trimEnd_all_ws (s : jsstring) : trimStart s = [] -> trimEnd s = [].
Proof.
  intros H. unfold trimEnd.
  enough (trimStart (rev s) = []) as -> by reflexivity.
  induction s as [|x s IH]; [reflexivity|]. cbn in H.
  destruct (is_js_whitespace x) eqn:E; [|discriminate]. cbn [rev].
  destruct (trimStart_cases (rev s)) as [[_ H2]|(ws & c & r & _ & _ & H1 & _)].
  - rewrite H2. cbn. rewrite E. reflexivity.
  - rewrite (IH H) in H1. discriminate.
Qed.

(** The two halves of [trim] commute. *)
Lemma trimStart_trimEnd (s : jsstring) : trimStart (trimEnd s) = trimEnd (trimStart s).
Proof.
  destruct (trimStart_cases s) as [[H1 _]|(ws & c & r & -> & Hc & H1 & H2)].
  - rewrite H1, (trimEnd_all_ws s H1). reflexivity.
  - rewrite H1, (trimEnd_app_kept ws c r Hc), H2, (trimStart_head c _ Hc).
    symmetry. apply (trimEnd_app_kept [] c r Hc).
Qed.

Lemma trim_trimEnd (s : jsstring) : trim (trimEnd s) = trim s.
Proof. unfold trim. rewrite trimStart_trimEnd, trimEnd_idemp. reflexivity. Qed.

(** [trimEnd] gives the start of its argument. *)
Lemma trimEnd_prefix (s : jsstring) : trimEnd s `prefix_of` s.
Proof.
  unfold trimEnd.
  assert (forall t : jsstring, exists ws : jsstring, t = ws ++ trimStart t) as H.
  { induction t as [|x t [ws IH]]; [exists []; reflexivity|]. cbn.
    destruct (is_js_whitespace x); [exists (x :: ws); cbn; f_equal; exact IH | exists []; reflexivity]. }
  destruct (H (rev s)) as [ws Hws]. exists (rev ws).
  rewrite <- rev_app_distr, <- Hws, rev_involutive. reflexivity.
Qed.

Lemma startsWith_prefix (s p : jsstring) : startsWith s p = true <-> p `prefix_of` s.
Proof.
  revert s. induction p as [|x p IH]; intros s; cbn.
  - split; [intros _; apply prefix_nil | intros _; destruct s; reflexivity].
  - destruct s as [|y s]; [split; [discriminate | intros [k Hk]; discriminate]|].
    cbn. rewrite andb_true_iff, N.eqb_eq, IH. split.
    + intros [-> Hp]. apply prefix_cons, Hp.
    + intros [k Hk]. injection Hk as <- ->. split; [reflexivity | exists k; reflexivity].
Qed.

(** A line that starts with the marker does so after [trim], and its
    payload is the same. *)
Lemma trim_data_line (r : jsstring) :
  trim (Sse.DATA_MARKER ++ r) = Sse.DATA_MARKER ++ trimEnd r.
Proof.
  unfold trim. change (Sse.DATA_MARKER ++ r) with (100 :: 97 :: 116 :: 97 :: 58 :: r).
  rewrite (trimStart_head 100) by reflexivity.
  change (100 :: 97 :: 116 :: 97 :: 58 :: r) with ([100; 97; 116; 97] ++ 58 :: r).
  rewrite trimEnd_app_kept by reflexivity. reflexivity.
Qed.

Lemma startsWith_data_inv (l : jsstring) :
  startsWith l Sse.DATA_MARKER = true -> l = Sse.DATA_MARKER ++ slice_from 5 l.
Proof.
  intros H. apply startsWith_prefix in H as [k ->]. reflexivity.
Qed.

Lemma startsWith_trim (l : jsstring) :
  startsWith (trim l) Sse.DATA_MARKER = startsWith (trimStart l) Sse.DATA_MARKER.
Proof.
  unfold trim. destruct (startsWith (trimStart l) Sse.DATA_MARKER) eqn:E.
  - rewrite (startsWith_data_inv _ E).
    change (Sse.DATA_MARKER ++ slice_from 5 (trimStart l))
      with ([100; 97; 116; 97] ++ 58 :: slice_from 5 (trimStart l)).
    rewrite trimEnd_app_kept by reflexivity.
    apply startsWith_prefix. eexists. reflexivity.
  - destruct (startsWith (trimEnd (trimStart l)) Sse.DATA_MARKER) eqn:E2; [|reflexivity].
    apply startsWith_prefix in E2.
    assert (startsWith (trimStart l) Sse.DATA_MARKER = true) as H.
    { apply startsWith_prefix. etrans; [exact E2 | apply trimEnd_prefix]. }
    congruence.
Qed.

Lemma split_lines_aux_app (acc a b : jsstring) :
  split_lines_aux acc (a ++ LF :: b) = split_lines_aux acc a ++ split_lines b.
Proof.
  revert acc. induction a as [|c a IH]; intros acc; cbn.
  - reflexivity.
  - destruct (c =? LF); [rewrite IH; reflexivity | apply IH].
Qed.

(** The pieces of a text with a line feed in it are the pieces before it
    and the pieces after it. *)
Lemma split_lines_app (a b : jsstring) :
  split_lines (a ++ LF :: b) = split_lines a ++ split_lines b.
Proof. apply split_lines_aux_app. Qed.

Lemma split_lines_aux_no_lf (acc s : jsstring) :
  LF ∉ s -> split_lines_aux acc s = [rev acc ++ s].
Proof.
  revert acc. induction s as [|c s IH]; intros acc H; cbn.
  - rewrite app_nil_r. reflexivity.
  - apply not_elem_of_cons in H as [Hne H].
    destruct (N.eqb_spec c LF) as [->|_]; [congruence|].
    rewrite (IH _ H). cbn. rewrite <- app_assoc. reflexivity.
Qed.

Lemma split_lines_no_lf (s : jsstring) : LF ∉ s -> split_lines s = [s].
Proof. apply (split_lines_aux_no_lf []). Qed.

Lemma collect_app (l1 l2 : list jsstring) :
  Sse.collect (l1 ++ l2) = Sse.collect l1 ++ Sse.collect l2.
Proof.
  induction l1 as [|l l1 IH]; cbn; [reflexivity|]. rewrite IH, app_assoc. reflexivity.
Qed.

(** What lib/sse.ts pushes is truthy. *)
Lemma fragment_of_line_truthy (line : jsstring) :
  Forall (fun v => truthy v = true) (Sse.fragment_of_line line).
Proof.
  unfold Sse.fragment_of_line, Sse.delta_of_payload.
  destruct (negb _); [constructor|].
  destruct (_ || _); [constructor|].
  destruct (JSON_parse _) as [obj|]; [|constructor].
  destruct (Sse.delta_path obj) as [[| b | lex | [|c s] | items | members]|];
    try (destruct (truthy _) eqn:E); repeat constructor; exact E.
Qed.

Lemma collect_truthy (lines : list jsstring) :
  Forall (fun v => truthy v = true) (Sse.collect lines).
Proof.
  induction lines as [|l lines IH]; cbn; [constructor|].
  apply Forall_app. split; [apply fragment_of_line_truthy | exact IH].
Qed.

(** The inner loop on a buffer that ends with a line feed handles the lines
    of the text before it, in order, and leaves the buffer empty. *)
Lemma drain_lines (text : jsstring) (curr : list Msg) :
  drain (text ++ [LF]) curr
    = curr' ← process_lines (split_lines text) curr; Some ([], curr').
Proof.
  remember (length text) as n eqn:Hn.
  revert text curr Hn. induction n as [n IH] using lt_wf_ind.
  intros text curr Hn.
  destruct (indexOf LF text) as [idx|] eqn:E.
  - destruct (indexOf_Some _ _ _ E) as [Hnot Heq].
    pose proof (indexOf_lt _ _ _ E) as Hlt.
    rewrite drain_unfold, (indexOf_app_l _ _ [LF] _ E).
    unfold slice_to, slice_from. rewrite take_app_le, drop_app_le by lia.
    replace (split_lines text)
      with (split_lines (take idx text ++ LF :: drop (S idx) text))
      by (rewrite <- Heq; reflexivity).
    rewrite split_lines_app, (split_lines_no_lf _ Hnot).
    cbn [app process_lines].
    destruct (process_line _ curr) as [c1|]; cbn; [|reflexivity].
    eapply IH; [|reflexivity]. rewrite length_drop. lia.
  - apply indexOf_None in E.
    rewrite (drain_one_line text curr E), (split_lines_no_lf _ E). cbn.
    destruct (process_line _ curr); reflexivity.
Qed.

(** A string goes to the end of the last assistant message as it is. *)
Lemma append_value_string (s : jsstring) (curr : list Msg) :
  append_value (JStr s) curr = Some (append_delta s curr).
Proof.
  unfold append_value, append_delta. destruct (last curr) as [l|]; [|reflexivity].
  destruct (is_assistant (role l)); reflexivity.
Qed.

(** One line, without white space before the marker: the page appends what
    lib/sse.ts finds in it. *)
Lemma process_line_fragment (line : jsstring) (curr : list Msg) :
  (startsWith (trimStart line) Sse.DATA_MARKER = true ->
   startsWith line Sse.DATA_MARKER = true) ->
  process_line (trim line) curr = append_values (Sse.fragment_of_line line) curr.
Proof.
  intros Hws. unfold process_line, Sse.fragment_of_line.
  rewrite startsWith_trim.
  destruct (startsWith line Sse.DATA_MARKER) eqn:E.
  - apply startsWith_prefix in E as [r ->].
    assert (startsWith (Sse.DATA_MARKER ++ r) Sse.DATA_MARKER = true) as Hs.
    { apply startsWith_prefix. exists r. reflexivity. }
    assert (trimStart (Sse.DATA_MARKER ++ r) = Sse.DATA_MARKER ++ r) as -> by reflexivity.
    rewrite Hs, trim_data_line. cbn [negb].
    change (slice_from 5 (Sse.DATA_MARKER ++ trimEnd r)) with (trimEnd r).
    change (slice_from 5 (Sse.DATA_MARKER ++ r)) with r.
    rewrite trim_trimEnd.
    destruct (_ || _); [reflexivity|].
    destruct (Sse.delta_of_payload _) as [| |delta|v]; cbn [append_values];
      try reflexivity.
    + rewrite append_value_string. reflexivity.
    + destruct (append_value v curr); reflexivity.
  - destruct (startsWith (trimStart line) Sse.DATA_MARKER) eqn:E2; [|reflexivity].
    specialize (Hws eq_refl). congruence.
Qed.

Lemma append_values_app (vs1 vs2 : list json) (curr : list Msg) :
  append_values (vs1 ++ vs2) curr = curr' ← append_values vs1 curr; append_values vs2 curr'.
Proof.
  revert curr. induction vs1 as [|v vs1 IH]; intros curr; [reflexivity|].
  cbn [app append_values]. destruct (append_value v curr) as [c1|]; cbn; [apply IH | reflexivity].
Qed.

Lemma append_deltas_app (d1 d2 : list jsstring) (curr : list Msg) :
  append_deltas (d1 ++ d2) curr = append_deltas d2 (append_deltas d1 curr).
Proof. apply foldl_app. Qed.

Lemma append_values_strings (deltas : list jsstring) (curr : list Msg) :
  append_values (map JStr deltas) curr = Some (append_deltas deltas curr).
Proof.
  revert curr. induction deltas as [|d deltas IH]; intros curr; [reflexivity|].
  cbn [map append_values]. rewrite append_value_string. cbn. apply IH.
Qed.

Lemma process_lines_collect (lines : list jsstring) (curr : list Msg) :
  Forall (fun line => startsWith (trimStart line) Sse.DATA_MARKER = true ->
                      startsWith line Sse.DATA_MARKER = true) lines ->
  process_lines lines curr = append_values (Sse.collect lines) curr.
Proof.
  intros H. revert curr. induction H as [|l lines Hl _ IH]; intros curr; cbn.
  - reflexivity.
  - rewrite (process_line_fragment l curr Hl), append_values_app.
    destruct (append_values (Sse.fragment_of_line l) curr) as [c1|]; cbn; [apply IH | reflexivity].
Qed.

(** The fragments of a stream go to the end of the last assistant
    message, one after the other. *)
Lemma append_deltas_snoc (deltas : list jsstring) (front : list Msg) (l : Msg) :
  role l = Assistant ->
  append_deltas deltas (front ++ [l])
    = front ++ [ {| role := Assistant; content := content l ++ concat deltas |} ].
Proof.
  revert l. induction deltas as [|d deltas IH]; intros l Hl.
  - cbn. rewrite app_nil_r. destruct l as [r c]. cbn in Hl. subst. reflexivity.
  - change (append_deltas (d :: deltas) (front ++ [l]))
      with (append_deltas deltas (append_delta d (front ++ [l]))).
    rewrite append_delta_snoc, Hl. cbn [is_assistant].
    rewrite IH by reflexivity. cbn. rewrite <- app_assoc. reflexivity.
Qed.

Lemma texts_of_cons (v : json) (vs : list json) :
  texts_of (v :: vs) = t ← to_text v; ts ← texts_of vs; Some (t :: ts).
Proof. reflexivity. Qed.

(** The values of a stream go to the end of the last assistant message
    as their strings, when every one of them has a string. *)
Lemma append_values_snoc (vs : list json) (front : list Msg) (l : Msg) :
  role l = Assistant ->
  append_values vs (front ++ [l])
    = texts ← texts_of vs;
      Some (front ++ [ {| role := Assistant; content := content l ++ concat texts |} ]).
Proof.
  revert l. induction vs as [|v vs IH]; intros l Hl.
  - cbn. rewrite app_nil_r. destruct l as [r c]. cbn in Hl. subst. reflexivity.
  - cbn [append_values]. rewrite (append_value_snoc v front l Hl), texts_of_cons.
    destruct (to_text v) as [t|]; cbn [mbind option_bind]; [|reflexivity].
    rewrite IH by reflexivity. cbn [content].
    destruct (texts_of vs) as [ts|]; cbn; [|reflexivity].
    rewrite <- app_assoc. reflexivity.
Qed.

(** The page reads a stream of whole lines as lib/sse.ts does. *)
Lemma drain_collect (text : jsstring) (curr : list Msg) :
  Forall (fun line => startsWith (trimStart line) Sse.DATA_MARKER = true ->
                      startsWith line Sse.DATA_MARKER = true) (split_lines text) ->
  drain (text ++ [LF]) curr
    = curr' ← append_values (Sse.extractDeltaContentFromSSE text) curr; Some ([], curr').
Proof.
  intros H. rewrite drain_lines, (process_lines_collect _ curr H). reflexivity.
Qed.

(** X18: [extractDeltaContentFromSSE] reads line by line. What it finds in
    a text with a line feed in it is what it finds before the line feed
    followed by what it finds after it; it finds nothing in the empty text,
    and what it finds is truthy (never an empty string, a zero, [false] or
    [null]). It keeps nothing from one call to the next: a text without a line
    feed is read as one line, whether or not it is the whole of a line of the
    stream; so of the line of the example, cut after [choi] and given in
    two calls, neither call finds the fragment that one call on the whole
    line finds. *)
Theorem extract_reads_line_by_line :
  (forall a b : jsstring,
      Sse.extractDeltaContentFromSSE (a ++ LF :: b)
        = Sse.extractDeltaContentFromSSE a ++ Sse.extractDeltaContentFromSSE b)
  /\ Sse.extractDeltaContentFromSSE [] = []
  /\ (forall buffer : jsstring,
        Forall (fun v => truthy v = true) (Sse.extractDeltaContentFromSSE buffer))
  /\ (forall a : jsstring,
        LF ∉ a -> Sse.extractDeltaContentFromSSE a = Sse.fragment_of_line a)
  /\ (let a := jsq "data: {'choi" in
      let b := jsq "ces':[{'delta':{'content':'Hi'}}]}" in
      Sse.extractDeltaContentFromSSE (a ++ b) = [JStr (js "Hi")]
      /\ Sse.extractDeltaContentFromSSE a = []
      /\ Sse.extractDeltaContentFromSSE b = []).
Proof.
  split; [|split; [|split; [|split]]].
  - intros a b. unfold Sse.extractDeltaContentFromSSE.
    rewrite split_lines_app. apply collect_app.
  - reflexivity.
  - intros buffer. apply collect_truthy.
  - intros a Ha. unfold Sse.extractDeltaContentFromSSE.
    rewrite (split_lines_no_lf a Ha). cbn. apply app_nil_r.
  - cbv zeta. repeat split; vm_compute; reflexivity.
Qed.

(** X19: the read loop of the page and lib/sse.ts agree on whole lines.
    For a text in which no line has white space before the marker, the
    inner loop of the page on the text and a line feed appends, in order, the
    values that [extractDeltaContentFromSSE] finds in the text, each as its
    string, and leaves the buffer empty; after a placeholder that makes its
    content the concatenation of their strings. A number is appended as its
    digits (5 as "5", 1.5e3 as "1500"), [true] as "true", an array as its
    elements joined with commas; a zero is no fragment for either. The page
    trims the line before it looks for the marker, lib/sse.ts does not: a
    line with a space before the marker gives a fragment to the page and
    none to lib/sse.ts. *)
Theorem page_reads_what_sse_extracts (text : jsstring) (curr : list Msg) :
  Forall (fun line => startsWith (trimStart line) Sse.DATA_MARKER = true ->
                      startsWith line Sse.DATA_MARKER = true) (split_lines text) ->
  drain (text ++ [LF]) curr
    = (curr' ← append_values (Sse.extractDeltaContentFromSSE text) curr; Some ([], curr'))
  /\ (forall front : list Msg,
        drain (text ++ [LF]) (front ++ [ {| role := Assistant; content := [] |} ])
          = texts ← texts_of (Sse.extractDeltaContentFromSSE text);
            Some ([], front ++ [ {| role := Assistant; content := concat texts |} ]))
  /\ (forall (content_text : string) (found : list json) (shown : string),
        (content_text, found, shown)
          ∈ [("5", [JNum (js "5")], "5"); ("1.5e3", [JNum (js "1.5e3")], "1500");
             ("0", [], ""); ("true", [JBool true], "true");
             ("[1,null,'a']", [JArr [JNum (js "1"); JNull; JStr (js "a")]], "1,,a")] ->
        let line := jsq "data: {'choices':[{'delta':{'content':" ++ jsq content_text
                    ++ jsq "}}]}" in
        Sse.extractDeltaContentFromSSE line = found
        /\ drain (line ++ [LF]) [ {| role := Assistant; content := [] |} ]
           = Some ([], [ {| role := Assistant; content := js shown |} ]))
  /\ (let line := jsq " data: {'choices':[{'delta':{'content':'Hi'}}]}" in
      Sse.extractDeltaContentFromSSE line = []
      /\ drain (line ++ [LF]) [ {| role := Assistant; content := [] |} ]
         = Some ([], [ {| role := Assistant; content := js "Hi" |} ])).
Proof.
  intros H. split; [apply drain_collect, H|]. split; [|split].
  - intros front. rewrite (drain_collect _ _ H), append_values_snoc by reflexivity.
    destruct (texts_of _); reflexivity.
  - intros content_text found shown Hin.
    repeat (apply elem_of_cons in Hin as [[= -> -> ->]|Hin];
            [cbv zeta; split; vm_compute; reflexivity|]).
    inversion Hin.
  - cbv zeta. split; vm_compute; reflexivity.
Qed.

End LineFacts.

(** ** [JSON.stringify] and [JSON.parse] on strings *)

Section JsonStringFacts.
Import Js.

Lemma run_parser_app (s : pstate) (a b : jsstring) :
  run_parser s (a ++ b) = s' ← run_parser s a; run_parser s' b.
Proof.
  revert s. induction a as [|c a IH]; intros s; [reflexivity|].
  cbn. destruct (step s c) as [s1|]; cbn; [apply IH | reflexivity].
Qed.

Lemma hex_value_hex_digit (n : N) : n < 16 -> hex_value (hex_digit n) = Some n.
Proof.
  intros H.
  destruct n as [|p]; [reflexivity|].
  do 4 (destruct p as [p|p|]; try reflexivity); lia.
Qed.

Lemma hex_digits_value (c : code_unit) :
  c < 65536 ->
  ((c / 4096 mod 16 * 16 + c / 256 mod 16) * 16 + c / 16 mod 16) * 16 + c mod 16 = c.
Proof.
  intros H.
  pose proof (N.div_mod c 16 ltac:(lia)) as H0.
  pose proof (N.div_mod (c / 16) 16 ltac:(lia)) as H1.
  pose proof (N.div_mod (c / 16 / 16) 16 ltac:(lia)) as H2.
  assert (c / 256 = c / 16 / 16) as E2 by (rewrite N.Div0.div_div; reflexivity).
  assert (c / 4096 = c / 16 / 16 / 16) as E3 by (rewrite !N.Div0.div_div; reflexivity).
  assert (c / 16 / 16 / 16 < 16) as H3.
  { rewrite !N.Div0.div_div. apply N.Div0.div_lt_upper_bound. exact H. }
  rewrite E2, E3, (N.mod_small _ _ H3). lia.
Qed.

(** In a string, the escape of a code unit is read as the code unit. *)
Lemma run_unicode_escape (stack : list frame) (k : bool) (acc : jsstring)
    (c : code_unit) (rest : jsstring) :
  c < 65536 ->
  run_parser (stack, PString k acc ENone) (unicode_escape c ++ rest)
    = run_parser (stack, PString k (c :: acc) ENone) rest.
Proof.
  intros H. unfold unicode_escape.
  cbn [app run_parser step step_string]. change (BACKSLASH =? DQUOTE) with false.
  change (BACKSLASH =? BACKSLASH) with true. cbn [mbind option_bind].
  cbn -[hex_value hex_digit N.div N.modulo N.mul N.add run_parser].
  repeat (rewrite hex_value_hex_digit by (apply N.mod_lt; lia);
          cbn -[hex_value hex_digit N.div N.modulo N.mul N.add run_parser]).
  rewrite hex_digits_value by exact H. reflexivity.
Qed.

Lemma step_plain (stack : list frame) (k : bool) (acc : jsstring) (c : code_unit) :
  c <> DQUOTE -> c <> BACKSLASH -> 32 <= c ->
  step (stack, PString k acc ENone) c = Some (stack, PString k (c :: acc) ENone).
Proof.
  intros H1 H2 H3. cbn.
  destruct (N.eqb_spec c DQUOTE); [contradiction|].
  destruct (N.eqb_spec c BACKSLASH); [contradiction|].
  destruct (N.ltb_spec c 32); [lia | reflexivity].
Qed.

Lemma run_quote_unit (stack : list frame) (k : bool) (acc : jsstring)
    (c : code_unit) (rest : jsstring) :
  run_parser (stack, PString k acc ENone) (quote_unit c ++ rest)
    = run_parser (stack, PString k (c :: acc) ENone) rest.
Proof.
  unfold quote_unit.
  destruct (N.eqb_spec c DQUOTE) as [->|H1]; [reflexivity|].
  destruct (N.eqb_spec c BACKSLASH) as [->|H2]; [reflexivity|].
  destruct (N.eqb_spec c 8) as [->|H3]; [reflexivity|].
  destruct (N.eqb_spec c 12) as [->|H4]; [reflexivity|].
  destruct (N.eqb_spec c 10) as [->|H5]; [reflexivity|].
  destruct (N.eqb_spec c 13) as [->|H6]; [reflexivity|].
  destruct (N.eqb_spec c 9) as [->|H7]; [reflexivity|].
  destruct (N.ltb_spec c 32) as [H8|H8].
  - apply run_unicode_escape. lia.
  - cbn [app run_parser]. rewrite step_plain by assumption. reflexivity.
Qed.

Lemma lead_surrogate_range (c : code_unit) :
  is_lead_surrogate c = true -> 55296 <= c <= 56319.
Proof. unfold is_lead_surrogate. rewrite andb_true_iff, !N.leb_le. tauto. Qed.

Lemma trail_surrogate_range (c : code_unit) :
  is_trail_surrogate c = true -> 56320 <= c <= 57343.
Proof. unfold is_trail_surrogate. rewrite andb_true_iff, !N.leb_le. tauto. Qed.

(** The text that [JSON.stringify] writes between the quotes is read back
    as the code units of the string. *)
Lemma run_quote_units (s : jsstring) :
  forall (stack : list frame) (k : bool) (acc rest : jsstring),
    run_parser (stack, PString k acc ENone) (quote_units s ++ rest)
      = run_parser (stack, PString k (rev s ++ acc) ENone) rest.
Proof.
  remember (length s) as n eqn:Hn. revert s Hn.
  induction n as [n IH] using lt_wf_ind. intros s Hn stack k acc rest.
  destruct s as [|c r]; [reflexivity|].
  assert (forall t : jsstring, rev (c :: r) ++ t = rev r ++ c :: t) as Hrev.
  { intros t. cbn [rev]. rewrite <- app_assoc. reflexivity. }
  rewrite Hrev. cbn [quote_units].
  destruct (is_lead_surrogate c) eqn:El.
  - apply lead_surrogate_range in El.
    destruct r as [|d r'].
    + apply run_unicode_escape. lia.
    + destruct (is_trail_surrogate d) eqn:Et.
      * apply trail_surrogate_range in Et.
        cbn [app run_parser].
        rewrite step_plain by (unfold DQUOTE, BACKSLASH; lia). cbn [mbind option_bind].
        rewrite step_plain by (unfold DQUOTE, BACKSLASH; lia). cbn [mbind option_bind].
        rewrite (IH (length r')) by (subst n; cbn; lia || reflexivity).
        cbn [rev]. rewrite <- !app_assoc. reflexivity.
      * rewrite <- app_assoc, run_unicode_escape by lia.
        apply (IH (length (d :: r'))); [subst n; cbn; lia | reflexivity].
  - destruct (is_trail_surrogate c) eqn:Et.
    + apply trail_surrogate_range in Et.
      rewrite <- app_assoc, run_unicode_escape by lia.
      apply (IH (length r)); [subst n; cbn; lia | reflexivity].
    + rewrite <- app_assoc, run_quote_unit.
      apply (IH (length r)); [subst n; cbn; lia | reflexivity].
Qed.

(** A string that [JSON.stringify] wrote, where a value is expected. *)
Lemma run_quote (s : jsstring) (stack : list frame) (rest : jsstring) :
  run_parser (stack, PValue) (quote s ++ rest)
    = st ← deliver (JStr s) stack; run_parser st rest.
Proof.
  unfold quote. cbn [app run_parser]. change (step (stack, PValue) DQUOTE)
    with (Some (stack, PString false [] ENone)). cbn [mbind option_bind].
  rewrite <- app_assoc, run_quote_units, app_nil_r. cbn [app run_parser].
  change (step (stack, PString false (rev s) ENone) DQUOTE)
    with (end_string false (rev (rev s)) stack).
  rewrite rev_involutive. reflexivity.
Qed.

Lemma hex_digit_ge (n : N) : 48 <= hex_digit n.
Proof. unfold hex_digit. destruct (n <? 10); lia. Qed.

Lemma unicode_escape_no_lf (c : code_unit) : LF ∉ unicode_escape c.
Proof.
  unfold unicode_escape, LF. intros H.
  repeat (apply elem_of_cons in H as [H|H];
          [first [discriminate | pose proof (hex_digit_ge (c / 4096 mod 16));
                                 pose proof (hex_digit_ge (c / 256 mod 16));
                                 pose proof (hex_digit_ge (c / 16 mod 16));
                                 pose proof (hex_digit_ge (c mod 16)); lia]|]).
  inversion H.
Qed.

Lemma quote_unit_no_lf (c : code_unit) : LF ∉ quote_unit c.
Proof.
  unfold quote_unit.
  repeat (match goal with
          | |- context [if ?x =? ?y then _ else _] => destruct (N.eqb_spec x y)
          end;
          [intros H; repeat (apply elem_of_cons in H as [H|H]; [discriminate|]); inversion H|]).
  destruct (c <? 32); [apply unicode_escape_no_lf|].
  intros H. apply list_elem_of_singleton in H. unfold LF in H. congruence.
Qed.

(** [JSON.stringify] writes a string on one line. *)
Lemma quote_units_no_lf (s : jsstring) : LF ∉ quote_units s.
Proof.
  remember (length s) as n eqn:Hn. revert s Hn.
  induction n as [n IH] using lt_wf_ind. intros s Hn.
  destruct s as [|c r]; [apply not_elem_of_nil|]. cbn [quote_units].
  assert (LF ∉ quote_units r) as Hr by (apply (IH (length r)); [subst n; cbn; lia | reflexivity]).
  destruct (is_lead_surrogate c) eqn:El.
  - apply lead_surrogate_range in El. destruct r as [|d r'].
    + apply unicode_escape_no_lf.
    + destruct (is_trail_surrogate d) eqn:Et.
      * apply trail_surrogate_range in Et.
        rewrite !not_elem_of_cons. unfold LF. split; [lia|]. split; [lia|].
        apply (IH (length r')); [subst n; cbn; lia | reflexivity].
      * rewrite not_elem_of_app. split; [apply unicode_escape_no_lf | exact Hr].
  - destruct (is_trail_surrogate c).
    + rewrite not_elem_of_app. split; [apply unicode_escape_no_lf | exact Hr].
    + rewrite not_elem_of_app. split; [apply quote_unit_no_lf | exact Hr].
Qed.

End JsonStringFacts.

(** ** Streams of fragments *)

Section FragmentFacts.
Import Js Page Fixtures.

Lemma stringify_delta_chunk (s : jsstring) :
  JSON_stringify (delta_chunk s)
    = jsq "{'choices':[{'delta':{'content':'" ++ quote_units s ++ jsq "'}}]}".
Proof.
  unfold delta_chunk. cbn [JSON_stringify map join_comma fst snd].
  unfold quote. repeat rewrite <- app_assoc. reflexivity.
Qed.

Lemma parse_delta_chunk (s : jsstring) :
  JSON_parse (JSON_stringify (delta_chunk s)) = Some (delta_chunk s).
Proof.
  rewrite stringify_delta_chunk. unfold JSON_parse. rewrite run_parser_app.
  assert (run_parser ([], PValue) (jsq "{'choices':[{'delta':{'content':'")
          = Some ([FObj [] (Some (js "content")); FObj [] (Some (js "delta")); FArr [];
                   FObj [] (Some (js "choices"))], PString false [] ENone)) as ->
    by (vm_compute; reflexivity).
  cbn [mbind option_bind]. rewrite run_quote_units, app_nil_r.
  cbn. rewrite rev_involutive. reflexivity.
Qed.

Lemma delta_of_delta_chunk (c : code_unit) (s : jsstring) :
  Sse.delta_of_payload (JSON_stringify (delta_chunk (c :: s))) = Sse.Delta (c :: s).
Proof. unfold Sse.delta_of_payload. rewrite parse_delta_chunk. reflexivity. Qed.

Lemma delta_line_payload (s : jsstring) :
  trim (slice_from 5 (delta_line s)) = JSON_stringify (delta_chunk s).
Proof.
  unfold delta_line. rewrite stringify_delta_chunk.
  change (slice_from 5 (js "data: " ++ ?x)) with (32 :: x).
  unfold trim.
  change (trimStart (32 :: jsq "{'choices':[{'delta':{'content':'" ++ quote_units s
                      ++ jsq "'}}]}"))
    with (jsq "{'choices':[{'delta':{'content':'" ++ quote_units s ++ jsq "'}}]}").
  replace (jsq "{'choices':[{'delta':{'content':'" ++ quote_units s ++ jsq "'}}]}")
    with ((jsq "{'choices':[{'delta':{'content':'" ++ quote_units s ++ jsq "'}}]")
          ++ 125 :: [])
    by (rewrite <- !app_assoc; reflexivity).
  rewrite trimEnd_app_kept by reflexivity. reflexivity.
Qed.

Lemma delta_line_starts (s : jsstring) : startsWith (delta_line s) Sse.DATA_MARKER = true.
Proof. reflexivity. Qed.

Lemma delta_line_no_lf (s : jsstring) : LF ∉ delta_line s.
Proof.
  unfold delta_line. rewrite stringify_delta_chunk, !not_elem_of_app.
  split; [|split; [|split]]; try apply quote_units_no_lf;
    apply indexOf_None; vm_compute; reflexivity.
Qed.

Lemma fragment_of_delta_line (s : jsstring) :
  s <> [] -> Sse.fragment_of_line (delta_line s) = [JStr s].
Proof.
  intros Hs. destruct s as [|c s]; [contradiction|].
  unfold Sse.fragment_of_line.
  rewrite delta_line_starts, delta_line_payload, delta_of_delta_chunk, stringify_delta_chunk.
  reflexivity.
Qed.

Lemma split_lines_delta_stream (fragments : list jsstring) :
  split_lines (concat (map (fun s => delta_line s ++ [LF]) fragments) ++ js "data: [DONE]")
    = map delta_line fragments ++ [js "data: [DONE]"].
Proof.
  induction fragments as [|s fragments IH]; [reflexivity|].
  cbn [map concat]. rewrite <- !app_assoc. cbn [app].
  rewrite split_lines_app, IH, (split_lines_no_lf _ (delta_line_no_lf s)). reflexivity.
Qed.

Lemma collect_delta_lines (fragments : list jsstring) :
  Forall (fun s => s <> []) fragments ->
  Sse.collect (map delta_line fragments ++ [js "data: [DONE]"]) = map JStr fragments.
Proof.
  induction 1 as [|s fragments Hs _ IH]; [reflexivity|].
  cbn [map app Sse.collect]. rewrite (fragment_of_delta_line s Hs), IH. reflexivity.
Qed.

Lemma extract_delta_lines (fragments : list jsstring) :
  Forall (fun s => s <> []) fragments ->
  Sse.extractDeltaContentFromSSE
    (concat (map (fun s => delta_line s ++ [LF]) fragments) ++ js "data: [DONE]")
    = map JStr fragments.
Proof.
  intros Hf. unfold Sse.extractDeltaContentFromSSE.
  rewrite split_lines_delta_stream. apply collect_delta_lines, Hf.
Qed.

Lemma delta_stream_lines (fragments : list jsstring) :
  delta_stream fragments
    = (concat (map (fun s => delta_line s ++ [LF]) fragments) ++ js "data: [DONE]") ++ [LF].
Proof. unfold delta_stream, DONE_LINE. rewrite <- app_assoc. reflexivity. Qed.

(** The reads of a stream of fragments, after a placeholder. *)
Lemma read_chunks_delta_stream (fragments chunks : list jsstring) (front : list Msg) :
  Forall (fun s => s <> []) fragments ->
  concat chunks = delta_stream fragments ->
  read_chunks chunks [] (front ++ [placeholder])
    = Some ([], front ++ [ {| role := Assistant; content := concat fragments |} ]).
Proof.
  intros Hf Hc.
  rewrite read_chunks_concat by apply not_elem_of_nil.
  rewrite app_nil_l, Hc, delta_stream_lines, drain_collect, (extract_delta_lines _ Hf).
  - rewrite append_values_strings. cbn [mbind option_bind]. unfold placeholder.
    rewrite append_deltas_snoc by reflexivity. reflexivity.
  - rewrite split_lines_delta_stream. apply Forall_app. split.
    + apply Forall_map, Forall_true. intros s _. apply delta_line_starts.
    + repeat constructor.
Qed.

(** The pieces of a line that come before the read with its line feed
    hold no line feed. *)
Lemma pieces_before_line_feed (pieces : list jsstring) (final line : jsstring) :
  final <> [] -> LF ∉ line -> concat pieces ++ final = line ++ [LF] -> LF ∉ concat pieces.
Proof.
  intros Hfinal Hline Hc.
  destruct final as [|x final' _] using rev_ind; [contradiction|].
  rewrite app_assoc in Hc. apply app_inj_tail in Hc as [Hc _].
  rewrite <- Hc in Hline. apply not_elem_of_app in Hline. tauto.
Qed.

(** The line of a fragment, trimmed, appends the fragment. *)
Lemma process_delta_line (s : jsstring) (curr : list Msg) :
  s <> [] -> process_line (trim (delta_line s)) curr = Some (append_delta s curr).
Proof.
  intros Hs. rewrite process_line_fragment by (intros _; apply delta_line_starts).
  rewrite (fragment_of_delta_line s Hs). cbn [append_values].
  rewrite append_value_string. reflexivity.
Qed.

(** The updater of the read loop throws only on a value whose conversion
    to a string throws. *)
Lemma process_line_throws (line : jsstring) (curr : list Msg) :
  process_line line curr = None ->
  exists v : json,
    Sse.delta_of_payload (trim (slice_from 5 line)) = Sse.Truthy v /\ to_text v = None.
Proof.
  unfold process_line. destruct (negb _); [discriminate|].
  destruct (_ || _); [discriminate|].
  destruct (Sse.delta_of_payload _) as [| |delta|v]; try discriminate.
  intros H. exists v. split; [reflexivity|].
  unfold append_value in H. destruct (last curr) as [l|]; [|discriminate].
  destruct (is_assistant (role l)); [|discriminate].
  destruct (to_text v); [discriminate | reflexivity].
Qed.

(** C6: a line that comes in pieces is put together before it is read.
    However a text is cut into reads, the result is the same; while the line
    is not complete nothing but the buffer changes; the read that brings the
    line feed handles the whole line, once, and leaves the buffer empty. So
    the line of a fragment, as [JSON.stringify] writes it, cut into any
    number of reads: before the read with the line feed the placeholder is
    untouched and the pieces wait in the buffer, after it the placeholder
    reads the fragment, once. A line with a fragment appends it once; a
    payload that is not JSON leaves the conversation as it is, nothing is
    thrown: the loop throws only on a fragment that is no string and whose
    conversion to a string throws. The example of the specification: after
    the line cut at [choi] nothing is shown, after the rest "Hi"; the piece
    alone, read as a line, shows nothing. *)
Theorem split_line_is_reassembled :
  (forall (chunks1 chunks2 : list jsstring) (curr : list Msg),
      concat chunks1 = concat chunks2 ->
      read_chunks chunks1 [] curr = read_chunks chunks2 [] curr)
  /\ (forall (pieces : list jsstring) (curr : list Msg),
        LF ∉ concat pieces ->
        read_chunks pieces [] curr = Some (concat pieces, curr))
  /\ (forall (pieces : list jsstring) (final line : jsstring) (curr : list Msg),
        LF ∉ line ->
        concat pieces ++ final = line ++ [LF] ->
        read_chunks (pieces ++ [final]) [] curr
          = curr' ← process_line (trim line) curr; Some ([], curr'))
  /\ (forall (s : jsstring) (pieces : list jsstring) (final : jsstring) (front : list Msg),
        s <> [] ->
        final <> [] ->
        concat pieces ++ final = delta_line s ++ [LF] ->
        read_chunks pieces [] (front ++ [placeholder])
          = Some (concat pieces, front ++ [placeholder])
        /\ read_chunks (pieces ++ [final]) [] (front ++ [placeholder])
           = Some ([], front ++ [ {| role := Assistant; content := s |} ]))
  /\ (forall (s : jsstring) (curr : list Msg),
        s <> [] ->
        process_line (trim (delta_line s)) curr = Some (append_delta s curr))
  /\ (forall (line delta : jsstring) (curr : list Msg),
        startsWith line Sse.DATA_MARKER = true ->
        Sse.delta_of_payload (trim (slice_from 5 line)) = Sse.Delta delta ->
        process_line line curr = Some (append_delta delta curr))
  /\ (forall (line : jsstring) (curr : list Msg),
        JSON_parse (trim (slice_from 5 line)) = None ->
        process_line line curr = Some curr)
  /\ (forall (line : jsstring) (curr : list Msg),
        process_line line curr = None ->
        exists v : json,
          Sse.delta_of_payload (trim (slice_from 5 line)) = Sse.Truthy v
          /\ to_text v = None)
  /\ (let piece1 := jsq "data: {'choi" in
      let piece2 := jsq "ces':[{'delta':{'content':'Hi'}}]}" ++ [LF] in
      piece1 ++ piece2 = delta_line (js "Hi") ++ [LF]
      /\ read_chunks [piece1] [] [placeholder] = Some (piece1, [placeholder])
      /\ read_chunks [piece1; piece2] [] [placeholder]
         = Some ([], [ {| role := Assistant; content := js "Hi" |} ])
      /\ process_line piece1 [placeholder] = Some [placeholder]
      /\ process_line (trim piece2) [placeholder] = Some [placeholder]).
Proof.
  assert (forall (pieces : list jsstring) (curr : list Msg),
             LF ∉ concat pieces ->
             read_chunks pieces [] curr = Some (concat pieces, curr)) as Hwait.
  { intros pieces curr H.
    rewrite read_chunks_concat by apply not_elem_of_nil.
    apply drain_no_line. exact H. }
  assert (forall (pieces : list jsstring) (final line : jsstring) (curr : list Msg),
             LF ∉ line ->
             concat pieces ++ final = line ++ [LF] ->
             read_chunks (pieces ++ [final]) [] curr
               = curr' ← process_line (trim line) curr; Some ([], curr')) as Hline.
  { intros pieces final line curr Hl Hc.
    rewrite read_chunks_concat by apply not_elem_of_nil.
    rewrite app_nil_l, concat_app. simpl. rewrite app_nil_r, Hc.
    apply drain_one_line. exact Hl. }
  split; [|split; [exact Hwait|split; [exact Hline|split; [|split; [|split; [|split; [|split]]]]]]].
  - intros chunks1 chunks2 curr H.
    rewrite !read_chunks_concat by apply not_elem_of_nil. rewrite H. reflexivity.
  - intros s pieces final front Hs Hfinal Hc. split.
    + apply Hwait. exact (pieces_before_line_feed _ _ _ Hfinal (delta_line_no_lf s) Hc).
    + rewrite (Hline _ _ _ _ (delta_line_no_lf s) Hc), (process_delta_line _ _ Hs).
      unfold placeholder. rewrite append_delta_snoc. reflexivity.
  - apply process_delta_line.
  - apply process_line_delta.
  - apply process_line_parse_error.
  - apply process_line_throws.
  - cbv zeta. repeat split; vm_compute; reflexivity.
Qed.

(** X20: a stream of fragments is shown as sent. For fragments that are
    not empty, each written by [JSON.stringify] on a line of its own as in
    the tests, with the [DONE] line at the end: the stream, however it is cut
    into reads, makes the placeholder at the end of any conversation read
    the concatenation of the fragments, with nothing left in the buffer; and
    [extractDeltaContentFromSSE] finds the fragments, in order. The line of
    a fragment has no line feed in it, and [JSON.parse] reads a string that
    [JSON.stringify] wrote as that string. *)
Theorem stream_of_fragments_is_shown
    (fragments chunks : list jsstring) (front : list Msg) :
  Forall (fun s => s <> []) fragments ->
  concat chunks = delta_stream fragments ->
  read_chunks chunks [] (front ++ [placeholder])
    = Some ([], front ++ [ {| role := Assistant; content := concat fragments |} ])
  /\ Sse.extractDeltaContentFromSSE (delta_stream fragments) = map JStr fragments
  /\ Forall (fun s => LF ∉ delta_line s) fragments
  /\ (forall s : jsstring, JSON_parse (JSON_stringify (JStr s)) = Some (JStr s)).
Proof.
  intros Hf Hc. split; [|split; [|split]].
  - apply read_chunks_delta_stream; assumption.
  - pose proof (extract_delta_lines _ Hf) as Hextract.
    rewrite delta_stream_lines. unfold Sse.extractDeltaContentFromSSE in *.
    rewrite split_lines_app, collect_app, Hextract. cbn. rewrite app_nil_r. reflexivity.
  - apply Forall_true. intros s. apply delta_line_no_lf.
  - intros s. unfold JSON_parse.
    rewrite <- (app_nil_r (JSON_stringify (JStr s))). cbn [JSON_stringify].
    rewrite run_quote. reflexivity.
Qed.

End FragmentFacts.

(** ** One exchange with a stream of fragments *)

Section ExchangeFacts.
Import Js Page Fixtures.

Variable abort_message : jsstring.

(** The read loop only adds to the content of the assistant message that
    ends the conversation. *)
Lemma process_line_extends (line : jsstring) (front : list Msg) (c : jsstring)
    (curr' : list Msg) :
  process_line line (front ++ [ {| role := Assistant; content := c |} ]) = Some curr' ->
  exists text : jsstring, curr' = front ++ [ {| role := Assistant; content := c ++ text |} ].
Proof.
  unfold process_line.
  assert (exists text : jsstring,
             front ++ [ {| role := Assistant; content := c |} ]
             = front ++ [ {| role := Assistant; content := c ++ text |} ]) as Hsame
    by (exists []; rewrite app_nil_r; reflexivity).
  destruct (negb _); [intros [= <-]; exact Hsame|].
  destruct (_ || _); [intros [= <-]; exact Hsame|].
  destruct (Sse.delta_of_payload _) as [| |delta|v].
  - intros [= <-]. exact Hsame.
  - intros [= <-]. exact Hsame.
  - intros [= <-]. rewrite append_delta_snoc. exists delta. reflexivity.
  - rewrite append_value_snoc by reflexivity.
    destruct (to_text v) as [t|]; cbn; [|discriminate].
    intros [= <-]. exists t. reflexivity.
Qed.

Lemma drain_extends (buffer : jsstring) (front : list Msg) (c : jsstring)
    (buffer' : jsstring) (curr' : list Msg) :
  drain buffer (front ++ [ {| role := Assistant; content := c |} ]) = Some (buffer', curr') ->
  exists text : jsstring, curr' = front ++ [ {| role := Assistant; content := c ++ text |} ].
Proof.
  remember (length buffer) as n eqn:Hn.
  revert buffer c Hn. induction n as [n IH] using lt_wf_ind.
  intros buffer c Hn. rewrite drain_unfold.
  destruct (indexOf LF buffer) as [idx|] eqn:E.
  - destruct (process_line _ _) as [c1|] eqn:Ep; cbn; [|discriminate].
    destruct (process_line_extends _ _ _ _ Ep) as [t1 ->].
    intros H. apply indexOf_lt in E.
    assert (length (slice_from (S idx) buffer) < n)%nat as Hlt
      by (unfold slice_from; rewrite length_drop; lia).
    destruct (IH _ Hlt _ _ eq_refl H) as [t2 ->].
    exists (t1 ++ t2). rewrite app_assoc. reflexivity.
  - intros [= <- <-]. exists []. rewrite app_nil_r. reflexivity.
Qed.

Lemma read_chunks_extends (chunks : list jsstring) (buffer : jsstring) (front : list Msg)
    (c : jsstring) (buffer' : jsstring) (curr' : list Msg) :
  read_chunks chunks buffer (front ++ [ {| role := Assistant; content := c |} ])
    = Some (buffer', curr') ->
  exists text : jsstring, curr' = front ++ [ {| role := Assistant; content := c ++ text |} ].
Proof.
  revert buffer c. induction chunks as [|text rest IH]; intros buffer c; cbn.
  - intros [= <- <-]. exists []. rewrite app_nil_r. reflexivity.
  - destruct (drain (buffer ++ text) _) as [[b1 c1]|] eqn:E; cbn; [|discriminate].
    destruct (drain_extends _ _ _ _ _ E) as [t1 ->].
    intros H. destruct (IH _ _ H) as [t2 ->].
    exists (t1 ++ t2). rewrite app_assoc. reflexivity.
Qed.

(** The inner loop throws only at a line with a truthy value whose
    conversion to a string throws. *)
Lemma drain_throws (buffer : jsstring) (curr : list Msg) :
  drain buffer curr = None ->
  exists (line : jsstring) (v : json),
    line ∈ split_lines buffer
    /\ Sse.delta_of_payload (trim (slice_from 5 (trim line))) = Sse.Truthy v
    /\ to_text v = None.
Proof.
  remember (length buffer) as n eqn:Hn.
  revert buffer curr Hn. induction n as [n IH] using lt_wf_ind.
  intros buffer curr Hn. rewrite drain_unfold.
  destruct (indexOf LF buffer) as [idx|] eqn:E; [|discriminate].
  destruct (indexOf_Some _ _ _ E) as [Hnot Heq].
  assert (split_lines buffer = take idx buffer :: split_lines (drop (S idx) buffer)) as ->.
  { replace (split_lines buffer)
      with (split_lines (take idx buffer ++ LF :: drop (S idx) buffer))
      by (rewrite <- Heq; reflexivity).
    rewrite split_lines_app, (split_lines_no_lf _ Hnot). reflexivity. }
  destruct (process_line _ curr) as [c1|] eqn:Ep; cbn.
  - intros H. apply indexOf_lt in E.
    assert (length (slice_from (S idx) buffer) < n)%nat as Hlt
      by (unfold slice_from; rewrite length_drop; lia).
    destruct (IH _ Hlt _ _ eq_refl H) as (line & v & Hin & Hd & Ht).
    exists line, v. split; [apply list_elem_of_further, Hin | split; assumption].
  - intros _. destruct (process_line_throws _ _ Ep) as (v & Hd & Ht).
    exists (take idx buffer), v. split; [apply list_elem_of_here | split; assumption].
Qed.

(** X17: one exchange adds one turn. From a state of the page in which
    Send is not refused, Send, a response with a body, the reads of the
    stream and its end: when no updater of the read loop throws, the page is
    left at rest, with the input empty; the conversation is the old one, the
    user's message and one assistant message, whose content is what the read
    loop put in the placeholder, so it is two messages longer; the text left
    in the buffer by a last line without a line feed is dropped; the one
    request of the exchange has the new controller, and its reader is
    cancelled at the end. An updater throws only at a line of the stream
    whose fragment is truthy, no string, and has no string (an object with a
    member named [toString], alone or in an array); the page is lost then.
    So no updater throws on a stream without such a line: fragments that
    are numbers, [true], arrays and objects without such a member are
    shown. *)
Theorem exchange_adds_one_turn (w : world) (chunks : list jsstring) :
  reachable abort_message w ->
  send_refused w = false ->
  let start := messages w ++ [ {| role := User; content := input w |};
                               {| role := Assistant; content := [] |} ] in
  let throws (line : jsstring) :=
    exists v : json,
      Sse.delta_of_payload (trim (slice_from 5 (trim line))) = Sse.Truthy v
      /\ to_text v = None in
  (forall (buffer' : jsstring) (curr' : list Msg),
      read_chunks chunks [] start = Some (buffer', curr') ->
      exists (w' : world) (b : api_body) (text : jsstring),
        run abort_message (exchange_events (created w) chunks) w = Some w'
        /\ messages w' = curr'
        /\ curr' = messages w ++ [ {| role := User; content := input w |};
                                   {| role := Assistant; content := text |} ]
        /\ length (messages w') = S (S (length (messages w)))
        /\ at_rest w' /\ input w' = [] /\ model w' = model w
        /\ effects w' = effects w
                        ++ match abortRef w with
                           | Some old => [EAbort old]
                           | None => []
                           end
                        ++ [EFetch (created w) b; ECancel (created w)])
  /\ (read_chunks chunks [] start = None ->
      run abort_message (exchange_events (created w) chunks) w = None
      /\ exists line : jsstring, line ∈ split_lines (concat chunks) /\ throws line)
  /\ ((forall line : jsstring, line ∈ split_lines (concat chunks) -> ~ throws line) ->
      exists (buffer' : jsstring) (curr' : list Msg),
        read_chunks chunks [] start = Some (buffer', curr')).
Proof.
  intros Hr Hg start throws.
  assert (read_chunks chunks [] start = None ->
          exists line : jsstring, line ∈ split_lines (concat chunks) /\ throws line) as Hthrows.
  { rewrite read_chunks_concat by apply not_elem_of_nil. rewrite app_nil_l.
    intros H. destruct (drain_throws _ _ H) as (line & v & Hin & Hd & Ht).
    exists line. split; [exact Hin|]. exists v. split; assumption. }
  split; [|split].
  - intros buffer' curr' Hread.
    rewrite (run_exchange abort_message w chunks Hr Hg). fold start. rewrite Hread. cbn.
    assert (exists text : jsstring,
               curr' = messages w ++ [ {| role := User; content := input w |};
                                       {| role := Assistant; content := text |} ])
      as [text Htext].
    { subst start.
      replace (messages w ++ [ {| role := User; content := input w |};
                               {| role := Assistant; content := [] |} ])
        with ((messages w ++ [ {| role := User; content := input w |} ])
              ++ [ {| role := Assistant; content := [] |} ]) in Hread
        by (rewrite <- app_assoc; reflexivity).
      destruct (read_chunks_extends _ _ _ _ _ _ Hread) as [text ->].
      exists text. rewrite <- app_assoc. reflexivity. }
    eexists. eexists. exists text. split; [reflexivity|]. cbn.
    split; [reflexivity|]. split; [exact Htext|]. split.
    + rewrite (read_chunks_length _ _ _ _ _ Hread). subst start.
      rewrite length_app. cbn. lia.
    + split; [repeat split|]. split; [reflexivity|]. split; [reflexivity|].
      unfold send. unfold send_refused in Hg. rewrite Hg. cbn. rewrite <- !app_assoc.
      reflexivity.
  - intros Hread. split; [|exact (Hthrows Hread)].
    rewrite (run_exchange abort_message w chunks Hr Hg). fold start. rewrite Hread.
    reflexivity.
  - intros Hno. destruct (read_chunks chunks [] start) as [[buffer' curr']|] eqn:E.
    + exists buffer', curr'. reflexivity.
    + destruct (Hthrows eq_refl) as (line & Hin & Hline). destruct (Hno line Hin Hline).
Qed.

(** X22: one exchange shows the answer. From a state of the page in
    which Send is not refused, Send, a response with a body, the reads of a
    stream of fragments (however it is cut) and its end leave the page at
    rest with the old conversation, the user's message, and an assistant
    message that is the concatenation of the fragments. *)
Theorem exchange_shows_the_answer (w : world) (fragments chunks : list jsstring) :
  reachable abort_message w ->
  send_refused w = false ->
  Forall (fun s => s <> []) fragments ->
  concat chunks = delta_stream fragments ->
  exists w' : world,
    run abort_message (exchange_events (created w) chunks) w = Some w'
    /\ messages w'
       = messages w ++ [ {| role := User; content := input w |};
                         {| role := Assistant; content := concat fragments |} ]
    /\ at_rest w' /\ input w' = [] /\ model w' = model w.
Proof.
  intros Hr Hg Hf Hc. rewrite (run_exchange abort_message w chunks Hr Hg).
  replace (messages w ++ [ {| role := User; content := input w |};
                           {| role := Assistant; content := [] |} ])
    with ((messages w ++ [ {| role := User; content := input w |} ]) ++ [placeholder])
    by (rewrite <- app_assoc; reflexivity).
  rewrite (read_chunks_delta_stream fragments chunks _ Hf Hc). cbn.
  eexists. split; [reflexivity|]. cbn. rewrite <- app_assoc. repeat split.
Qed.

End ExchangeFacts.

(** ** From the page to the upstream *)

Section WireFacts.
Import Js.

Variable axios_post : Route.trace -> Route.upstream_request -> Route.post_result.
Variable Math_random : Route.trace -> Q.
Variable init_error : init_failure -> thrown.

(** The filter of the handler keeps of the messages of the page what the
    filter of the page keeps. *)
Lemma keep_to_message (m : Page.Msg) :
  Route.keep_message (Wire.to_message m)
    = negb (Page.is_assistant (Page.role m) && jsstring_eqb (trim (Page.content m)) []).
Proof.
  destruct m as [r c]. unfold Route.keep_message, Route.blank_content, Route.no_tool_calls.
  cbn [Wire.to_message Route.role Route.content Route.tool_calls Page.role Page.content].
  rewrite andb_true_r.
  destruct r; destruct c as [|x c]; reflexivity.
Qed.

Lemma filter_to_message (msgs : list Page.Msg) :
  List.filter Route.keep_message (map Wire.to_message msgs)
    = map Wire.to_message
        (List.filter
           (fun m => negb (Page.is_assistant (Page.role m)
                           && jsstring_eqb (trim (Page.content m)) []))
           msgs).
Proof.
  induction msgs as [|m msgs IH]; [reflexivity|].
  cbn [map List.filter]. rewrite keep_to_message, IH.
  destruct (negb _); reflexivity.
Qed.

Lemma filter_filter (A : Type) (f : A -> bool) (l : list A) :
  List.filter f (List.filter f l) = List.filter f l.
Proof.
  induction l as [|x l IH]; [reflexivity|]. cbn.
  destruct (f x) eqn:E; cbn; rewrite ?E, IH; reflexivity.
Qed.

(** X21: what the page sends is what the upstream is asked. The body of
    the request of a call of [send] that passes the guard has the model
    selected and the conversation without the assistant messages whose
    content is blank, then the user's message; the placeholder is not in it.
    The filter of the handler drops nothing of it, and every request of the
    handler to the upstream carries exactly these messages, with the
    temperature 0.2. *)
Theorem page_request_reaches_upstream_unchanged
    (w : Page.world) (ac : nat) (b : Page.api_body) (e : Route.env)
    (r : Route.upstream_request) :
  Page.send_refused w = false ->
  last (Page.effects (Page.send w)) = Some (Page.EFetch ac b) ->
  r ∈ Route.posts (Route.POST axios_post Math_random init_error e
                     (Route.BodyOk (Wire.to_payload b))).2 ->
  ac = Page.created w
  /\ Page.api_model b = Page.model w
  /\ Page.api_messages b
     = List.filter
         (fun m => negb (Page.is_assistant (Page.role m)
                         && jsstring_eqb (trim (Page.content m)) []))
         (Page.messages w)
       ++ [ {| Page.role := Page.User; Page.content := Page.input w |} ]
  /\ Route.filtered (Wire.to_payload b) = map Wire.to_message (Page.api_messages b)
  /\ Route.preferred (Wire.to_payload b) = Page.model w
  /\ Route.req_messages r = map Wire.to_message (Page.api_messages b)
  /\ Route.req_temperature r = (2 # 10)%Q.
Proof.
  intros Hg Hlast Hr.
  unfold Page.send in Hlast. unfold Page.send_refused in Hg. rewrite Hg in Hlast.
  cbn [Page.effects] in Hlast. rewrite !app_assoc, last_snoc in Hlast.
  injection Hlast as <- <-.
  assert (List.filter
            (fun m => negb (Page.is_assistant (Page.role m)
                            && jsstring_eqb (trim (Page.content m)) []))
            (Page.messages w ++ [ {| Page.role := Page.User; Page.content := Page.input w |};
                                  {| Page.role := Page.Assistant; Page.content := [] |} ])
          = List.filter
              (fun m => negb (Page.is_assistant (Page.role m)
                              && jsstring_eqb (trim (Page.content m)) []))
              (Page.messages w)
            ++ [ {| Page.role := Page.User; Page.content := Page.input w |} ]) as Hmsgs.
  { rewrite List.filter_app. reflexivity. }
  assert (Route.filtered
            (Wire.to_payload
               {| Page.api_messages :=
                    List.filter
                      (fun m => negb (Page.is_assistant (Page.role m)
                                      && jsstring_eqb (trim (Page.content m)) []))
                      (Page.messages w
                       ++ [ {| Page.role := Page.User; Page.content := Page.input w |};
                            {| Page.role := Page.Assistant; Page.content := [] |} ]);
                  Page.api_model := Page.model w |})
          = map Wire.to_message
              (List.filter
                 (fun m => negb (Page.is_assistant (Page.role m)
                                 && jsstring_eqb (trim (Page.content m)) []))
                 (Page.messages w
                  ++ [ {| Page.role := Page.User; Page.content := Page.input w |};
                       {| Page.role := Page.Assistant; Page.content := [] |} ]))) as Hfiltered.
  { unfold Route.filtered, Wire.to_payload.
    cbn [Route.messages Page.api_messages default]. cbn [from_option id].
    rewrite filter_to_message, filter_filter. reflexivity. }
  destruct (POST_requests _ _ _ _ _ _ Hr) as (p & key & m & [= <-] & ->).
  cbn [Page.api_model Page.api_messages].
  split; [reflexivity|]. split; [reflexivity|]. split; [exact Hmsgs|].
  split; [exact Hfiltered|]. split; [reflexivity|].
  split; [exact Hfiltered | reflexivity].
Qed.

End WireFacts.

(** ** The page and the stream on the data of the tests *)

Lemma initial_reachable : Page.reachable Fixtures.ABORT_MESSAGE Page.initial.
Proof. exists []. reflexivity. Qed.

(** After the first line of the test: the user's message, then the
    assistant's. *)
Lemma conversation_is_made_of_turns_witness :
  Page.turns (Page.messages Fixtures.READING)
  /\ Nat.Even (length (Page.messages Fixtures.READING)).
Proof.
  destruct (conversation_is_made_of_turns Fixtures.ABORT_MESSAGE Fixtures.READING
              reading_reachable) as (Ht & He & _).
  split; assumption.
Defined.

Lemma effects_are_about_the_latest_request_witness :
  Page.fetch_ids (Page.effects Fixtures.READING) = [0%nat]
  /\ Page.about_latest None (Page.effects Fixtures.READING).
Proof.
  destruct (effects_are_about_the_latest_request Fixtures.ABORT_MESSAGE Fixtures.READING
              reading_reachable) as (Hf & Hl & _).
  split; [exact Hf | exact Hl].
Defined.

(** Stop while the request is in flight: the request is aborted, the
    promise of [send] is rejected, the placeholder stays. *)
Lemma stop_puts_the_page_at_rest_witness :
  exists w' : Page.world,
    Page.step Fixtures.ABORT_MESSAGE Page.PressStop Fixtures.IN_FLIGHT = Some w'
    /\ Page.at_rest w'
    /\ Page.messages w' = Page.messages Fixtures.IN_FLIGHT.
Proof.
  destruct (stop_puts_the_page_at_rest Fixtures.ABORT_MESSAGE Fixtures.IN_FLIGHT
              in_flight_reachable) as (w' & Hs & Hr & Hm & _).
  exists w'. repeat split; try assumption; apply Hr.
Defined.

Lemma reset_empties_the_page_witness :
  exists w' : Page.world,
    Page.step Fixtures.ABORT_MESSAGE Page.PressReset Fixtures.READING = Some w'
    /\ Page.messages w' = [] /\ Page.input w' = [].
Proof.
  destruct (reset_empties_the_page Fixtures.ABORT_MESSAGE Fixtures.READING
              reading_reachable) as (w' & w0 & Hs & _ & _ & _ & Hm & Hi & _).
  exists w'. repeat split; assumption.
Defined.

(** The response 400 of the tests of the route, seen by the page. *)
Lemma error_response_witness :
  Page.tasks Fixtures.IN_FLIGHT = [Page.AwaitFetch 0]
  /\ exists w2 : Page.world,
       Page.run Fixtures.ABORT_MESSAGE
         [Page.FetchResolves 0 {| Page.ok := false; Page.has_body := true |};
          Page.TextResolves 0 (Js.js "Upstream 400: bad request")] Fixtures.IN_FLIGHT
         = Some w2
       /\ Page.pending w2 = false
       /\ Page.abortRef w2 = Some 0%nat.
Proof.
  split; [reflexivity|].
  destruct (error_response_replaces_the_last_message Fixtures.ABORT_MESSAGE
              Fixtures.IN_FLIGHT 0 {| Page.ok := false; Page.has_body := true |}
              (Js.js "Upstream 400: bad request") in_flight_reachable eq_refl
              (or_introl eq_refl))
    as (w1 & w2 & front & l & H1 & H2 & _ & _ & _ & _ & _ & _ & Hp & _ & Ha & _).
  exists w2. split; [|split; assumption].
  cbn [Page.run]. rewrite H1. cbn [mbind option_bind]. rewrite H2. reflexivity.
Defined.

Lemma failed_request_witness :
  exists w1 : Page.world,
    Page.step Fixtures.ABORT_MESSAGE (Page.FetchRejects 0) Fixtures.IN_FLIGHT = Some w1
    /\ Page.pending w1 = true
    /\ Page.tasks w1 = [].
Proof.
  eexists. split; [vm_compute; reflexivity|].
  destruct (failed_request_leaves_send_disabled Fixtures.ABORT_MESSAGE Fixtures.IN_FLIGHT _ 0
              (Page.FetchRejects 0) in_flight_reachable (or_introl eq_refl) eq_refl)
    as (_ & _ & Ht & Hp & _).
  split; assumption.
Defined.

(** An exchange from the initial state whose stream has one line, with
    the fragment 5: the answer shown is "5". *)
Lemma exchange_adds_one_turn_witness :
  Page.send_refused Page.initial = false
  /\ exists w' : Page.world,
       Page.run Fixtures.ABORT_MESSAGE
         (Page.exchange_events 0
            [Js.jsq "data: {'choices':[{'delta':{'content':5}}]}" ++ [Js.LF]]) Page.initial
         = Some w'
       /\ Page.messages w'
          = [ {| Page.role := Page.User; Page.content := Page.INITIAL_INPUT |};
              {| Page.role := Page.Assistant; Page.content := Js.js "5" |} ]
       /\ length (Page.messages w') = 2%nat.
Proof.
  split; [reflexivity|].
  destruct (exchange_adds_one_turn Fixtures.ABORT_MESSAGE Page.initial
              [Js.jsq "data: {'choices':[{'delta':{'content':5}}]}" ++ [Js.LF]]
              initial_reachable eq_refl) as (Hshown & _ & _).
  destruct (Hshown []
              [ {| Page.role := Page.User; Page.content := Page.INITIAL_INPUT |};
                {| Page.role := Page.Assistant; Page.content := Js.js "5" |} ]
              eq_refl)
    as (w' & b & text & Hrun & Hm & _ & Hl & _).
  exists w'. repeat split; assumption.
Defined.

(** A line whose content is the number 5: lib/sse.ts finds the number,
    the page shows its digits. *)
Lemma page_reads_what_sse_extracts_witness :
  let text := Js.jsq "data: {'choices':[{'delta':{'content':5}}]}" in
  Forall (fun line => Js.startsWith (Js.trimStart line) Sse.DATA_MARKER = true ->
                      Js.startsWith line Sse.DATA_MARKER = true) (Js.split_lines text)
  /\ Sse.extractDeltaContentFromSSE text = [Js.JNum (Js.js "5")]
  /\ Page.drain (text ++ [Js.LF]) [Fixtures.placeholder]
     = Some ([], [ {| Page.role := Page.Assistant; Page.content := Js.js "5" |} ]).
Proof.
  cbv zeta.
  assert (Forall (fun line => Js.startsWith (Js.trimStart line) Sse.DATA_MARKER = true ->
                              Js.startsWith line Sse.DATA_MARKER = true)
            (Js.split_lines (Js.jsq "data: {'choices':[{'delta':{'content':5}}]}"))) as H
    by (repeat constructor).
  split; [exact H|]. split; [vm_compute; reflexivity|].
  etrans; [apply (page_reads_what_sse_extracts _ [Fixtures.placeholder] H)|].
  vm_compute. reflexivity.
Defined.

(** The line of the fragment "Hi" in three reads, after a user's message. *)
Lemma split_line_witness :
  let front := [ {| Page.role := Page.User; Page.content := Js.js "Salut" |} ] in
  let pieces := [Js.jsq "data: {'choi"; Js.jsq "ces':[{'delta':{'con"] in
  let final := Js.jsq "tent':'Hi'}}]}" ++ [Js.LF] in
  Page.read_chunks pieces [] (front ++ [Fixtures.placeholder])
    = Some (Js.jsq "data: {'choices':[{'delta':{'con", front ++ [Fixtures.placeholder])
  /\ Page.read_chunks (pieces ++ [final]) [] (front ++ [Fixtures.placeholder])
     = Some ([], front ++ [ {| Page.role := Page.Assistant; Page.content := Js.js "Hi" |} ]).
Proof.
  cbv zeta.
  destruct split_line_is_reassembled as (_ & _ & _ & H & _).
  apply (H (Js.js "Hi") [Js.jsq "data: {'choi"; Js.jsq "ces':[{'delta':{'con"]
           (Js.jsq "tent':'Hi'}}]}" ++ [Js.LF])
           [ {| Page.role := Page.User; Page.content := Js.js "Salut" |} ]).
  - discriminate.
  - discriminate.
  - reflexivity.
Defined.

(** The stream of the first test of the page is the stream of its two
    fragments. *)
Lemma stream_of_fragments_witness :
  Fixtures.delta_stream [Js.js "Bonjour"; Js.js " !"] = Fixtures.BONJOUR_STREAM
  /\ Page.read_chunks [Fixtures.BONJOUR_LINE; Fixtures.BANG_LINE; Fixtures.DONE_LINE] []
       [Fixtures.placeholder]
     = Some ([], [ {| Page.role := Page.Assistant; Page.content := Js.js "Bonjour !" |} ]).
Proof.
  split; [reflexivity|].
  apply (stream_of_fragments_is_shown [Js.js "Bonjour"; Js.js " !"]
           [Fixtures.BONJOUR_LINE; Fixtures.BANG_LINE; Fixtures.DONE_LINE] []).
  - repeat constructor; discriminate.
  - reflexivity.
Defined.

Lemma exchange_shows_the_answer_witness :
  exists w' : Page.world,
    Page.run Fixtures.ABORT_MESSAGE
      (Page.exchange_events 0 [Fixtures.BONJOUR_LINE; Fixtures.BANG_LINE; Fixtures.DONE_LINE])
      Page.initial = Some w'
    /\ Page.messages w'
       = [ {| Page.role := Page.User; Page.content := Page.INITIAL_INPUT |};
           {| Page.role := Page.Assistant; Page.content := Js.js "Bonjour !" |} ].
Proof.
  destruct (exchange_shows_the_answer Fixtures.ABORT_MESSAGE Page.initial
              [Js.js "Bonjour"; Js.js " !"]
              [Fixtures.BONJOUR_LINE; Fixtures.BANG_LINE; Fixtures.DONE_LINE]
              initial_reachable eq_refl
              ltac:(repeat constructor; discriminate) eq_refl)
    as (w' & Hrun & Hm & _).
  exists w'. split; [exact Hrun | exact Hm].
Defined.

(** The first request of the page, through the handler with the
    environment of its tests and an upstream that answers at once. *)
Lemma page_request_witness :
  exists (b : Page.api_body) (r : Route.upstream_request),
    last (Page.effects (Page.send Page.initial)) = Some (Page.EFetch 0 b)
    /\ r ∈ Route.posts (Route.POST (Fixtures.scripted [Fixtures.SUCCESS_200]) Fixtures.HALF
                          Fixtures.INIT_ERROR Fixtures.TEST_ENV
                          (Route.BodyOk (Wire.to_payload b))).2
    /\ Route.req_messages r
       = [ {| Route.role := Js.js "user"; Route.content := Some Page.INITIAL_INPUT;
              Route.tool_calls := None |} ].
Proof.
  exists {| Page.api_messages := [ {| Page.role := Page.User;
                                      Page.content := Page.INITIAL_INPUT |} ];
            Page.api_model := Page.DEFAULT_MODEL |}.
  exists (Route.request_of (Js.js "test-key")
            (Wire.to_payload
               {| Page.api_messages := [ {| Page.role := Page.User;
                                            Page.content := Page.INITIAL_INPUT |} ];
                  Page.api_model := Page.DEFAULT_MODEL |})
            Page.DEFAULT_MODEL).
  assert (Route.request_of (Js.js "test-key")
            (Wire.to_payload
               {| Page.api_messages := [ {| Page.role := Page.User;
                                            Page.content := Page.INITIAL_INPUT |} ];
                  Page.api_model := Page.DEFAULT_MODEL |})
            Page.DEFAULT_MODEL
          ∈ Route.posts (Route.POST (Fixtures.scripted [Fixtures.SUCCESS_200]) Fixtures.HALF
                           Fixtures.INIT_ERROR Fixtures.TEST_ENV
                           (Route.BodyOk
                              (Wire.to_payload
                                 {| Page.api_messages :=
                                      [ {| Page.role := Page.User;
                                           Page.content := Page.INITIAL_INPUT |} ];
                                    Page.api_model := Page.DEFAULT_MODEL |}))).2) as Hin.
  { apply list_elem_of_singleton. reflexivity. }
  split; [reflexivity|]. split; [exact Hin|].
  apply (page_request_reaches_upstream_unchanged
           (Fixtures.scripted [Fixtures.SUCCESS_200]) Fixtures.HALF Fixtures.INIT_ERROR
           Page.initial 0 _ Fixtures.TEST_ENV _ eq_refl eq_refl Hin).
Defined.
